(** * Floorboards: the column-filling layout engine, verified

    A shallow embedding of the pool-based layout engine of the Floorboards
    planner (classes [HEdge], [Plank], [Column] and [Room]) and the
    properties of its specification.

    Numbers.  The program computes with JavaScript numbers, which are
    IEEE 754 doubles; here every coordinate and length is an exact integer
    ([Z], e.g. tenths of a millimetre), so that [+], [-], [<] and
    [Math.min]/[Math.max] are the exact operations.  This is what the
    program computes when its numbers are integers of moderate size
    ([small_room]: magnitude at most 2^50, far below 2^53), and the
    properties that rest on exact arithmetic say so.  Module [Doubles] has
    the arithmetic of the cut and of the two loop counters in doubles, for
    the inputs on which rounding shows.

    Objects.  A plank is a mutable object that lives either in
    [room.partials] or in the [planks] array of one column, never in two
    places: every plank is made by [new Plank], [selectPartial] splices a
    plank out of the pool before it is pushed on a column, and the retry
    pushes it back while the column is dropped.  Records are therefore
    passed by value, and the two static counters [Plank.NEXT] and
    [Plank.UID] are threaded explicitly.  The one place where objects are
    shared, the bins of [shuffle], is modelled with indices into the
    column array. *)

From Stdlib Require Import ZArith Lia Floats.
From stdpp Require Import base option list sorting gmap strings pretty.

Local Open Scope Z_scope.

#[local] Set Warnings "-inexact-float".

(** [Number.MAX_SAFE_INTEGER] and [Number.MIN_SAFE_INTEGER]. *)
Definition MAX_SAFE_INTEGER : Z := 9007199254740991.
Definition MIN_SAFE_INTEGER : Z := -9007199254740991.

(** ** class HEdge *)
Module HEdge.
Record t := mk { left : Z; right : Z; y : Z }.

  (** The [attrs] object of the constructor; an absent key is [None]. *)
Record attrs := Attrs { a_left : option Z; a_right : option Z; a_y : option Z }.

  (** [new HEdge(attrs)]: every member defaults to 0 with [??]. *)
Definition constructor (a : attrs) : t :=
    mk (default 0 (a_left a)) (default 0 (a_right a)) (default 0 (a_y a)).
End HEdge.

(** ** Room vertices *)
Module Vertex.
Record t := mk { x : Z; y : Z; id : string }.
End Vertex.

(** ** class Plank *)
Module Plank.
  (** The static members [Plank.NEXT] and [Plank.UID]. *)
Record statics := Statics { NEXT : Z; UID : Z }.

Record t := mk {
    uid : Z;            (* internal identity *)
    id : Z;             (* user identifier, shared by the two pieces of a cut *)
    cut_end : string;   (* "" whole, ">" cut at the top, "<" cut at the bottom *)
    left : Z;
    top : Z;
    width : Z;
    length : Z;
    permanent : bool }.

  (** The [attrs] object of the constructor; an absent key is [None]. *)
Record attrs := Attrs {
    a_left : option Z; a_top : option Z; a_width : option Z;
    a_length : option Z; a_id : option Z; a_cut_end : option string;
    a_permanent : option bool }.

  (** [new Plank(attrs)]: [uid = Plank.UID++], [id = attrs.id ?? Plank.NEXT++]
      and the other members default with [??]. *)
Definition constructor (a : attrs) (g : statics) : t * statics :=
    let u := UID g in
    let g1 := Statics (NEXT g) (UID g + 1) in
    let '(i, g2) := match a_id a with
                    | Some i => (i, g1)
                    | None => (NEXT g1, Statics (NEXT g1 + 1) (UID g1))
                    end in
    (mk u i (default ""%string (a_cut_end a)) (default 0 (a_left a))
        (default 0 (a_top a)) (default 0 (a_width a)) (default 0 (a_length a))
        (default false (a_permanent a)), g2).

Definition set_left (v : Z) (p : t) : t :=
    mk (uid p) (id p) (cut_end p) v (top p) (width p) (length p) (permanent p).
Definition set_top (v : Z) (p : t) : t :=
    mk (uid p) (id p) (cut_end p) (left p) v (width p) (length p) (permanent p).
Definition set_id (v : Z) (p : t) : t :=
    mk (uid p) v (cut_end p) (left p) (top p) (width p) (length p) (permanent p).

  (** The getters [bottom] and [right]. *)
Definition bottom (p : t) : Z := top p + length p.
Definition right (p : t) : Z := left p + width p.

  (** [for (const plank of planks) push(new Plank(plank))], as the
      constructors of [Column] and [Room] copy the planks of a template. *)
Fixpoint construct_all (planks : list attrs) (g : statics) : list t * statics :=
    match planks with
    | [] => ([], g)
    | plank :: planks' =>
        let '(p, g1) := constructor plank g in
        let '(ps, g2) := construct_all planks' g1 in
        (p :: ps, g2)
    end.

  (** A plank as [JSON.stringify] writes it and [JSON.parse] reads it back:
      every member is present.  ([uid] is written too, and the constructor
      does not read it.) *)
Definition stringify (p : t) : attrs :=
    Attrs (Some (left p)) (Some (top p)) (Some (width p)) (Some (length p))
          (Some (id p)) (Some (cut_end p)) (Some (permanent p)).
End Plank.

(** ** class Column *)
Module Column.
Record t := mk { left : Z; width : Z; top : Z; bottom : Z; planks : list Plank.t }.

  (** [new Column({ left, width })]: [top] and [bottom] start at the
      sentinels and the plank list is empty. *)
Definition constructor (l w : Z) : t :=
    mk l w MAX_SAFE_INTEGER MIN_SAFE_INTEGER [].

Definition height (c : t) : Z := bottom c - top c.
Definition right (c : t) : Z := left c + width c.

  (** [clip(hedge)]: the four overlap tests, then narrow [bottom] and [top]. *)
Definition clip (hedge : HEdge.t) (c : t) : t :=
    if ((HEdge.left hedge <=? left c) && (left c <? HEdge.right hedge))
       || ((HEdge.left hedge <? right c) && (right c <=? HEdge.right hedge))
       || ((HEdge.left hedge <? left c) && (right c <? HEdge.right hedge))
       || ((left c <? HEdge.left hedge) && (HEdge.right hedge <? right c))
    then mk (left c) (width c) (Z.min (HEdge.y hedge) (top c))
            (Z.max (HEdge.y hedge) (bottom c)) (planks c)
    else c.

Definition set_left (v : Z) (c : t) : t :=
    mk v (width c) (top c) (bottom c) (planks c).
Definition set_planks (ps : list Plank.t) (c : t) : t :=
    mk (left c) (width c) (top c) (bottom c) ps.

  (** [lineUpPlanks()]: every plank takes the column's [left]. *)
Definition lineUpPlanks (c : t) : t :=
    set_planks (map (Plank.set_left (left c)) (planks c)) c.

  (** The [attrs] object of the constructor in full; an absent key is
      [None]. *)
Record attrs := Attrs {
    a_left : option Z; a_width : option Z; a_top : option Z; a_bottom : option Z;
    a_planks : option (list Plank.attrs) }.

  (** [new Column(attrs)] for any [attrs]: the members default with [??]
      and the planks of [attrs.planks] are copied with [new Plank]. *)
Definition construct (a : attrs) (g : Plank.statics) : t * Plank.statics :=
    let '(ps, g') := Plank.construct_all (default [] (a_planks a)) g in
    (mk (default 0 (a_left a)) (default 0 (a_width a))
        (default MAX_SAFE_INTEGER (a_top a)) (default MIN_SAFE_INTEGER (a_bottom a))
        ps, g').

Fixpoint construct_all (cols : list attrs) (g : Plank.statics)
      : list t * Plank.statics :=
    match cols with
    | [] => ([], g)
    | col :: cols' =>
        let '(c, g1) := construct col g in
        let '(cs, g2) := construct_all cols' g1 in
        (c :: cs, g2)
    end.

  (** A column as [JSON.stringify] writes it. *)
Definition stringify (c : t) : attrs :=
    Attrs (Some (left c)) (Some (width c)) (Some (top c)) (Some (bottom c))
          (Some (map Plank.stringify (planks c))).
End Column.

(** ** class Room *)
Module Room.
Record t := mk {
    vertices : list Vertex.t;
    START_LEFT : Z; START_TOP : Z; PLANK_WIDTH : Z; PLANK_LENGTH : Z;
    CUT_THICKNESS : Z; MIN_PLANK_LENGTH : Z;
    hedges : list HEdge.t;
    columns : list Column.t;
    leftmost : Z; rightmost : Z; topmost : Z; bottommost : Z;
    partials : list Plank.t;
    planksNeeded : Z;
    cuts : Z }.

Definition with_measure (hs : list HEdge.t) (lm rm tm bm : Z) (r : t) : t :=
    mk (vertices r) (START_LEFT r) (START_TOP r) (PLANK_WIDTH r) (PLANK_LENGTH r)
       (CUT_THICKNESS r) (MIN_PLANK_LENGTH r) hs (columns r) lm rm tm bm
       (partials r) (planksNeeded r) (cuts r).

Definition with_layout (cols : list Column.t) (ps : list Plank.t)
      (needed ncuts : Z) (r : t) : t :=
    mk (vertices r) (START_LEFT r) (START_TOP r) (PLANK_WIDTH r) (PLANK_LENGTH r)
       (CUT_THICKNESS r) (MIN_PLANK_LENGTH r) (hedges r) cols
       (leftmost r) (rightmost r) (topmost r) (bottommost r) ps needed ncuts.

Definition set_columns (cols : list Column.t) (r : t) : t :=
    with_layout cols (partials r) (planksNeeded r) (cuts r) r.
Definition set_partials (ps : list Plank.t) (r : t) : t :=
    with_layout (columns r) ps (planksNeeded r) (cuts r) r.

  (** *** measure *)

  (** One turn of the loop over the vertices: widen the bounding box with
      [p1] and push a horizontal edge when the next vertex (cyclically) has
      the same [y]. *)
Definition measure_step (vs : list Vertex.t) (i : nat) (p1 : Vertex.t) (r : t) : t :=
    let lm := Z.min (leftmost r) (Vertex.x p1) in
    let rm := Z.max (rightmost r) (Vertex.x p1) in
    let tm := Z.min (topmost r) (Vertex.y p1) in
    let bm := Z.max (bottommost r) (Vertex.y p1) in
    let p2 := default p1 (vs !! ((i + 1) `mod` List.length vs)%nat) in
    let hs := if Vertex.y p1 =? Vertex.y p2
              then hedges r ++ [HEdge.mk (Z.min (Vertex.x p1) (Vertex.x p2))
                                         (Z.max (Vertex.x p1) (Vertex.x p2))
                                         (Vertex.y p1)]
              else hedges r in
    with_measure hs lm rm tm bm r.

Fixpoint measure_loop (vs rest : list Vertex.t) (i : nat) (r : t) : t :=
    match rest with
    | [] => r
    | p1 :: rest' => measure_loop vs rest' (S i) (measure_step vs i p1 r)
    end.

Definition measure (r : t) : t :=
    measure_loop (vertices r) (vertices r) 0%nat
      (with_measure [] MAX_SAFE_INTEGER MIN_SAFE_INTEGER
                       MAX_SAFE_INTEGER MIN_SAFE_INTEGER r).

  (** *** selectPartial *)

  (** [partial.length > bl]; [bl] starts as [Number.MIN_SAFE_VALUE], which
      does not exist, so it is [undefined] ([None]) and the comparison is
      false until a first match has set it. *)
Definition js_gt (v : Z) (bl : option Z) : bool :=
    match bl with Some b => b <? v | None => false end.

  (** The scan of [selectPartial]; [best] is [None] for the source's -1. *)
Fixpoint selectPartial_scan (cut_end : string) (min_length : Z)
      (rest : list Plank.t) (i : nat) (best : option nat) (bl : option Z)
      : option nat :=
    match rest with
    | [] => best
    | partial :: rest' =>
        if bool_decide (Plank.cut_end partial = cut_end)
           && (min_length <? Plank.length partial)
        then
          if bool_decide (best = None) || js_gt (Plank.length partial) bl
          then selectPartial_scan cut_end min_length rest' (S i) (Some i)
                 (Some (Plank.length partial))
          else selectPartial_scan cut_end min_length rest' (S i) best bl
        else selectPartial_scan cut_end min_length rest' (S i) best bl
    end.

  (** [selectPartial(cut_end, min_length)] on the pool: the plank returned
      (or [None] for [undefined]) and the pool after [splice(best, 1)]. *)
Definition selectPartial (cut_end : string) (min_length : Z)
      (pool : list Plank.t) : option Plank.t * list Plank.t :=
    match selectPartial_scan cut_end min_length pool 0%nat None None with
    | None => (None, pool)
    | Some best => (pool !! best, delete best pool)
    end.

  (** *** waste *)
Definition columnage (cols : list Column.t) : Z :=
    foldl (fun acc col => acc + Column.height col) 0 cols.

Definition waste (r : t) : Z :=
    planksNeeded r * PLANK_LENGTH r - columnage (columns r).

  (** *** collectPermanentPartials *)
Fixpoint renumber_from (ps : list Plank.t) (g : Plank.statics)
      : list Plank.t * Plank.statics :=
    match ps with
    | [] => ([], g)
    | p :: ps' =>
        let '(qs, g') :=
          renumber_from ps' (Plank.Statics (Plank.NEXT g + 1) (Plank.UID g)) in
        (Plank.set_id (Plank.NEXT g) p :: qs, g')
    end.

Definition collectPermanentPartials (r : t) (g : Plank.statics)
      : t * Plank.statics :=
    let nPartials :=
      filter (fun p => Plank.permanent p = true) (partials r)
      ++ filter (fun p => Plank.permanent p = true)
           (concat (map Column.planks (columns r))) in
    let '(ps, g') := renumber_from nPartials g in
    (set_partials ps r, g').

(** *** recomputeFloor *)

(** The state of the column loop: the room ([this]), the static counters
    of [Plank] and the loop's variables. *)
Record frame := Frame {
  self : t;
  statics : Plank.statics;
  l : Z;                 (* left edge of the current column *)
  first_offset : Z;      (* offset from the top of the column *)
  pickPartial : bool }.  (* can we start the column with a partial? *)

(** The variables of one turn of the loop.  [col] is the column under
    construction: the source pushes it on [columns] at once and pops it on
    a retry; here it joins [columns] when the turn commits. *)
Record locals := Locals {
  col : Column.t;
  y : Z;                       (* place to put next plank *)
  h : Z;                       (* amount of this column to fill *)
  partial : option Plank.t;    (* the partial the column started with *)
  fullPlanks : Z }.

Definition clipped (r : t) (x : Z) : Column.t :=
  foldl (fun c hedge => Column.clip hedge c)
        (Column.constructor x (PLANK_WIDTH r)) (hedges r).

(** From [new Column] to the end of [if (pickPartial) { ... }]. *)
Definition startColumn (s : frame) : frame * locals :=
  let r := self s in
  let c := clipped r (l s) in
  let y0 := Column.top c + first_offset s in
  let h0 := Column.height c - first_offset s in
  let found := if pickPartial s then selectPartial ">" 0 (partials r)
               else (None, partials r) in
  match found with
  | (Some p, pool) =>
      let p' := Plank.set_top y0 (Plank.set_left (l s) p) in
      (Frame (set_partials pool r) (statics s) (l s) 0 (pickPartial s),
       Locals (Column.set_planks [p'] c) (y0 + Plank.length p)
              (h0 - Plank.length p) (Some p') 0)
  | (None, pool) =>
      (Frame (set_partials pool r) (statics s) (l s) 0 (pickPartial s),
       Locals c y0 h0 None 0)
  end.

Definition full_plank_attrs (r : t) (x top : Z) : Plank.attrs :=
  Plank.Attrs (Some x) (Some top) (Some (PLANK_WIDTH r))
              (Some (PLANK_LENGTH r)) None None None.

(** [while (h > this.PLANK_LENGTH) { ... }]; [None] when the fuel runs
    out before the test fails. *)
Fixpoint fullPlanksLoop (fuel : nat) (s : frame) (v : locals)
    : option (frame * locals) :=
  if PLANK_LENGTH (self s) <? h v then
    match fuel with
    | O => None
    | S fuel' =>
        let '(p, g) :=
          Plank.constructor (full_plank_attrs (self s) (l s) (y v)) (statics s) in
        fullPlanksLoop fuel'
          (Frame (self s) g (l s) (first_offset s) (pickPartial s))
          (Locals (Column.set_planks (Column.planks (col v) ++ [p]) (col v))
                  (y v + PLANK_LENGTH (self s)) (h v - PLANK_LENGTH (self s))
                  (partial v) (fullPlanks v + 1))
    end
  else Some (s, v).

(** The test of the retry: [h > 0 && h < this.MIN_PLANK_LENGTH && partial]. *)
Definition retries (r : t) (v : locals) : bool :=
  (0 <? h v) && (h v <? MIN_PLANK_LENGTH r) && bool_decide (is_Some (partial v)).

(** The retry branch: the partial goes back to the pool, the column is
    popped, [pickPartial] is cleared and [l] stays. *)
Definition retryColumn (s : frame) (v : locals) : frame :=
  Frame (set_partials (partials (self s) ++ option_list (partial v)) (self s))
        (statics s) (l s) (first_offset s) false.

(** The probe for a base partial before a cut: the pool it leaves. *)
Definition probe (pick : bool) (need : Z) (pool : list Plank.t) : list Plank.t :=
  if pick then
    match selectPartial "<" 0 pool with
    | (Some base_partial, pool') =>
        if need <=? Plank.length base_partial
        then pool'                        (* "Found a base partial" *)
        else pool' ++ [base_partial]      (* put it back *)
    | (None, pool') => pool'
    end
  else pool.

(** The body of [if (h > 0) { ... }]: the cut plank ends the column and
    the rest of the cut board is kept when it is long enough. *)
Definition cutColumn (s : frame) (v : locals) : frame * locals :=
  let r := self s in
  let pool := probe (pickPartial s) (h v) (partials r) in
  let '(cp, g1) :=
    Plank.constructor
      (Plank.Attrs (Some (l s)) (Some (y v)) (Some (PLANK_WIDTH r)) (Some (h v))
                   None (Some "<"%string) None) (statics s) in
  let y1 := y v + h v in
  let over := PLANK_LENGTH r - h v - CUT_THICKNESS r in
  let '(pool', g2) :=
    if MIN_PLANK_LENGTH r <? over then
      let '(p, g) :=
        Plank.constructor
          (Plank.Attrs (Some (l s)) (Some y1) (Some (PLANK_WIDTH r)) (Some over)
                       (Some (Plank.id cp)) (Some ">"%string) None) g1 in
      (pool ++ [p], g)
    else (pool, g1) in
  (Frame (with_layout (columns r) pool' (planksNeeded r + 1) (cuts r + 1) r)
         g2 (l s) (first_offset s) (pickPartial s),
   Locals (Column.set_planks (Column.planks (col v) ++ [cp]) (col v))
          y1 (h v) (partial v) (fullPlanks v)).

(** From [this.planksNeeded += fullPlanks] to the end of the loop body:
    the column stays, [l] advances and [pickPartial] is set again. *)
Definition commitColumn (s : frame) (v : locals) : frame :=
  let r := self s in
  let s1 := Frame (with_layout (columns r) (partials r)
                     (planksNeeded r + fullPlanks v) (cuts r) r)
                  (statics s) (l s) (first_offset s) (pickPartial s) in
  let '(s2, v2) := if 0 <? h v then cutColumn s1 v else (s1, v) in
  Frame (set_columns (columns (self s2) ++ [col v2]) (self s2))
        (statics s2) (l s2 + PLANK_WIDTH (self s2)) (first_offset s2) true.

Definition finishColumn (s : frame) (v : locals) : frame :=
  if retries (self s) v then retryColumn s v else commitColumn s v.

(** One turn of [while (l < this.rightmost)]. *)
Definition body (fuel : nat) (s : frame) : option frame :=
  match fullPlanksLoop fuel (fst (startColumn s)) (snd (startColumn s)) with
  | Some (s', v) => Some (finishColumn s' v)
  | None => None
  end.

(** [while (l < this.rightmost) { ... }]: [fuel] bounds the turns of this
    loop and [inner] those of the full-plank loop of each turn. *)
Fixpoint columnLoop (fuel inner : nat) (s : frame) : option frame :=
  if l s <? rightmost (self s) then
    match fuel with
    | O => None
    | S fuel' =>
        match body inner s with
        | Some s' => columnLoop fuel' inner s'
        | None => None
        end
    end
  else Some s.

(** The frame at the head of the loop: ids reset, permanent partials
    collected, counters and columns cleared. *)
Definition enterLoop (r : t) (g : Plank.statics) : frame :=
  let '(r1, g1) := collectPermanentPartials r (Plank.Statics 1 (Plank.UID g)) in
  Frame (with_layout [] (partials r1) 0 0 r1) g1
        (leftmost r1 + START_LEFT r1) (START_TOP r1) true.

Definition recomputeFloor (fuel : nat) (r : t) (g : Plank.statics)
    : option (t * Plank.statics) :=
  match columnLoop fuel fuel (enterLoop r g) with
  | Some s => Some (self s, statics s)
  | None => None
  end.

(** The column positions tried by the loop, in order, each with the value
    of [pickPartial] at the start of the turn. *)
Fixpoint attempts (fuel inner : nat) (s : frame) : list (Z * bool) :=
  if l s <? rightmost (self s) then
    match fuel with
    | O => []
    | S fuel' =>
        (l s, pickPartial s) ::
        match body inner s with
        | Some s' => attempts fuel' inner s'
        | None => []
        end
    end
  else [].

(** The frames in which the turns of the loop begin, in order. *)
Fixpoint turns (fuel inner : nat) (s : frame) : list frame :=
  if l s <? rightmost (self s) then
    match fuel with
    | O => []
    | S fuel' =>
        s ::
        match body inner s with
        | Some s' => turns fuel' inner s'
        | None => []
        end
    end
  else [].

(** *** shuffle *)

(** [bins]: an object keyed by column height whose values are arrays of
    references to the columns; a reference is the column's index in
    [this.columns], and the list keeps the order in which the keys were
    created. *)
Fixpoint bins_push (height : Z) (i : nat) (bins : list (Z * list nat))
    : list (Z * list nat) :=
  match bins with
  | [] => [(height, [i])]
  | (k, bin) :: rest =>
      if k =? height then (k, bin ++ [i]) :: rest
      else (k, bin) :: bins_push height i rest
  end.

(** The binning loop; column 0 is skipped when [START_TOP] is not zero. *)
Fixpoint collectBins (start_top : Z) (cols : list Column.t) (i : nat)
    (bins : list (Z * list nat)) : list (Z * list nat) :=
  match cols with
  | [] => bins
  | c :: cols' =>
      collectBins start_top cols' (S i)
        (if negb (start_top =? 0) && bool_decide (i = 0%nat) then bins
         else bins_push (Column.height c) i bins)
  end.

(** [Object.keys(bins)] lists the keys that are array indices (integers
    from 0 to 2^32 - 2) in ascending order, then the other keys in creation
    order. *)
Definition is_array_index (k : Z) : bool := (0 <=? k) && (k <? 4294967295).

Definition Object_keys (bins : list (Z * list nat)) : list Z :=
  merge_sort Z.le (filter (fun k => is_array_index k = true) (map fst bins))
  ++ filter (fun k => is_array_index k = false) (map fst bins).

Fixpoint bins_get (bins : list (Z * list nat)) (key : Z) : list nat :=
  match bins with
  | [] => []
  | (k, bin) :: rest => if k =? key then bin else bins_get rest key
  end.

(** [Math.random] is an oracle: the list of the successive values of
    [Math.floor(Math.random() * bin.length)].  [while (to == from)] draws
    until the value differs from [from]; the result is [None] when the
    oracle is used up or gives a value that is no index of the bin (which
    [Math.floor] of a number in [0, bin.length) never is). *)
Fixpoint pickPartner (n from : nat) (rnd : list nat) : option (nat * list nat) :=
  match rnd with
  | [] => None
  | d :: rnd' =>
      if bool_decide (d = from) then pickPartner n from rnd'
      else if bool_decide (d < n)%nat then Some (d, rnd') else None
  end.

(** Swap the [left] of the columns at indices [a] and [b] and line up
    their planks. *)
Definition swapLefts (cols : list Column.t) (a b : nat) : list Column.t :=
  match cols !! a, cols !! b with
  | Some ca, Some cb =>
      let t := Column.left ca in
      let cols1 := alter (Column.set_left (Column.left cb)) a cols in
      let cols2 := alter (Column.set_left t) b cols1 in
      alter Column.lineUpPlanks b (alter Column.lineUpPlanks a cols2)
  | _, _ => cols
  end.

(** [for (let i = 0; i < 2 * bin.length; i++)]: [count] turns are left. *)
Fixpoint shuffleBin (bin : list nat) (i count : nat) (cols : list Column.t)
    (rnd : list nat) : option (list Column.t * list nat) :=
  match count with
  | O => Some (cols, rnd)
  | S count' =>
      let from := (i `mod` List.length bin)%nat in
      match pickPartner (List.length bin) from rnd with
      | None => None
      | Some (to, rnd') =>
          match bin !! from, bin !! to with
          | Some a, Some b =>
              shuffleBin bin (S i) count' (swapLefts cols a b) rnd'
          | _, _ => None
          end
      end
  end.

Fixpoint shuffleBins (bins : list (Z * list nat)) (keys : list Z)
    (cols : list Column.t) (rnd : list nat)
    : option (list Column.t * list nat) :=
  match keys with
  | [] => Some (cols, rnd)
  | key :: keys' =>
      let bin := bins_get bins key in
      if bool_decide (1 < List.length bin)%nat then
        match shuffleBin bin 0 (2 * List.length bin) cols rnd with
        | Some (cols', rnd') => shuffleBins bins keys' cols' rnd'
        | None => None
        end
      else shuffleBins bins keys' cols rnd
  end.

(** [this.columns.sort(...)] with the comparator on [left]: the sort of
    JavaScript arrays is stable, so the result is the stable ordering by
    [left], computed here by insertion from the right. *)
Fixpoint sort_insert (c : Column.t) (cols : list Column.t) : list Column.t :=
  match cols with
  | [] => [c]
  | d :: cols' =>
      if Column.left c <=? Column.left d then c :: d :: cols'
      else d :: sort_insert c cols'
  end.

Definition sort_by_left (cols : list Column.t) : list Column.t :=
  foldr sort_insert [] cols.

(** The renumbering loop over the planks of one column: [remap] is the
    lookup from old to new ids and [newId] the next new id. *)
Fixpoint renumberPlanks (ps : list Plank.t) (remap : gmap Z Z) (newId : Z)
    : list Plank.t * gmap Z Z * Z :=
  match ps with
  | [] => ([], remap, newId)
  | plank :: ps' =>
      let '(v, remap1, newId1) :=
        match remap !! Plank.id plank with
        | None => (newId, <[Plank.id plank := newId]> remap, newId + 1)
        | Some v => (v, remap, newId)
        end in
      let '(qs, remap2, newId2) := renumberPlanks ps' remap1 newId1 in
      (Plank.set_id v plank :: qs, remap2, newId2)
  end.

Fixpoint renumberColumns (cols : list Column.t) (remap : gmap Z Z) (newId : Z)
    : list Column.t * gmap Z Z * Z :=
  match cols with
  | [] => ([], remap, newId)
  | c :: cols' =>
      let '(ps, remap1, newId1) := renumberPlanks (Column.planks c) remap newId in
      let '(ds, remap2, newId2) := renumberColumns cols' remap1 newId1 in
      (Column.set_planks ps c :: ds, remap2, newId2)
  end.

(** [shuffle()] with the oracle [rnd] for [Math.random]. *)
Definition shuffle (rnd : list nat) (r : t) : option t :=
  let bins := collectBins (START_TOP r) (columns r) 0 [] in
  match shuffleBins bins (Object_keys bins) (columns r) rnd with
  | Some (cols, _) =>
      Some (set_columns (renumberColumns (sort_by_left cols) ∅ 1).1.1 r)
  | None => None
  end.

(** *** constructor *)

(** The room that [new Room(template)] holds, for a template with the
    vertices and the parameters only, just before it calls [measure()] and
    [recomputeFloor()]: no hedges, columns or partials, the bounding
    rectangle at the sentinels and the counters at 0. *)
Definition blank (vs : list Vertex.t)
    (start_left start_top plank_width plank_length cut_thickness min_plank_length : Z)
    : t :=
  mk vs start_left start_top plank_width plank_length cut_thickness
     min_plank_length [] [] MAX_SAFE_INTEGER MIN_SAFE_INTEGER
     MAX_SAFE_INTEGER MIN_SAFE_INTEGER [] 0 0.

(** The [template] object of the constructor, as [JSON.parse] gives it; an
    absent key is [None]. *)
Record template := Template {
  t_vertices : option (list Vertex.t);
  t_START_LEFT : option Z; t_START_TOP : option Z; t_PLANK_WIDTH : option Z;
  t_PLANK_LENGTH : option Z; t_CUT_THICKNESS : option Z;
  t_MIN_PLANK_LENGTH : option Z;
  t_hedges : option (list HEdge.attrs);
  t_columns : option (list Column.attrs);
  t_leftmost : option Z; t_rightmost : option Z;
  t_topmost : option Z; t_bottommost : option Z;
  t_partials : option (list Plank.attrs);
  t_planksNeeded : option Z; t_cuts : option Z }.

(** The static [Room.PARAMS], the defaults of the six parameters.  The
    source gives them in centimetres, [CUT_THICKNESS] being 0.5; here they
    are an argument of the constructor, in the unit of the room. *)
Record params := Params {
  P_START_LEFT : Z; P_START_TOP : Z; P_PLANK_WIDTH : Z; P_PLANK_LENGTH : Z;
  P_CUT_THICKNESS : Z; P_MIN_PLANK_LENGTH : Z }.

(** [new Room(template)]: the members are taken from the template or
    defaulted, the hedges, columns and partials are copied object by
    object, and a room without columns is measured and laid out.  (The
    writes to the input fields of the page are left out.) *)
Definition constructor (fuel : nat) (PARAMS : params) (tpl : template)
    (g : Plank.statics) : option (t * Plank.statics) :=
  let hs := map HEdge.constructor (default [] (t_hedges tpl)) in
  let '(cols, g1) := Column.construct_all (default [] (t_columns tpl)) g in
  let '(ps, g2) := Plank.construct_all (default [] (t_partials tpl)) g1 in
  let r :=
    mk (default [] (t_vertices tpl))
       (default (P_START_LEFT PARAMS) (t_START_LEFT tpl))
       (default (P_START_TOP PARAMS) (t_START_TOP tpl))
       (default (P_PLANK_WIDTH PARAMS) (t_PLANK_WIDTH tpl))
       (default (P_PLANK_LENGTH PARAMS) (t_PLANK_LENGTH tpl))
       (default (P_CUT_THICKNESS PARAMS) (t_CUT_THICKNESS tpl))
       (default (P_MIN_PLANK_LENGTH PARAMS) (t_MIN_PLANK_LENGTH tpl))
       hs cols
       (default MAX_SAFE_INTEGER (t_leftmost tpl))
       (default MIN_SAFE_INTEGER (t_rightmost tpl))
       (default MAX_SAFE_INTEGER (t_topmost tpl))
       (default MIN_SAFE_INTEGER (t_bottommost tpl))
       ps
       (default 0 (t_planksNeeded tpl)) (default 0 (t_cuts tpl)) in
  if bool_decide (List.length cols = 0%nat)
  then recomputeFloor fuel (measure r) g2
  else Some (r, g2).

(** The room as the save button writes it with [JSON.stringify(room)] and
    [JSON.parse] reads it back: every member is present. *)
Definition stringify (r : t) : template :=
  Template (Some (vertices r))
    (Some (START_LEFT r)) (Some (START_TOP r)) (Some (PLANK_WIDTH r))
    (Some (PLANK_LENGTH r)) (Some (CUT_THICKNESS r)) (Some (MIN_PLANK_LENGTH r))
    (Some (map (fun e => HEdge.Attrs (Some (HEdge.left e)) (Some (HEdge.right e))
                           (Some (HEdge.y e))) (hedges r)))
    (Some (map Column.stringify (columns r)))
    (Some (leftmost r)) (Some (rightmost r)) (Some (topmost r)) (Some (bottommost r))
    (Some (map Plank.stringify (partials r)))
    (Some (planksNeeded r)) (Some (cuts r)).

(** *** clearPartials *)

(** The loop [for (let i = 0; i < col.planks.length; )] that splices every
    permanent plank out of a column. *)
Fixpoint splicePermanent (planks : list Plank.t) : list Plank.t :=
  match planks with
  | [] => []
  | plank :: planks' =>
      if Plank.permanent plank then splicePermanent planks'
      else plank :: splicePermanent planks'
  end.

Definition clearPartials (r : t) : t :=
  with_layout
    (map (fun col => Column.set_planks (splicePermanent (Column.planks col)) col)
         (columns r))
    [] (planksNeeded r) (cuts r) r.

(** *** removePartial *)

(** The loop over the columns: the first plank with this [uid] is spliced
    out of its column. *)
Fixpoint removeFromColumns (uid : Z) (cols : list Column.t)
    : option (Plank.t * list Column.t) :=
  match cols with
  | [] => None
  | col :: cols' =>
      match list_find (fun plank => Plank.uid plank = uid) (Column.planks col) with
      | Some (i, plank) =>
          Some (plank, Column.set_planks (delete i (Column.planks col)) col :: cols')
      | None =>
          match removeFromColumns uid cols' with
          | Some (plank, cols'') => Some (plank, col :: cols'')
          | None => None
          end
      end
  end.

(** [removePartial(uid)]: the plank returned ([None] for [undefined]) and
    the room afterwards. *)
Definition removePartial (uid : Z) (r : t) : option Plank.t * t :=
  match list_find (fun plank => Plank.uid plank = uid) (partials r) with
  | Some (i, plank) => (Some plank, set_partials (delete i (partials r)) r)
  | None =>
      match removeFromColumns uid (columns r) with
      | Some (plank, cols) => (Some plank, set_columns cols r)
      | None => (None, r)
      end
  end.

(** *** cuttingSchedule *)

(** [n.toFixed(1)] of an integer. *)
Definition toFixed1 (n : Z) : string := pretty n +:+ ".0".

(** The text of one cut. *)
Definition cut_text (plank : Plank.t) : string :=
  if bool_decide (Plank.cut_end plank = "<"%string)
  then pretty (Plank.id plank) +:+ "< " +:+ toFixed1 (Plank.length plank)
  else toFixed1 (Plank.length plank) +:+ " " +:+ pretty (Plank.id plank) +:+ ">".

(** One turn of the inner loop: [cuts] is the sparse array, indexed by
    plank id, of objects keyed by cut end. *)
Definition schedule_step (cuts : gmap Z (gmap string string)) (plank : Plank.t)
    : gmap Z (gmap string string) :=
  if bool_decide (Plank.cut_end plank <> ""%string) then
    let entry := default ∅ (cuts !! Plank.id plank) in
    <[Plank.id plank := <[Plank.cut_end plank := cut_text plank]> entry]> cuts
  else cuts.

Definition cuttingSchedule (r : t) : gmap Z (gmap string string) :=
  foldl schedule_step ∅ (concat (map Column.planks (columns r))).

End Room.

(** ** The arithmetic of the loop in doubles *)

(** The numbers of the program are IEEE 754 doubles.  On integers below
    2^53 in magnitude their sums and differences are the exact ones, which
    is what the classes above compute with; on fractions, and on larger
    numbers, they are rounded.  This module has, in doubles, the arithmetic
    of [recomputeFloor] on which its tests depend. *)
Module Doubles.
  (** [const over = this.PLANK_LENGTH - h - this.CUT_THICKNESS]. *)
Definition over (PLANK_LENGTH h CUT_THICKNESS : float) : float :=
    (PLANK_LENGTH - h - CUT_THICKNESS)%float.

  (** The cut at the end of a column with [h] left to fill: the length of
      the cut plank [cp], and the length of the partial that is pushed on
      the pool when [over > this.MIN_PLANK_LENGTH]. *)
Definition cut (PLANK_LENGTH CUT_THICKNESS MIN_PLANK_LENGTH h : float)
      : float * option float :=
    let over := over PLANK_LENGTH h CUT_THICKNESS in
    if (MIN_PLANK_LENGTH <? over)%float then (h, Some over) else (h, None).

  (** [l += this.PLANK_WIDTH]. *)
Definition advance (l PLANK_WIDTH : float) : float := (l + PLANK_WIDTH)%float.

  (** [h -= this.PLANK_LENGTH]. *)
Definition fill (h PLANK_LENGTH : float) : float := (h - PLANK_LENGTH)%float.
End Doubles.

(** ** Vocabulary of the specification *)

(** All planks laid in the columns, left to right and top to bottom. *)
Definition laid (cols : list Column.t) : list Plank.t :=
  concat (map Column.planks cols).

Definition plank_ids (cols : list Column.t) : list Z := map Plank.id (laid cols).

Definition heights (cols : list Column.t) : list Z := map Column.height cols.

(** Ids numbered in order of first encounter, [next] being the next fresh
    one: each id is either [next] (a new board) or an id met before. *)
Fixpoint first_encounter (next : Z) (ids : list Z) : bool :=
  match ids with
  | [] => true
  | i :: ids' =>
      if i =? next then first_encounter (next + 1) ids'
      else (1 <=? i) && (i <? next) && first_encounter next ids'
  end.

(** A column without its position and its planks' ids renamed by [f]:
    what [shuffle] must keep of a column. *)
Definition rename (f : Z -> Z) (c : Column.t) : Column.t :=
  Column.set_planks (map (fun p => Plank.set_id (f (Plank.id p)) p) (Column.planks c)) c.

Definition unplaced (c : Column.t) : Column.t :=
  Column.set_left 0 (Column.set_planks (map (Plank.set_left 0) (Column.planks c)) c).

(** A plank that [selectPartial(cut_end, min_length)] may return. *)
Definition matching (cut_end : string) (min_length : Z) (p : Plank.t) : Prop :=
  Plank.cut_end p = cut_end /\ min_length < Plank.length p.

(** What the scan of [selectPartial] knows after the planks [seen]. *)
Definition best_so_far (cut_end : string) (min_length : Z)
    (seen : list Plank.t) (best : option nat) (bl : option Z) : Prop :=
  match best with
  | None => forall q, q ∈ seen -> ~ matching cut_end min_length q
  | Some b =>
      exists p, seen !! b = Some p /\ matching cut_end min_length p
        /\ bl = Some (Plank.length p)
        /\ (forall q, q ∈ seen -> matching cut_end min_length q ->
              Plank.length q <= Plank.length p)
        /\ (forall j q, (j < b)%nat -> seen !! j = Some q ->
              matching cut_end min_length q -> Plank.length q < Plank.length p)
  end.

(** Σ of a list of numbers. *)
Definition total (zs : list Z) : Z := foldr Z.add 0 zs.

(** ** Rooms used as concrete inputs *)

(** The static counters when the page has just been loaded. *)
Definition fresh_statics : Plank.statics := Plank.Statics 1 0.

Definition rectangle (w d : Z) : list Vertex.t :=
  [Vertex.mk 0 0 "top left corner"; Vertex.mk w 0 "top right corner";
   Vertex.mk w d "bottom right corner"; Vertex.mk 0 d "bottom left corner"].

(** The 100 x 100 square of the scenario: planks 10 wide and 60 long, no
    kerf, shortest plank 20, no start offsets. *)
Definition square_room : Room.t := Room.blank (rectangle 100 100) 0 0 10 60 0 20.

(** A room 5 wide, half the width of a plank. *)
Definition narrow_room : Room.t := Room.blank (rectangle 5 100) 0 0 10 60 0 20.

(** A room without vertices. *)
Definition empty_room : Room.t := Room.blank [] 0 0 10 60 0 20.

(** One column, twice as high as a plank is long. *)
Definition tall_room : Room.t := Room.blank (rectangle 10 120) 0 0 10 60 0 20.

(** The square with planks of length 0. *)
Definition no_length_room : Room.t := Room.blank (rectangle 100 100) 0 0 10 0 0 20.

(** An L-shaped room: the column at 0 is 20 high and the column at 10 is
    50 high. *)
Definition l_room : Room.t :=
  Room.blank
    [Vertex.mk 0 0 "a"; Vertex.mk 20 0 "b"; Vertex.mk 20 50 "c";
     Vertex.mk 10 50 "d"; Vertex.mk 10 20 "e"; Vertex.mk 0 20 "f"]
    0 0 10 60 0 20.

(** The plank a partial becomes when it starts the column of the turn
    that begins in frame [s]: it takes the column's [left] and the fill
    position. *)
Definition placed (s : Room.frame) (p : Plank.t) : Plank.t :=
  Plank.set_top
    (Column.top (Room.clipped (Room.self s) (Room.l s)) + Room.first_offset s)
    (Plank.set_left (Room.l s) p).

(** A plank made by [new Plank] from the counters [g] on. *)
Definition made_since (g : Plank.statics) (p : Plank.t) : Prop :=
  Plank.UID g <= Plank.uid p.

(** A whole plank of room [r]. *)
Definition whole (r : Room.t) (p : Plank.t) : Prop :=
  Plank.length p = Room.PLANK_LENGTH r /\ Plank.cut_end p = ""%string.

(** [r'] is room [r] laid out anew: only the columns, the pool and the
    two counters may differ. *)
Definition relaid (r r' : Room.t) : Prop :=
  r' = Room.with_layout (Room.columns r') (Room.partials r')
         (Room.planksNeeded r') (Room.cuts r') r.

(** The rest of a board cut at [need]. *)
Definition leftover (r : Room.t) (need : Z) : Z :=
  Room.PLANK_LENGTH r - need - Room.CUT_THICKNESS r.

(** How often the loop tried the column position [x]. *)
Definition tries (x : Z) (tr : list (Z * bool)) : nat :=
  length (filter (fun a => a.1 = x) tr).

(** Two consecutive tries [a] and [b] of the loop: the same position again,
    first with and then without a partial start, or the next position with
    partial starts allowed. *)
Definition retry_or_advance (plank_width : Z) (a b : Z * bool) : Prop :=
  (b.1 = a.1 /\ a.2 = true /\ b.2 = false)
  \/ (b.1 = a.1 + plank_width /\ b.2 = true).

(** The bound on the tries of [x] from a frame at position [at_l]. *)
Definition tries_bound (at_l : Z) (pick : bool) (x : Z) : nat :=
  if x <? at_l then 0%nat
  else if x =? at_l then (if pick then 2%nat else 1%nat)
  else 2%nat.

(** Every plank of the room at a frame: the pool, then the columns. *)
Definition planks_of (s : Room.frame) : list Plank.t :=
  Room.partials (Room.self s) ++ laid (Room.columns (Room.self s)).

(** The planks of a frame are distinct objects made by [new Plank]: no two
    share a [uid], and every [uid] is below [Plank.UID]. *)
Definition distinct_planks (s : Room.frame) : Prop :=
  NoDup (Plank.uid <$> planks_of s)
  /\ Forall (fun p => Plank.uid p < Plank.UID (Room.statics s)) (planks_of s).

(** The frame and the variables of the turn that begins in frame [s], at
    the end of the full-plank loop run with [fuel]. *)
Definition filled (fuel : nat) (s : Room.frame) : Room.frame * Room.locals :=
  default (Room.startColumn s)
    (Room.fullPlanksLoop fuel (Room.startColumn s).1 (Room.startColumn s).2).

(** The frame of the L-shaped room when its second column is first tried:
    the pool holds the partial of length 40 cut for the first column. *)
Definition l_room_second_turn : Room.frame :=
  default (Room.enterLoop (Room.measure l_room) fresh_statics)
    (Room.body 1 (Room.enterLoop (Room.measure l_room) fresh_statics)).

(** The square room when the user has added a pre-cut plank of length 50,
    cut at the bottom, to the pool. *)
Definition stocked_room : Room.t :=
  Room.set_partials [Plank.mk 0 1 "<" 0 0 10 50 true] (Room.measure square_room).

(** The next fresh id after the ids [ids] have been met from [next] on. *)
Definition next_id (next : Z) (ids : list Z) : Z :=
  foldl (fun n i => if i =? n then n + 1 else n) next ids.

(** The number of distinct user ids among the planks laid in [cols]. *)
Definition boards (cols : list Column.t) : nat :=
  size (list_to_set (C := gset Z) (plank_ids cols)).

(** The lookup of the renumbering when [newId] is the next new id: new ids
    are exactly 1 .. [newId - 1], one for each old id met so far. *)
Definition remap_ok (remap : gmap Z Z) (newId : Z) : Prop :=
  (forall k v, remap !! k = Some v -> 1 <= v < newId)
  /\ (forall k1 k2 v, remap !! k1 = Some v -> remap !! k2 = Some v -> k1 = k2)
  /\ (forall v, 1 <= v < newId -> exists k, remap !! k = Some v)
  /\ newId = 1 + Z.of_nat (size remap).

(** The renaming of ids that a finished lookup stands for. *)
Definition remapped (remap : gmap Z Z) (k : Z) : Z := default 0 (remap !! k).

(** A room three planks wide and 100 high, planks 60 long, shortest plank
    10: its three columns differ, and cut boards are shared between
    neighbouring columns. *)
Definition three_room : Room.t := Room.blank (rectangle 30 100) 0 0 10 60 0 10.

(** The column positions the loop of [recomputeFloor] visits: [x], [x + width],
    ... while they are left of [right]. *)
Fixpoint stops_from (fuel : nat) (x right width : Z) : list Z :=
  if x <? right then
    match fuel with
    | O => []
    | S fuel => x :: stops_from fuel (x + width) right width
    end
  else [].

Definition stops (x right width : Z) : list Z :=
  stops_from (Z.to_nat (right - x)) x right width.

(** The layout of [three_room]. *)
Definition three_floor : Room.t :=
  default (Room.measure three_room)
    (fst <$> Room.recomputeFloor 3 (Room.measure three_room) fresh_statics).

(** ** Vocabulary of the further properties *)

(** The horizontal edge from vertex [p1] to vertex [p2], if there is one. *)
Definition edge (p1 p2 : Vertex.t) : list HEdge.t :=
  if Vertex.y p1 =? Vertex.y p2
  then [HEdge.mk (Z.min (Vertex.x p1) (Vertex.x p2))
                 (Z.max (Vertex.x p1) (Vertex.x p2)) (Vertex.y p1)]
  else [].

(** The vertex after the [i]th, cyclically. *)
Definition next_vertex (vs : list Vertex.t) (i : nat) (p1 : Vertex.t) : Vertex.t :=
  default p1 (vs !! ((i + 1) `mod` length vs)%nat).

(** The edge [e] runs over the inside of a column at [x], [w] wide. *)
Definition overlaps (x w : Z) (e : HEdge.t) : Prop :=
  HEdge.left e < x + w /\ x < HEdge.right e.

#[global] Instance overlaps_dec (x w : Z) (e : HEdge.t) : Decision (overlaps x w e).
Proof. unfold overlaps. apply _. Defined.

(** The column [c] clipped to the level [y]. *)
Definition stretched (y : Z) (c : Column.t) : Column.t :=
  Column.mk (Column.left c) (Column.width c) (Z.min y (Column.top c))
            (Z.max y (Column.bottom c)) (Column.planks c).

(** The counters after [ids] ids and [uids] uids have been given out. *)
Definition bump (g : Plank.statics) (ids uids : Z) : Plank.statics :=
  Plank.Statics (Plank.NEXT g + ids) (Plank.UID g + uids).

(** The [k]th whole plank that the full-plank loop lays in the column at
    [x] from the level [y] down, when the counters were [g] at its start. *)
Definition board (r : Room.t) (g : Plank.statics) (x y : Z) (k : nat) : Plank.t :=
  Plank.mk (Plank.UID g + Z.of_nat k) (Plank.NEXT g + Z.of_nat k) "" x
           (y + Z.of_nat k * Room.PLANK_LENGTH r)
           (Room.PLANK_WIDTH r) (Room.PLANK_LENGTH r) false.

(** The cut plank that ends a column at [x]: laid at [y], [h] long, when
    the counters are [g]. *)
Definition cut_plank (r : Room.t) (g : Plank.statics) (x y h : Z) : Plank.t :=
  Plank.mk (Plank.UID g) (Plank.NEXT g) "<" x y (Room.PLANK_WIDTH r) h false.

(** The rest of the board of that cut plank, if it is kept. *)
Definition offcut (r : Room.t) (g : Plank.statics) (x y h : Z) : list Plank.t :=
  if decide (Room.MIN_PLANK_LENGTH r < leftover r h)
  then [Plank.mk (Plank.UID g + 1) (Plank.NEXT g) ">" x (y + h) (Room.PLANK_WIDTH r)
                 (leftover r h) false]
  else [].

(** How a turn that begins in frame [s] starts its column: with no plank
    ([sp] empty) and the pool as it is, or with the longest top-cut partial
    of the pool, placed ([sp] holds it); [pool1] is the pool then. *)
Definition start_ok (s : Room.frame) (sp pool1 : list Plank.t) : Prop :=
  (sp = [] /\ pool1 = Room.partials (Room.self s)
   /\ (Room.pickPartial s = false
       \/ forall q, q ∈ Room.partials (Room.self s) -> ~ matching ">" 0 q))
  \/ (Room.pickPartial s = true
      /\ exists i p,
           Room.partials (Room.self s) !! i = Some p /\ matching ">" 0 p
           /\ pool1 = delete i (Room.partials (Room.self s))
           /\ sp = [placed s p]).

(** The level at which the full planks of the turn begin, and what is left
    to fill below [n] of them. *)
Definition fill_from (s : Room.frame) (sp : list Plank.t) : Z :=
  Column.top (Room.clipped (Room.self s) (Room.l s)) + Room.first_offset s
  + total (map Plank.length sp).

Definition rest_after (s : Room.frame) (sp : list Plank.t) (n : nat) : Z :=
  Column.height (Room.clipped (Room.self s) (Room.l s)) - Room.first_offset s
  - total (map Plank.length sp) - Z.of_nat n * Room.PLANK_LENGTH (Room.self s).

(** The whole planks of the turn. *)
Definition fulls_of (s : Room.frame) (sp : list Plank.t) (n : nat) : list Plank.t :=
  map (board (Room.self s) (Room.statics s) (Room.l s) (fill_from s sp)) (seq 0 n).

(** The three ways a turn ends: the column is given up and tried again, it
    is kept as it is, or it is kept with a cut plank at its end. *)
Definition retried (s : Room.frame) (sp pool1 : list Plank.t) (n : nat) : Room.frame :=
  Room.Frame (Room.set_partials (pool1 ++ sp) (Room.self s))
    (bump (Room.statics s) (Z.of_nat n) (Z.of_nat n)) (Room.l s) 0 false.

Definition kept_whole (s : Room.frame) (sp pool1 : list Plank.t) (n : nat) : Room.frame :=
  Room.Frame
    (Room.with_layout
       (Room.columns (Room.self s)
        ++ [Column.set_planks (sp ++ fulls_of s sp n)
              (Room.clipped (Room.self s) (Room.l s))])
       pool1 (Room.planksNeeded (Room.self s) + Z.of_nat n)
       (Room.cuts (Room.self s)) (Room.self s))
    (bump (Room.statics s) (Z.of_nat n) (Z.of_nat n))
    (Room.l s + Room.PLANK_WIDTH (Room.self s)) 0 true.

Definition kept_cut (s : Room.frame) (sp pool1 : list Plank.t) (n : nat) : Room.frame :=
  let g := bump (Room.statics s) (Z.of_nat n) (Z.of_nat n) in
  let y := fill_from s sp + Z.of_nat n * Room.PLANK_LENGTH (Room.self s) in
  let banked := offcut (Room.self s) g (Room.l s) y (rest_after s sp n) in
  Room.Frame
    (Room.with_layout
       (Room.columns (Room.self s)
        ++ [Column.set_planks
              (sp ++ fulls_of s sp n
               ++ [cut_plank (Room.self s) g (Room.l s) y (rest_after s sp n)])
              (Room.clipped (Room.self s) (Room.l s))])
       (Room.probe (Room.pickPartial s) (rest_after s sp n) pool1 ++ banked)
       (Room.planksNeeded (Room.self s) + Z.of_nat n + 1)
       (Room.cuts (Room.self s) + 1) (Room.self s))
    (bump (Room.statics s) (Z.of_nat n + 1) (Z.of_nat n + 1 + Z.of_nat (length banked)))
    (Room.l s + Room.PLANK_WIDTH (Room.self s)) 0 true.




(** The planks [ps] lie one below the other from the level [y] down, each
    beginning where the one above ends. *)
Fixpoint stacked (y : Z) (ps : list Plank.t) : Prop :=
  match ps with
  | [] => True
  | p :: ps' => Plank.top p = y /\ stacked (Plank.bottom p) ps'
  end.

(** A column of room [r] whose planks begin [off] below its top: it has
    the extent that clipping gives at its position, its planks are stacked
    and lined up with it, and a cut plank at its end reaches the bottom. *)
Definition well_laid (r : Room.t) (off : Z) (c : Column.t) : Prop :=
  c = Column.set_planks (Column.planks c) (Room.clipped r (Column.left c))
  /\ stacked (Column.top c + off) (Column.planks c)
  /\ Forall (fun p => Plank.left p = Column.left c) (Column.planks c)
  /\ (forall cp, last (Column.planks c) = Some cp -> Plank.cut_end cp = "<"%string ->
        Plank.bottom cp = Column.bottom c).


(** The make-up of a column of room [r]: at most one top-cut partial from
    the pool, then whole planks, then at most one plank cut at the bottom,
    which is there whenever a whole plank is, is no longer than a board,
    and is not shorter than [MIN_PLANK_LENGTH] below a partial. *)
Definition shaped (r : Room.t) (c : Column.t) : Prop :=
  exists sp fulls cutp,
    Column.planks c = sp ++ fulls ++ cutp
    /\ (length sp <= 1)%nat
    /\ Forall (fun p => Plank.cut_end p = ">"%string /\ 0 < Plank.length p) sp
    /\ Forall (whole r) fulls
    /\ (length cutp <= 1)%nat
    /\ Forall (fun p => Plank.cut_end p = "<"%string
                        /\ 0 < Plank.length p <= Room.PLANK_LENGTH r
                        /\ (sp <> [] -> Room.MIN_PLANK_LENGTH r <= Plank.length p)) cutp
    /\ (cutp = [] -> fulls = []).

(** What identifies a board on the cutting schedule: its id and its cut
    end. *)
Definition tag (p : Plank.t) : Z * string := (Plank.id p, Plank.cut_end p).

(** The planks made in the turn that begins in frame [s] and that stay in
    the room. *)
Definition made_in (s : Room.frame) (s' : Room.frame) (new : list Plank.t) : Prop :=
  Forall (fun p => Plank.UID (Room.statics s) <= Plank.uid p < Plank.UID (Room.statics s')
                   /\ Plank.NEXT (Room.statics s) <= Plank.id p
                      < Plank.NEXT (Room.statics s')
                   /\ Plank.permanent p = false) new
  /\ NoDup (map Plank.uid new)
  /\ NoDup (map tag new)
  /\ (forall p, p ∈ new -> Plank.cut_end p = ">"%string ->
        exists q, q ∈ laid (Room.columns (Room.self s')) /\ Plank.id q = Plank.id p
                  /\ Plank.cut_end q = "<"%string
                  /\ Plank.length q + Plank.length p + Room.CUT_THICKNESS (Room.self s)
                     = Room.PLANK_LENGTH (Room.self s)).

(** The board itself: a plank without its position and its user id. *)
Definition bare (p : Plank.t) : Plank.t :=
  Plank.set_id 0 (Plank.set_top 0 (Plank.set_left 0 p)).

(** The planks of a room: the pool, then the columns. *)
Definition all_planks (r : Room.t) : list Plank.t :=
  Room.partials r ++ laid (Room.columns r).

(** No two planks of the frame share both id and cut end, and every id
    has been given out. *)
Definition numbered (s : Room.frame) : Prop :=
  NoDup (map tag (planks_of s))
  /\ Forall (fun p => 1 <= Plank.id p < Plank.NEXT (Room.statics s)) (planks_of s)
  /\ 1 <= Plank.NEXT (Room.statics s).

(** Every piece left of a cut board goes with the cut plank of its board,
    which lies in a column. *)
Definition paired (s : Room.frame) : Prop :=
  forall p, p ∈ planks_of s -> Plank.cut_end p = ">"%string -> Plank.permanent p = false ->
    exists q, q ∈ laid (Room.columns (Room.self s)) /\ Plank.id q = Plank.id p
              /\ Plank.cut_end q = "<"%string
              /\ Plank.length q + Plank.length p + Room.CUT_THICKNESS (Room.self s)
                 = Room.PLANK_LENGTH (Room.self s).

(** The user's planks are in the frame, and the others were made since [g]. *)
Definition keeps (olds : list Plank.t) (g : Plank.statics) (s : Room.frame) : Prop :=
  (forall p, p ∈ olds -> Plank.cut_end p <> "<"%string ->
     exists p', p' ∈ planks_of s /\ bare p' = bare p)
  /\ (forall p', p' ∈ planks_of s ->
        (exists p, p ∈ olds /\ bare p' = bare p)
        \/ (Plank.UID g <= Plank.uid p' < Plank.UID (Room.statics s)
            /\ Plank.permanent p' = false))
  /\ Plank.UID g <= Plank.UID (Room.statics s).

(** What the schedule [cuts] lists for the board [i] at the cut end [e]. *)
Definition listed (cuts : gmap Z (gmap string string)) (i : Z) (e : string)
    : option string :=
  cuts !! i ≫= fun entry => entry !! e.

(** The plank is a cut plank of board [i] with cut end [e]. *)
Definition cut_of (i : Z) (e : string) (p : Plank.t) : Prop :=
  Plank.id p = i /\ Plank.cut_end p = e /\ e <> ""%string.

#[global] Instance cut_of_dec (i : Z) (e : string) (p : Plank.t) : Decision (cut_of i e p).
Proof. unfold cut_of. apply _. Defined.

(** Where a column stands and how high it is. *)
Definition spot (c : Column.t) : Z * Z := (Column.left c, Column.height c).

(** The planks of the column stand at the column's [left]. *)
Definition lined_up (c : Column.t) : Prop :=
  Forall (fun p => Plank.left p = Column.left c) (Column.planks c).

(** Every bin holds indices of columns of the height that is its key. *)
Definition bins_ok (hs : list Z) (bins : list (Z * list nat)) : Prop :=
  forall k bin i, (k, bin) ∈ bins -> i ∈ bin -> hs !! i = Some k.

(** No bin holds the first column. *)
Definition without_first (bins : list (Z * list nat)) : Prop :=
  forall k bin, (k, bin) ∈ bins -> 0%nat ∉ bin.










(** The square room when the user has added a pre-cut plank of length 30,
    cut at the top, to the pool. *)
Definition shelf_room : Room.t :=
  Room.set_partials [Plank.mk 0 1 ">" 0 0 10 30 true] (Room.measure square_room).

(** A room of three columns of the same height, laid with an offset of 5
    at the top of the first one. *)
Definition plain_room : Room.t :=
  Room.mk [] 0 5 10 60 0 10 []
    [Column.mk 0 10 0 100 [Plank.mk 0 1 "" 0 5 10 60 false];
     Column.mk 10 10 0 100 [Plank.mk 1 2 "" 10 0 10 60 false];
     Column.mk 20 10 0 100 [Plank.mk 2 3 "" 20 0 10 60 false]]
    0 30 0 100 [] 0 0.

(** Integers of magnitude at most 2^50: sums and differences of a few of
    them stay far below 2^53, where doubles are exact. *)
Definition small (z : Z) : bool :=
  (-1125899906842624 <=? z) && (z <=? 1125899906842624).

(** A room whose numbers are all such integers: the bounding box, the six
    parameters, the horizontal edges and the lengths of the planks. *)
Definition small_room (r : Room.t) : bool :=
  small (Room.leftmost r) && small (Room.rightmost r)
  && small (Room.START_LEFT r) && small (Room.START_TOP r)
  && small (Room.PLANK_WIDTH r) && small (Room.PLANK_LENGTH r)
  && small (Room.CUT_THICKNESS r) && small (Room.MIN_PLANK_LENGTH r)
  && forallb (fun e => small (HEdge.left e) && small (HEdge.right e) && small (HEdge.y e))
       (Room.hedges r)
  && forallb (fun p => small (Plank.length p)) (Room.partials r ++ laid (Room.columns r)).

(** A plank by its [uid], its id and its cut end. *)
Definition piece (p : Plank.t) : Z * Z * string := (Plank.uid p, Plank.id p, Plank.cut_end p).

(** A room four planks wide and 100 high, planks 60 long, shortest plank
    10: the rest of the board cut for the last column stays in the pool. *)
Definition four_room : Room.t := Room.blank (rectangle 40 100) 0 0 10 60 0 10.

(** The layout of [four_room]. *)
Definition four_floor : Room.t :=
  default (Room.measure four_room)
    (fst <$> Room.recomputeFloor 4 (Room.measure four_room) fresh_statics).

(** * Properties *)

#[local] Arguments Z.ltb : simpl never.
#[local] Arguments Z.leb : simpl never.
#[local] Arguments Z.eqb : simpl never.
#[local] Arguments Room.probe : simpl never.

Section SelectPartial.
Variables (cut_end : string) (min_length : Z).

Lemma matching_test (p : Plank.t) :
  bool_decide (Plank.cut_end p = cut_end) && (min_length <? Plank.length p) = true
  <-> matching cut_end min_length p.
Proof.
  unfold matching. rewrite andb_true_iff, bool_decide_eq_true, Z.ltb_lt. tauto.
Qed.

Lemma scan_keeps_best (rest : list Plank.t) :
  forall seen best bl,
    best_so_far cut_end min_length seen best bl ->
    best_so_far cut_end min_length (seen ++ rest)
      (Room.selectPartial_scan cut_end min_length rest (length seen) best bl)
      (match Room.selectPartial_scan cut_end min_length rest (length seen) best bl with
       | Some b => Plank.length <$> (seen ++ rest) !! b
       | None => None
       end).
Proof.
  induction rest as [|p rest IH]; intros seen best bl Hinv; simpl.
  - rewrite app_nil_r. destruct best as [b|]; [|exact Hinv].
    destruct Hinv as (q & Hq & Hm & Hbl & Hmax & Hfirst).
    exists q. rewrite Hq. simpl. auto.
  - assert (Hlen : length (seen ++ [p]) = S (length seen))
      by (rewrite length_app; simpl; lia).
    replace (seen ++ p :: rest) with ((seen ++ [p]) ++ rest)
      by (rewrite <- app_assoc; reflexivity).
    rewrite <- Hlen.
    destruct (bool_decide (Plank.cut_end p = cut_end) && (min_length <? Plank.length p))
      eqn:Hm.
    + apply matching_test in Hm.
      destruct (bool_decide (best = None) || Room.js_gt (Plank.length p) bl) eqn:Hb.
      * apply IH. exists p. split; [|split; [exact Hm|split; [reflexivity|split]]].
        -- rewrite lookup_app_r by lia. replace (length seen - length seen)%nat with 0%nat by lia.
           reflexivity.
        -- intros q Hq Hmq. apply elem_of_app in Hq as [Hq|Hq].
           ++ destruct best as [b|].
              ** destruct Hinv as (p0 & _ & _ & -> & Hmax & _). simpl in Hb.
                 apply Z.ltb_lt in Hb. specialize (Hmax q Hq Hmq). lia.
              ** exfalso. exact (Hinv q Hq Hmq).
           ++ apply list_elem_of_singleton in Hq as ->. lia.
        -- intros j q Hj Hq Hmq. rewrite lookup_app_l in Hq by lia.
           assert (Hin : q ∈ seen) by (eapply list_elem_of_lookup_2; exact Hq).
           destruct best as [b|].
           ++ destruct Hinv as (p0 & _ & _ & -> & Hmax & _). simpl in Hb.
              apply Z.ltb_lt in Hb. specialize (Hmax q Hin Hmq). lia.
           ++ exfalso. exact (Hinv q Hin Hmq).
      * apply IH. destruct best as [b|]; [|discriminate Hb].
        destruct Hinv as (p0 & Hp0 & Hm0 & -> & Hmax & Hfirst). simpl in Hb.
        apply Z.ltb_ge in Hb.
        exists p0. split; [|split; [exact Hm0|split; [reflexivity|split]]].
        -- rewrite lookup_app_l; [exact Hp0|]. eapply lookup_lt_Some; exact Hp0.
        -- intros q Hq Hmq. apply elem_of_app in Hq as [Hq|Hq]; [auto|].
           apply list_elem_of_singleton in Hq as ->. exact Hb.
        -- intros j q Hj Hq Hmq. apply (Hfirst j q Hj); [|exact Hmq].
           rewrite lookup_app_l in Hq; [exact Hq|].
           apply lookup_lt_Some in Hp0. lia.
    + apply IH. assert (Hno : ~ matching cut_end min_length p).
      { intros H. apply matching_test in H. congruence. }
      destruct best as [b|].
      * destruct Hinv as (p0 & Hp0 & Hm0 & -> & Hmax & Hfirst).
        exists p0. split; [|split; [exact Hm0|split; [reflexivity|split]]].
        -- rewrite lookup_app_l; [exact Hp0|]. eapply lookup_lt_Some; exact Hp0.
        -- intros q Hq Hmq. apply elem_of_app in Hq as [Hq|Hq]; [auto|].
           apply list_elem_of_singleton in Hq as ->. contradiction.
        -- intros j q Hj Hq Hmq. apply (Hfirst j q Hj); [|exact Hmq].
           rewrite lookup_app_l in Hq; [exact Hq|].
           apply lookup_lt_Some in Hp0. lia.
      * intros q Hq Hmq. apply elem_of_app in Hq as [Hq|Hq].
        -- exact (Hinv q Hq Hmq).
        -- apply list_elem_of_singleton in Hq as ->. contradiction.
Qed.

(** What [selectPartial] returns and what it leaves in the pool. *)
Lemma selectPartial_spec (pool : list Plank.t) :
  match Room.selectPartial cut_end min_length pool with
  | (Some p, pool') =>
      exists i, pool !! i = Some p /\ pool' = delete i pool
        /\ matching cut_end min_length p
        /\ (forall q, q ∈ pool -> matching cut_end min_length q ->
              Plank.length q <= Plank.length p)
        /\ (forall j q, (j < i)%nat -> pool !! j = Some q ->
              matching cut_end min_length q -> Plank.length q < Plank.length p)
  | (None, pool') =>
      pool' = pool /\ forall q, q ∈ pool -> ~ matching cut_end min_length q
  end.
Proof.
  unfold Room.selectPartial.
  pose proof (scan_keeps_best pool [] None None) as H. simpl in H.
  specialize (H ltac:(intros q Hq; inversion Hq)).
  destruct (Room.selectPartial_scan cut_end min_length pool 0 None None) as [b|].
  - destruct H as (p & Hp & Hm & _ & Hmax & Hfirst). rewrite Hp.
    exists b. auto.
  - split; [reflexivity|exact H].
Qed.

End SelectPartial.

(** ** The accounting of [waste] *)

Lemma columnage_from (cols : list Column.t) (acc : Z) :
  foldl (fun a col => a + Column.height col) acc cols = acc + total (heights cols).
Proof.
  revert acc. induction cols as [|c cols IH]; intros acc; simpl.
  - lia.
  - rewrite IH. lia.
Qed.

(** ** One turn of the column loop *)

Section Turn.
Variable s : Room.frame.

Lemma startColumn_frame :
  Room.statics (Room.startColumn s).1 = Room.statics s
  /\ Room.l (Room.startColumn s).1 = Room.l s
  /\ Room.first_offset (Room.startColumn s).1 = 0
  /\ Room.pickPartial (Room.startColumn s).1 = Room.pickPartial s
  /\ Room.fullPlanks (Room.startColumn s).2 = 0
  /\ Room.self (Room.startColumn s).1
     = Room.set_partials (Room.partials (Room.self (Room.startColumn s).1)) (Room.self s).
Proof.
  unfold Room.startColumn.
  destruct (if Room.pickPartial s then _ else _) as [[p|] pool]; simpl; auto 10.
Qed.

(** Either no partial starts the column, and the pool is untouched, or
    [pickPartial] is set and the longest top-cut partial moved from the
    pool to the head of the column. *)
Lemma startColumn_cases :
  (Room.partial (Room.startColumn s).2 = None
   /\ Room.col (Room.startColumn s).2 = Room.clipped (Room.self s) (Room.l s)
   /\ Room.h (Room.startColumn s).2
      = Column.height (Room.clipped (Room.self s) (Room.l s)) - Room.first_offset s
   /\ Room.partials (Room.self (Room.startColumn s).1) = Room.partials (Room.self s))
  \/ (Room.pickPartial s = true /\ exists i p,
        Room.partials (Room.self s) !! i = Some p /\ matching ">" 0 p
        /\ Room.partials (Room.self (Room.startColumn s).1)
           = delete i (Room.partials (Room.self s))
        /\ Room.partial (Room.startColumn s).2 = Some (placed s p)
        /\ Room.col (Room.startColumn s).2
           = Column.set_planks [placed s p] (Room.clipped (Room.self s) (Room.l s))
        /\ Room.h (Room.startColumn s).2
           = Column.height (Room.clipped (Room.self s) (Room.l s))
             - Room.first_offset s - Plank.length p).
Proof.
  unfold Room.startColumn.
  destruct (Room.pickPartial s) eqn:Hpick.
  - pose proof (selectPartial_spec ">" 0 (Room.partials (Room.self s))) as H.
    destruct (Room.selectPartial ">" 0 (Room.partials (Room.self s))) as [[p|] pool]; simpl.
    + right. split; [reflexivity|]. destruct H as (i & Hi & -> & Hm & _).
      exists i, p. auto 10.
    + left. destruct H as [-> _]. auto.
  - left. simpl. auto.
Qed.

End Turn.

(** ** The full-plank loop *)

Lemma set_planks_same (c : Column.t) : Column.set_planks (Column.planks c) c = c.
Proof. destruct c; reflexivity. Qed.

Lemma set_planks_twice (ps qs : list Plank.t) (c : Column.t) :
  Column.set_planks ps (Column.set_planks qs c) = Column.set_planks ps c.
Proof. reflexivity. Qed.

(** When the loop ends it has only added whole, new planks to the column,
    one for each [PLANK_LENGTH] taken off [h], and no more than
    [PLANK_LENGTH] is left to fill. *)
Lemma fullPlanksLoop_result (fuel : nat) :
  forall s v s' v',
    Room.fullPlanksLoop fuel s v = Some (s', v') ->
    Room.self s' = Room.self s /\ Room.l s' = Room.l s
    /\ Room.first_offset s' = Room.first_offset s
    /\ Room.pickPartial s' = Room.pickPartial s
    /\ Room.partial v' = Room.partial v
    /\ Room.h v' <= Room.PLANK_LENGTH (Room.self s)
    /\ (0 < Room.h v -> 0 < Room.h v')
    /\ Plank.UID (Room.statics s) <= Plank.UID (Room.statics s')
    /\ exists fulls,
         Room.col v' = Column.set_planks (Column.planks (Room.col v) ++ fulls) (Room.col v)
         /\ Forall (fun q => whole (Room.self s) q /\ made_since (Room.statics s) q
                             /\ Plank.uid q < Plank.UID (Room.statics s')) fulls
         /\ Room.h v' = Room.h v - Z.of_nat (length fulls) * Room.PLANK_LENGTH (Room.self s)
         /\ Room.fullPlanks v' = Room.fullPlanks v + Z.of_nat (length fulls)
         /\ (fulls = [] <-> Room.h v <= Room.PLANK_LENGTH (Room.self s)).
Proof.
  induction fuel as [|fuel IH]; intros s v s' v' Hrun; simpl in Hrun;
    destruct (Room.PLANK_LENGTH (Room.self s) <? Room.h v) eqn:Hmore;
    try discriminate Hrun.
  - apply Z.ltb_ge in Hmore. injection Hrun as <- <-.
    repeat (split; [first [reflexivity | lia | tauto]|]).
    exists []. rewrite app_nil_r, set_planks_same. simpl.
    repeat (split; [first [reflexivity | lia | constructor]|]). tauto.
  - apply Z.ltb_lt in Hmore. apply IH in Hrun. simpl in Hrun.
    destruct Hrun as (Hself & Hl & Hfo & Hpick & Hpart & Hle & Hpos & Huid
                      & fulls & Hcol & Hall & Hh & Hn & Hnil).
    repeat (split; [first [assumption | lia]|]).
    eexists (_ :: fulls). split; [|split; [|split; [|split]]].
    + rewrite Hcol. simpl. rewrite set_planks_twice, <- app_assoc. reflexivity.
    + constructor.
      * unfold whole, made_since. simpl. repeat split; lia.
      * eapply Forall_impl; [exact Hall|]. unfold made_since. simpl.
        intros q (Hw & Hm & Hlt). split; [exact Hw|]. split; [lia|exact Hlt].
    + rewrite Hh. simpl length. lia.
    + rewrite Hn. simpl length. lia.
    + split; [discriminate|lia].
  - apply Z.ltb_ge in Hmore. injection Hrun as <- <-.
    repeat (split; [first [reflexivity | lia | tauto]|]).
    exists []. rewrite app_nil_r, set_planks_same. simpl.
    repeat (split; [first [reflexivity | lia | constructor]|]). tauto.
Qed.

(** With planks of positive length the loop ends: [fuel] turns are enough
    when [h] is at most [PLANK_LENGTH + fuel]. *)
Lemma fullPlanksLoop_ends (fuel : nat) :
  forall s v,
    0 < Room.PLANK_LENGTH (Room.self s) ->
    Room.h v <= Room.PLANK_LENGTH (Room.self s) + Z.of_nat fuel ->
    exists x, forall n, (fuel <= n)%nat -> Room.fullPlanksLoop n s v = Some x.
Proof.
  induction fuel as [|fuel IH]; intros s v Hpl Hh.
  - exists (s, v). intros n _.
    destruct n; simpl;
      destruct (Room.PLANK_LENGTH (Room.self s) <? Room.h v) eqn:Hmore;
      try reflexivity; apply Z.ltb_lt in Hmore; lia.
  - destruct (Room.PLANK_LENGTH (Room.self s) <? Room.h v) eqn:Hmore.
    + assert (Hlt := Hmore). apply Z.ltb_lt in Hlt.
      edestruct (IH
        (Room.Frame (Room.self s)
           (Plank.constructor (Room.full_plank_attrs (Room.self s) (Room.l s) (Room.y v))
              (Room.statics s)).2
           (Room.l s) (Room.first_offset s) (Room.pickPartial s))
        (Room.Locals
           (Column.set_planks
              (Column.planks (Room.col v)
               ++ [(Plank.constructor
                      (Room.full_plank_attrs (Room.self s) (Room.l s) (Room.y v))
                      (Room.statics s)).1]) (Room.col v))
           (Room.y v + Room.PLANK_LENGTH (Room.self s))
           (Room.h v - Room.PLANK_LENGTH (Room.self s))
           (Room.partial v) (Room.fullPlanks v + 1))) as [x Hx].
      * exact Hpl.
      * simpl. lia.
      * exists x. intros [|n] Hn; [lia|]. simpl. rewrite Hmore.
        apply Hx. lia.
    + exists (s, v). intros n _. destruct n; simpl; rewrite Hmore; reflexivity.
Qed.

(** ** The end of a turn *)

Lemma relaid_refl (r : Room.t) : relaid r r.
Proof. destruct r; reflexivity. Qed.

Lemma relaid_trans (r1 r2 r3 : Room.t) : relaid r1 r2 -> relaid r2 r3 -> relaid r1 r3.
Proof. unfold relaid. intros H12 H23. rewrite H23, H12. reflexivity. Qed.

Lemma relaid_with_layout cols ps n c (r : Room.t) : relaid r (Room.with_layout cols ps n c r).
Proof. reflexivity. Qed.

Lemma relaid_params (r r' : Room.t) :
  relaid r r' ->
  Room.PLANK_LENGTH r' = Room.PLANK_LENGTH r /\ Room.PLANK_WIDTH r' = Room.PLANK_WIDTH r
  /\ Room.MIN_PLANK_LENGTH r' = Room.MIN_PLANK_LENGTH r
  /\ Room.CUT_THICKNESS r' = Room.CUT_THICKNESS r
  /\ Room.rightmost r' = Room.rightmost r /\ Room.hedges r' = Room.hedges r.
Proof. intros ->. simpl. auto 10. Qed.

(** The probe takes the longest bottom-cut partial out of the pool and
    puts it back, at the end, only when it is shorter than [need]. *)
Lemma probe_cases (need : Z) (pool : list Plank.t) :
  ((forall q, q ∈ pool -> ~ matching "<" 0 q) /\ Room.probe true need pool = pool)
  \/ exists i bp,
       pool !! i = Some bp /\ matching "<" 0 bp
       /\ (forall q, q ∈ pool -> matching "<" 0 q -> Plank.length q <= Plank.length bp)
       /\ ((need <= Plank.length bp /\ Room.probe true need pool = delete i pool)
           \/ (Plank.length bp < need
               /\ Room.probe true need pool = delete i pool ++ [bp])).
Proof.
  unfold Room.probe. pose proof (selectPartial_spec "<" 0 pool) as H.
  destruct (Room.selectPartial "<" 0 pool) as [[bp|] pool'].
  - right. destruct H as (i & Hi & -> & Hm & Hmax & _). exists i, bp.
    split; [exact Hi|]. split; [exact Hm|]. split; [exact Hmax|].
    destruct (need <=? Plank.length bp) eqn:Hle.
    + left. apply Z.leb_le in Hle. auto.
    + right. apply Z.leb_gt in Hle. auto.
  - left. destruct H as [-> H]. auto.
Qed.

Lemma retryColumn_spec (s : Room.frame) (v : Room.locals) :
  Room.retries (Room.self s) v = true ->
  exists p, Room.partial v = Some p
    /\ 0 < Room.h v < Room.MIN_PLANK_LENGTH (Room.self s)
    /\ Room.finishColumn s v
       = Room.Frame (Room.set_partials (Room.partials (Room.self s) ++ [p]) (Room.self s))
           (Room.statics s) (Room.l s) (Room.first_offset s) false.
Proof.
  unfold Room.finishColumn, Room.retries. intros H. rewrite H.
  apply andb_true_iff in H as [H Hp]. apply andb_true_iff in H as [H0 Hmin].
  apply bool_decide_eq_true in Hp as [p Hp]. apply Z.ltb_lt in H0, Hmin.
  exists p. unfold Room.retryColumn. rewrite Hp. auto.
Qed.

Lemma retries_false (r : Room.t) (v : Room.locals) :
  Room.retries r v = false <->
  Room.h v <= 0 \/ Room.MIN_PLANK_LENGTH r <= Room.h v \/ Room.partial v = None.
Proof.
  unfold Room.retries. rewrite !andb_false_iff, bool_decide_eq_false, Z.ltb_ge, Z.ltb_ge.
  rewrite <- eq_None_not_Some. tauto.
Qed.

(** A committed column that needs no cut. *)
Lemma commitColumn_whole (s : Room.frame) (v : Room.locals) :
  Room.h v <= 0 ->
  Room.commitColumn s v
  = Room.Frame
      (Room.with_layout (Room.columns (Room.self s) ++ [Room.col v])
         (Room.partials (Room.self s))
         (Room.planksNeeded (Room.self s) + Room.fullPlanks v)
         (Room.cuts (Room.self s)) (Room.self s))
      (Room.statics s) (Room.l s + Room.PLANK_WIDTH (Room.self s))
      (Room.first_offset s) true.
Proof.
  intros Hh. unfold Room.commitColumn.
  destruct (0 <? Room.h v) eqn:H0; [apply Z.ltb_lt in H0; lia|]. reflexivity.
Qed.

(** A committed column that ends with a cut: the cut plank [cp] closes the
    column, and the rest of the board joins the pool exactly when it is longer
    than [MIN_PLANK_LENGTH]. *)
Lemma commitColumn_cut (s : Room.frame) (v : Room.locals) :
  0 < Room.h v ->
  exists cp banked,
    Plank.length cp = Room.h v /\ Plank.cut_end cp = "<"%string
    /\ Plank.uid cp = Plank.UID (Room.statics s)
    /\ ((Room.MIN_PLANK_LENGTH (Room.self s) < leftover (Room.self s) (Room.h v)
         /\ exists p, banked = [p] /\ Plank.id p = Plank.id cp
              /\ Plank.cut_end p = ">"%string
              /\ Plank.length p = leftover (Room.self s) (Room.h v)
              /\ Plank.uid p = Plank.UID (Room.statics s) + 1)
        \/ (leftover (Room.self s) (Room.h v) <= Room.MIN_PLANK_LENGTH (Room.self s)
            /\ banked = []))
    /\ Plank.UID (Room.statics s) < Plank.UID (Room.statics (Room.commitColumn s v))
    /\ (forall p, p ∈ banked ->
          Plank.uid p < Plank.UID (Room.statics (Room.commitColumn s v)))
    /\ Plank.uid cp < Plank.UID (Room.statics (Room.commitColumn s v))
    /\ Room.self (Room.commitColumn s v)
       = Room.with_layout
           (Room.columns (Room.self s)
            ++ [Column.set_planks (Column.planks (Room.col v) ++ [cp]) (Room.col v)])
           (Room.probe (Room.pickPartial s) (Room.h v) (Room.partials (Room.self s))
            ++ banked)
           (Room.planksNeeded (Room.self s) + Room.fullPlanks v + 1)
           (Room.cuts (Room.self s) + 1) (Room.self s)
    /\ Room.l (Room.commitColumn s v) = Room.l s + Room.PLANK_WIDTH (Room.self s)
    /\ Room.pickPartial (Room.commitColumn s v) = true
    /\ Room.first_offset (Room.commitColumn s v) = Room.first_offset s.
Proof.
  intros Hh. unfold Room.commitColumn, leftover.
  destruct (0 <? Room.h v) eqn:H0; [|apply Z.ltb_ge in H0; lia].
  unfold Room.cutColumn. simpl.
  destruct (Room.MIN_PLANK_LENGTH (Room.self s)
            <? Room.PLANK_LENGTH (Room.self s) - Room.h v - Room.CUT_THICKNESS (Room.self s))
    eqn:Hover; simpl.
  - apply Z.ltb_lt in Hover.
    exists (Plank.mk (Plank.UID (Room.statics s)) (Plank.NEXT (Room.statics s)) "<"
              (Room.l s) (Room.y v) (Room.PLANK_WIDTH (Room.self s)) (Room.h v) false),
           [Plank.mk (Plank.UID (Room.statics s) + 1) (Plank.NEXT (Room.statics s)) ">"
              (Room.l s) (Room.y v + Room.h v) (Room.PLANK_WIDTH (Room.self s))
              (Room.PLANK_LENGTH (Room.self s) - Room.h v
               - Room.CUT_THICKNESS (Room.self s)) false].
    simpl. repeat (split; [reflexivity|]).
    split; [left; split; [exact Hover|eexists; simpl; eauto 10]|].
    split; [lia|]. split.
    { intros p Hp. apply list_elem_of_singleton in Hp as ->. simpl. lia. }
    split; [lia|]. auto.
  - apply Z.ltb_ge in Hover.
    exists (Plank.mk (Plank.UID (Room.statics s)) (Plank.NEXT (Room.statics s)) "<"
              (Room.l s) (Room.y v) (Room.PLANK_WIDTH (Room.self s)) (Room.h v) false),
           [].
    simpl. repeat (split; [reflexivity|]).
    split; [right; auto|].
    split; [lia|]. split.
    { intros p Hp. inversion Hp. }
    split; [lia|]. rewrite app_nil_r. auto.
Qed.

(** Clipping changes neither the position nor the planks of a column. *)
Lemma clipped_column (r : Room.t) (x : Z) :
  Column.planks (Room.clipped r x) = [] /\ Column.left (Room.clipped r x) = x
  /\ Column.width (Room.clipped r x) = Room.PLANK_WIDTH r.
Proof.
  unfold Room.clipped.
  assert (H : forall hs c,
    Column.planks (foldl (fun c hedge => Column.clip hedge c) c hs) = Column.planks c
    /\ Column.left (foldl (fun c hedge => Column.clip hedge c) c hs) = Column.left c
    /\ Column.width (foldl (fun c hedge => Column.clip hedge c) c hs) = Column.width c).
  { induction hs as [|hedge hs IH]; intros c; simpl; [auto|].
    destruct (IH (Column.clip hedge c)) as (-> & -> & ->).
    unfold Column.clip. destruct (_ || _); auto. }
  apply H.
Qed.

(** ** A turn up to the end of the full-plank loop *)

(** The column when the full-plank loop has ended: an optional partial
    taken from the pool, then whole new planks. *)
Lemma filled_spec (fuel : nat) (s s1 : Room.frame) (v : Room.locals) :
  Room.fullPlanksLoop fuel (Room.startColumn s).1 (Room.startColumn s).2 = Some (s1, v) ->
  Room.self s1 = Room.set_partials (Room.partials (Room.self s1)) (Room.self s)
  /\ Room.l s1 = Room.l s /\ Room.first_offset s1 = 0
  /\ Room.pickPartial s1 = Room.pickPartial s
  /\ Plank.UID (Room.statics s) <= Plank.UID (Room.statics s1)
  /\ Room.h v <= Room.PLANK_LENGTH (Room.self s)
  /\ exists fulls,
       Forall (fun q => whole (Room.self s) q /\ made_since (Room.statics s) q
                        /\ Plank.uid q < Plank.UID (Room.statics s1)) fulls
       /\ Room.fullPlanks v = Z.of_nat (length fulls)
       /\ ((Room.partial v = None
            /\ Room.partials (Room.self s1) = Room.partials (Room.self s)
            /\ Room.col v = Column.set_planks fulls (Room.clipped (Room.self s) (Room.l s))
            /\ Room.h v = Column.height (Room.clipped (Room.self s) (Room.l s))
                          - Room.first_offset s
                          - Z.of_nat (length fulls) * Room.PLANK_LENGTH (Room.self s)
            /\ (fulls = [] <->
                Column.height (Room.clipped (Room.self s) (Room.l s)) - Room.first_offset s
                <= Room.PLANK_LENGTH (Room.self s)))
           \/ (Room.pickPartial s = true /\ exists i p,
                Room.partials (Room.self s) !! i = Some p /\ matching ">" 0 p
                /\ Room.partials (Room.self s1) = delete i (Room.partials (Room.self s))
                /\ Room.partial v = Some (placed s p)
                /\ Room.col v = Column.set_planks (placed s p :: fulls)
                                  (Room.clipped (Room.self s) (Room.l s))
                /\ Room.h v = Column.height (Room.clipped (Room.self s) (Room.l s))
                              - Room.first_offset s - Plank.length p
                              - Z.of_nat (length fulls) * Room.PLANK_LENGTH (Room.self s))).
Proof.
  intros Hrun. apply fullPlanksLoop_result in Hrun.
  destruct Hrun as (Hself & Hl & Hfo & Hpick & Hpart & Hle & _ & Huid
                    & fulls & Hcol & Hall & Hh & Hn & Hnil).
  destruct (startColumn_frame s) as (Hg0 & Hl0 & Hfo0 & Hpick0 & Hn0 & Hself0).
  assert (Hpl : Room.PLANK_LENGTH (Room.self (Room.startColumn s).1)
                = Room.PLANK_LENGTH (Room.self s)) by (rewrite Hself0; reflexivity).
  rewrite Hg0 in Huid, Hall. rewrite Hpl in Hle, Hh, Hnil.
  split; [rewrite Hself; exact Hself0|].
  split; [congruence|]. split; [congruence|]. split; [congruence|].
  split; [exact Huid|]. split; [exact Hle|].
  exists fulls. split.
  { eapply Forall_impl; [exact Hall|]. intros q (Hw & Hm & Hlt).
    split; [|split; assumption]. unfold whole in *. rewrite <- Hpl. exact Hw. }
  split; [lia|].
  destruct (startColumn_cases s) as [(Hp & Hc & Hh0 & Hpool)
                                    |(Hpk & i & p & Hi & Hm & Hpool & Hp & Hc & Hh0)].
  - left. split; [congruence|]. split; [rewrite Hself; exact Hpool|].
    split.
    { rewrite Hcol, Hc. destruct (clipped_column (Room.self s) (Room.l s)) as (-> & _).
      reflexivity. }
    split; [lia|]. rewrite Hnil, Hh0. reflexivity.
  - right. split; [exact Hpk|]. exists i, p.
    split; [exact Hi|]. split; [exact Hm|]. split; [rewrite Hself; exact Hpool|].
    split; [congruence|]. split; [rewrite Hcol, Hc; reflexivity|]. lia.
Qed.

(** With planks of positive length a turn ends, and with the same frame
    whatever fuel is left over. *)
Lemma body_ends (s : Room.frame) :
  0 < Room.PLANK_LENGTH (Room.self s) ->
  exists n s1 v,
    forall fuel, (n <= fuel)%nat ->
      Room.fullPlanksLoop fuel (Room.startColumn s).1 (Room.startColumn s).2 = Some (s1, v)
      /\ Room.body fuel s = Some (Room.finishColumn s1 v).
Proof.
  intros Hpl. destruct (startColumn_frame s) as (_ & _ & _ & _ & _ & Hself0).
  destruct (fullPlanksLoop_ends (Z.to_nat (Room.h (Room.startColumn s).2))
              (Room.startColumn s).1 (Room.startColumn s).2) as [[s1 v] Hx].
  - rewrite Hself0. exact Hpl.
  - rewrite Hself0. simpl. lia.
  - exists (Z.to_nat (Room.h (Room.startColumn s).2)), s1, v. intros fuel Hfuel.
    unfold Room.body. rewrite (Hx fuel Hfuel). auto.
Qed.

(** ** The two ways a turn ends *)

Lemma body_unfold (fuel : nat) (s s1 : Room.frame) (v : Room.locals) :
  Room.fullPlanksLoop fuel (Room.startColumn s).1 (Room.startColumn s).2 = Some (s1, v) ->
  Room.body fuel s = Some (Room.finishColumn s1 v).
Proof. intros H. unfold Room.body. rewrite H. reflexivity. Qed.

(** A turn either retries, which needs [pickPartial] and leaves [l] and
    the columns as they were with [pickPartial] cleared, or commits one
    column at [l], advances [l] by [PLANK_WIDTH] and sets [pickPartial]. *)
Lemma turn_outcome (fuel : nat) (s s1 : Room.frame) (v : Room.locals) :
  Room.fullPlanksLoop fuel (Room.startColumn s).1 (Room.startColumn s).2 = Some (s1, v) ->
  relaid (Room.self s) (Room.self (Room.finishColumn s1 v))
  /\ ((Room.retries (Room.self s1) v = true /\ Room.pickPartial s = true
       /\ Room.l (Room.finishColumn s1 v) = Room.l s
       /\ Room.pickPartial (Room.finishColumn s1 v) = false
       /\ Room.columns (Room.self (Room.finishColumn s1 v)) = Room.columns (Room.self s))
      \/ (Room.retries (Room.self s1) v = false
          /\ Room.l (Room.finishColumn s1 v) = Room.l s + Room.PLANK_WIDTH (Room.self s)
          /\ Room.pickPartial (Room.finishColumn s1 v) = true
          /\ exists c, Room.columns (Room.self (Room.finishColumn s1 v))
                       = Room.columns (Room.self s) ++ [c]
                       /\ Column.left c = Room.l s
                       /\ Column.height c
                          = Column.height (Room.clipped (Room.self s) (Room.l s)))).
Proof.
  intros Hrun. apply filled_spec in Hrun.
  destruct Hrun as (Hself & Hl & Hfo & Hpick & Huid & Hle & fulls & Hall & Hn & Hcases).
  assert (Hrel : relaid (Room.self s) (Room.self s1)) by (rewrite Hself; reflexivity).
  assert (Hcols : Room.columns (Room.self s1) = Room.columns (Room.self s))
    by (rewrite Hself; reflexivity).
  assert (Hpw : Room.PLANK_WIDTH (Room.self s1) = Room.PLANK_WIDTH (Room.self s))
    by (rewrite Hself; reflexivity).
  assert (Hcol : Column.left (Room.col v) = Room.l s
                 /\ Column.height (Room.col v)
                    = Column.height (Room.clipped (Room.self s) (Room.l s))).
  { destruct (clipped_column (Room.self s) (Room.l s)) as (_ & Hleft & _).
    destruct Hcases as [(_ & _ & -> & _)|(_ & i & p & _ & _ & _ & _ & -> & _)];
      split; solve [exact Hleft | reflexivity]. }
  destruct (Room.retries (Room.self s1) v) eqn:Hretry.
  - destruct (retryColumn_spec s1 v Hretry) as (p & Hp & Hh & ->). simpl.
    split; [eapply relaid_trans; [exact Hrel|apply relaid_with_layout]|].
    left. split; [reflexivity|].
    destruct Hcases as [(Hnone & _)|(Hpk & _)]; [congruence|]. auto.
  - unfold Room.finishColumn. rewrite Hretry.
    destruct (Z.le_gt_cases (Room.h v) 0) as [Hh|Hh].
    + rewrite (commitColumn_whole s1 v Hh). simpl.
      split; [eapply relaid_trans; [exact Hrel|apply relaid_with_layout]|].
      right. split; [reflexivity|].
      rewrite Hl, Hpw, Hcols. split; [reflexivity|]. split; [reflexivity|].
      exists (Room.col v). split; [reflexivity|exact Hcol].
    + destruct (commitColumn_cut s1 v Hh)
        as (cp & banked & _ & _ & _ & _ & _ & _ & _ & Hs' & Hl' & Hpick' & _).
      rewrite Hs', Hl', Hpick'. simpl.
      split; [eapply relaid_trans; [exact Hrel|apply relaid_with_layout]|].
      right. split; [reflexivity|].
      rewrite Hl, Hpw, Hcols. split; [reflexivity|]. split; [reflexivity|].
      eexists. split; [reflexivity|]. exact Hcol.
Qed.

Lemma stops_none (x right width : Z) : right <= x -> stops x right width = [].
Proof.
  intros H. unfold stops. apply Z.ltb_ge in H.
  destruct (Z.to_nat (right - x)); simpl; rewrite H; reflexivity.
Qed.

Lemma stops_from_more (f : nat) :
  forall f' x right width,
    0 < width -> (Z.to_nat (right - x) <= f)%nat -> (Z.to_nat (right - x) <= f')%nat ->
    stops_from f x right width = stops_from f' x right width.
Proof.
  induction f as [|f IH]; intros f' x right width Hw Hf Hf'.
  - assert (H : (x <? right) = false) by (apply Z.ltb_ge; lia).
    destruct f'; simpl; rewrite H; reflexivity.
  - destruct (x <? right) eqn:H.
    + apply Z.ltb_lt in H. destruct f' as [|f']; [lia|].
      simpl. apply Z.ltb_lt in H. rewrite H. apply Z.ltb_lt in H.
      f_equal. apply IH; [exact Hw|lia|lia].
    + destruct f'; simpl; rewrite H; reflexivity.
Qed.

Lemma stops_step (x right width : Z) :
  0 < width -> x < right ->
  stops x right width = x :: stops (x + width) right width.
Proof.
  intros Hw Hx. unfold stops.
  destruct (Z.to_nat (right - x)) as [|f] eqn:Hf; [lia|].
  simpl. apply Z.ltb_lt in Hx. rewrite Hx. apply Z.ltb_lt in Hx.
  f_equal. apply stops_from_more; [exact Hw|lia|lia].
Qed.

(** ** The column loop ends *)

Lemma tries_cons (x : Z) (a : Z * bool) (tr : list (Z * bool)) :
  tries x (a :: tr) = ((if bool_decide (a.1 = x) then 1 else 0) + tries x tr)%nat.
Proof.
  unfold tries. rewrite filter_cons. destruct (decide (a.1 = x)) as [H|H].
  - rewrite bool_decide_eq_true_2 by exact H. reflexivity.
  - rewrite bool_decide_eq_false_2 by exact H. reflexivity.
Qed.

Lemma columnLoop_ends (k : nat) :
  forall s,
    0 < Room.PLANK_WIDTH (Room.self s) ->
    0 < Room.PLANK_LENGTH (Room.self s) ->
    2 * (Room.rightmost (Room.self s) - Room.l s)
      + (if Room.pickPartial s then 1 else 0) <= Z.of_nat k ->
    exists n s' tr,
      (forall fuel inner, (n <= fuel)%nat -> (n <= inner)%nat ->
         Room.columnLoop fuel inner s = Some s' /\ Room.attempts fuel inner s = tr)
      /\ relaid (Room.self s) (Room.self s')
      /\ Room.rightmost (Room.self s) <= Room.l s'
      /\ (forall a, tr !! 0%nat = Some a -> a = (Room.l s, Room.pickPartial s))
      /\ (forall i a b, tr !! i = Some a -> tr !! S i = Some b ->
            retry_or_advance (Room.PLANK_WIDTH (Room.self s)) a b)
      /\ (forall x, (tries x tr <= tries_bound (Room.l s) (Room.pickPartial s) x)%nat)
      /\ map Column.left (Room.columns (Room.self s'))
         = map Column.left (Room.columns (Room.self s))
           ++ stops (Room.l s) (Room.rightmost (Room.self s))
                (Room.PLANK_WIDTH (Room.self s)).
Proof.
  induction k as [|k IH]; intros s Hpw Hpl Hk.
  - assert (Hout : Room.rightmost (Room.self s) <= Room.l s)
      by (destruct (Room.pickPartial s); lia).
    exists 0%nat, s, []. split; [|split; [apply relaid_refl|split; [exact Hout|]]].
    + intros fuel inner _ _. apply Z.ltb_ge in Hout.
      destruct fuel; simpl; rewrite Hout; auto.
    + split; [intros a H; discriminate H|].
      split; [intros i a b H; rewrite lookup_nil in H; discriminate H|].
      split; [intros x; unfold tries; simpl; lia|].
      rewrite stops_none by exact Hout. symmetry. apply app_nil_r.
  - destruct (Room.l s <? Room.rightmost (Room.self s)) eqn:Hin.
    2:{ apply Z.ltb_ge in Hin.
        exists 0%nat, s, []. split; [|split; [apply relaid_refl|split; [exact Hin|]]].
        + intros fuel inner _ _. apply Z.ltb_ge in Hin.
          destruct fuel; simpl; rewrite Hin; auto.
        + split; [intros a H; discriminate H|].
          split; [intros i a b H; rewrite lookup_nil in H; discriminate H|].
          split; [intros x; unfold tries; simpl; lia|].
          rewrite stops_none by exact Hin. symmetry. apply app_nil_r. }
    assert (Hlt := Hin). apply Z.ltb_lt in Hlt.
    destruct (body_ends s Hpl) as (n1 & s1 & v & Hbody).
    destruct (Hbody n1 (Nat.le_refl _)) as [Hrun _].
    destruct (turn_outcome n1 s s1 v Hrun) as [Hrel Hcases].
    destruct (relaid_params _ _ Hrel) as (Hpl' & Hpw' & _ & _ & Hright' & _).
    destruct (IH (Room.finishColumn s1 v)) as (n2 & s' & tr & Hloop & Hrel2 & Hout & Hhead & Hchain & Hcount & Hstops).
    { rewrite Hpw'. exact Hpw. }
    { rewrite Hpl'. exact Hpl. }
    { rewrite Hright'.
      destruct Hcases as [(_ & Hpk & -> & -> & _)|(_ & -> & -> & _)].
      - rewrite Hpk in Hk. lia.
      - destruct (Room.pickPartial s); lia. }
    exists (Nat.max n1 (S n2)), s', ((Room.l s, Room.pickPartial s) :: tr).
    split; [|split; [eapply relaid_trans; eassumption|split; [rewrite <- Hright'; exact Hout|]]].
    + intros fuel inner Hfuel Hinner. destruct fuel as [|fuel]; [lia|].
      simpl. rewrite Hin. destruct (Hbody inner ltac:(lia)) as [_ ->].
      destruct (Hloop fuel inner ltac:(lia) ltac:(lia)) as [-> ->]. auto.
    + split; [intros a H; simpl in H; congruence|]. split; [|split].
      3:{ rewrite Hstops, Hright', Hpw'.
          destruct Hcases as [(_ & _ & -> & _ & ->)|(_ & -> & _ & c & -> & Hc & _)];
            [reflexivity|].
          rewrite (stops_step (Room.l s)) by assumption.
          rewrite map_app, <- app_assoc. simpl. rewrite Hc. reflexivity. }
      * intros [|i] a b Ha Hb; simpl in Ha, Hb.
        -- injection Ha as <-. apply Hhead in Hb as ->. unfold retry_or_advance. simpl.
           destruct Hcases as [(_ & Hpk & -> & -> & _)|(_ & -> & -> & _)]; auto.
        -- rewrite <- Hpw'. eapply Hchain; eassumption.
      * intros x. rewrite tries_cons. specialize (Hcount x). simpl.
        unfold tries_bound in *.
        destruct Hcases as [(_ & Hpk & Hl' & Hpick' & _)|(_ & Hl' & Hpick' & _)];
          rewrite Hl', Hpick' in Hcount; [rewrite Hpk|];
          destruct (decide (Room.l s = x)) as [<-|Hne].
        -- rewrite bool_decide_eq_true_2 by reflexivity.
           rewrite Z.ltb_irrefl, Z.eqb_refl in *. lia.
        -- rewrite bool_decide_eq_false_2 by exact Hne.
           destruct (x <? Room.l s); [lia|].
           destruct (x =? Room.l s) eqn:He; [apply Z.eqb_eq in He; congruence|]. lia.
        -- rewrite bool_decide_eq_true_2 by reflexivity.
           rewrite Z.ltb_irrefl, Z.eqb_refl.
           destruct (Room.l s <? Room.l s + Room.PLANK_WIDTH (Room.self s)) eqn:Hl2;
             [|apply Z.ltb_ge in Hl2; lia].
           destruct (Room.pickPartial s); lia.
        -- rewrite bool_decide_eq_false_2 by exact Hne.
           destruct (x <? Room.l s) eqn:Hx.
           ++ apply Z.ltb_lt in Hx.
              destruct (x <? Room.l s + Room.PLANK_WIDTH (Room.self s)) eqn:Hx2;
                [lia|apply Z.ltb_ge in Hx2; lia].
           ++ destruct (x =? Room.l s) eqn:He; [apply Z.eqb_eq in He; congruence|].
              destruct (x <? Room.l s + Room.PLANK_WIDTH (Room.self s)); [lia|].
              destruct (x =? Room.l s + Room.PLANK_WIDTH (Room.self s)); lia.
Qed.

(** ** More fuel changes nothing *)

Lemma fullPlanksLoop_more (n : nat) :
  forall m s v x, Room.fullPlanksLoop n s v = Some x -> (n <= m)%nat ->
                  Room.fullPlanksLoop m s v = Some x.
Proof.
  induction n as [|n IH]; intros m s v x Hrun Hle; simpl in Hrun.
  - destruct (Room.PLANK_LENGTH (Room.self s) <? Room.h v) eqn:Hmore; [discriminate|].
    destruct m; simpl; rewrite Hmore; exact Hrun.
  - destruct m as [|m]; [lia|]. simpl.
    destruct (Room.PLANK_LENGTH (Room.self s) <? Room.h v) eqn:Hmore; [|exact Hrun].
    apply IH; [exact Hrun|lia].
Qed.

Lemma body_more (n m : nat) (s x : Room.frame) :
  Room.body n s = Some x -> (n <= m)%nat -> Room.body m s = Some x.
Proof.
  unfold Room.body. intros Hrun Hle.
  destruct (Room.fullPlanksLoop n _ _) as [[s1 v]|] eqn:Hloop; [|discriminate].
  rewrite (fullPlanksLoop_more n m _ _ _ Hloop Hle). exact Hrun.
Qed.

Lemma columnLoop_more (n : nat) :
  forall m i j s x, Room.columnLoop n i s = Some x -> (n <= m)%nat -> (i <= j)%nat ->
                    Room.columnLoop m j s = Some x
                    /\ Room.attempts m j s = Room.attempts n i s.
Proof.
  induction n as [|n IH]; intros m i j s x Hrun Hnm Hij; simpl in Hrun.
  - destruct (Room.l s <? Room.rightmost (Room.self s)) eqn:Hin; [discriminate|].
    destruct m; simpl; rewrite Hin; auto.
  - destruct m as [|m]; [lia|]. simpl.
    destruct (Room.l s <? Room.rightmost (Room.self s)) eqn:Hin; [|auto].
    destruct (Room.body i s) as [s'|] eqn:Hbody; [|discriminate].
    rewrite (body_more i j s s' Hbody Hij).
    destruct (IH m i j s' x Hrun ltac:(lia) Hij) as [-> ->]. auto.
Qed.

Lemma recomputeFloor_more (n m : nat) (r : Room.t) (g : Plank.statics) x :
  Room.recomputeFloor n r g = Some x -> (n <= m)%nat ->
  Room.recomputeFloor m r g = Some x
  /\ Room.attempts m m (Room.enterLoop r g) = Room.attempts n n (Room.enterLoop r g).
Proof.
  unfold Room.recomputeFloor. intros Hrun Hle.
  destruct (Room.columnLoop n n _) as [s|] eqn:Hloop; [|discriminate].
  destruct (columnLoop_more n m n m _ s Hloop Hle Hle) as [-> ->]. auto.
Qed.

(** ** The head of the loop *)

Lemma enterLoop_spec (r : Room.t) (g : Plank.statics) :
  relaid r (Room.self (Room.enterLoop r g))
  /\ Room.l (Room.enterLoop r g) = Room.leftmost r + Room.START_LEFT r
  /\ Room.pickPartial (Room.enterLoop r g) = true
  /\ Room.first_offset (Room.enterLoop r g) = Room.START_TOP r
  /\ Room.columns (Room.self (Room.enterLoop r g)) = []
  /\ Room.planksNeeded (Room.self (Room.enterLoop r g)) = 0
  /\ Room.cuts (Room.self (Room.enterLoop r g)) = 0.
Proof.
  unfold Room.enterLoop, Room.collectPermanentPartials.
  destruct (Room.renumber_from _ _) as [ps g']. simpl.
  split; [reflexivity|auto 10].
Qed.

(** With planks that have no length the full-plank loop never ends. *)
Lemma fullPlanksLoop_starves (fuel : nat) :
  forall s v,
    Room.PLANK_LENGTH (Room.self s) <= 0 ->
    Room.PLANK_LENGTH (Room.self s) < Room.h v ->
    Room.fullPlanksLoop fuel s v = None.
Proof.
  induction fuel as [|fuel IH]; intros s v Hpl Hh; simpl;
    destruct (Room.PLANK_LENGTH (Room.self s) <? Room.h v) eqn:Hmore;
    try reflexivity; try (apply Z.ltb_ge in Hmore; lia).
  apply IH; simpl; lia.
Qed.

Lemma columnLoop_starves (s : Room.frame) :
  Room.l s < Room.rightmost (Room.self s) ->
  Room.PLANK_LENGTH (Room.self (Room.startColumn s).1) <= 0 ->
  Room.PLANK_LENGTH (Room.self (Room.startColumn s).1) < Room.h (Room.startColumn s).2 ->
  forall fuel inner, Room.columnLoop fuel inner s = None.
Proof.
  intros Hin Hpl Hh fuel inner. apply Z.ltb_lt in Hin.
  destruct fuel; simpl; rewrite Hin; [reflexivity|].
  unfold Room.body. rewrite fullPlanksLoop_starves by assumption. reflexivity.
Qed.

(** The frame does not matter to clipping beyond hedges and plank width. *)
Lemma clipped_relaid (r r' : Room.t) (x : Z) :
  relaid r r' -> Room.clipped r' x = Room.clipped r x.
Proof. intros ->. reflexivity. Qed.

(** A turn that starts without [pickPartial] commits a column of new
    planks only: whole planks, then at most one cut plank. *)
Lemma fresh_turn (fuel : nat) (s s1 : Room.frame) (v : Room.locals) :
  Room.pickPartial s = false ->
  Room.fullPlanksLoop fuel (Room.startColumn s).1 (Room.startColumn s).2 = Some (s1, v) ->
  exists c banked,
    Room.columns (Room.self (Room.finishColumn s1 v)) = Room.columns (Room.self s) ++ [c]
    /\ Column.left c = Room.l s
    /\ Column.height c = Column.height (Room.clipped (Room.self s) (Room.l s))
    /\ Room.l (Room.finishColumn s1 v) = Room.l s + Room.PLANK_WIDTH (Room.self s)
    /\ Room.pickPartial (Room.finishColumn s1 v) = true
    /\ Room.partials (Room.self (Room.finishColumn s1 v))
       = Room.partials (Room.self s) ++ banked
    /\ Forall (made_since (Room.statics s)) (Column.planks c ++ banked)
    /\ (0 < Column.height c - Room.first_offset s -> Column.planks c <> [])
    /\ (forall q, head (Column.planks c) = Some q ->
          (Room.PLANK_LENGTH (Room.self s) < Column.height c - Room.first_offset s ->
           whole (Room.self s) q)
          /\ (Column.height c - Room.first_offset s <= Room.PLANK_LENGTH (Room.self s) ->
              Plank.cut_end q = "<"%string
              /\ Plank.length q = Column.height c - Room.first_offset s)).
Proof.
  intros Hpick Hrun.
  destruct (filled_spec _ _ _ _ Hrun)
    as (Hself & Hl & Hfo & Hpick1 & Huid & Hle & fulls & Hall & Hn & Hcases).
  destruct Hcases as [(Hnone & Hpool & Hc & Hhv & Hnil)|(Hpk & _)]; [|congruence].
  assert (Hretry : Room.retries (Room.self s1) v = false).
  { apply retries_false. auto. }
  assert (Hcols : Room.columns (Room.self s1) = Room.columns (Room.self s))
    by (rewrite Hself; reflexivity).
  assert (Hpw : Room.PLANK_WIDTH (Room.self s1) = Room.PLANK_WIDTH (Room.self s))
    by (rewrite Hself; reflexivity).
  destruct (clipped_column (Room.self s) (Room.l s)) as (_ & Hleft & _).
  assert (Hfulls : Forall (made_since (Room.statics s)) fulls).
  { eapply Forall_impl; [exact Hall|]. intros q (_ & Hq & _). exact Hq. }
  assert (Hwhole : forall q, head fulls = Some q -> whole (Room.self s) q).
  { intros q Hq. destruct fulls as [|q' fulls']; [discriminate|].
    injection Hq as <-. apply Forall_cons in Hall as [(Hw & _) _]. exact Hw. }
  unfold Room.finishColumn. rewrite Hretry.
  destruct (Z.le_gt_cases (Room.h v) 0) as [Hh|Hh].
  - rewrite (commitColumn_whole s1 v Hh). simpl.
    exists (Room.col v), []. rewrite Hcols, Hl, Hpw, Hpool, Hc, !app_nil_r. simpl.
    repeat (split; [first [reflexivity | exact Hleft | exact Hfulls]|]).
    split.
    + intros Hpos ->. unfold Column.height in *. simpl in *. lia.
    + intros q Hq. split.
      * intros _. apply Hwhole. exact Hq.
      * intros Hfit. apply Hnil in Hfit. subst fulls. discriminate Hq.
  - destruct (commitColumn_cut s1 v Hh)
      as (cp & banked & Hlen & Hcut & Hcpuid & Hbank & _ & Hbuid & _ & Hs' & Hl' & Hpick' & _).
    rewrite Hs', Hl', Hpick'. simpl.
    exists (Column.set_planks (Column.planks (Room.col v) ++ [cp]) (Room.col v)), banked.
    rewrite Hcols, Hl, Hpw, Hpool, Hpick1, Hpick, Hc. simpl.
    repeat (split; [first [reflexivity | exact Hleft]|]).
    split.
    { rewrite <- app_assoc. apply Forall_app. split; [exact Hfulls|].
      apply Forall_app. split.
      - constructor; [|constructor]. unfold made_since. lia.
      - apply Forall_forall. intros q Hq. unfold made_since.
        destruct Hbank as [(_ & b & -> & _ & _ & _ & Hb)|(_ & ->)];
          [|inversion Hq]. apply list_elem_of_singleton in Hq as ->. lia. }
    split.
    { intros _ Hnone'. destruct fulls; discriminate Hnone'. }
    intros q Hq. destruct fulls as [|q' fulls'] eqn:Hf.
    + simpl in Hq. injection Hq as <-. unfold Column.height in *. simpl in *.
      split; [|intros _; split; [exact Hcut|lia]].
      intros Hbig. assert (@nil Plank.t = []) as Hx by reflexivity.
      apply Hnil in Hx. lia.
    + simpl in Hq. injection Hq as <-. split.
      * intros _. apply Hwhole. reflexivity.
      * intros Hfit. apply Hnil in Hfit. discriminate Hfit.
Qed.

(** ** The probe *)

Lemma delete_keeps_others (l : list Plank.t) (i : nat) (x y : Plank.t) :
  l !! i = Some y -> x ∈ l -> x <> y -> x ∈ delete i l.
Proof.
  intros Hi Hx Hne. rewrite (delete_Permutation l i y Hi) in Hx.
  apply elem_of_cons in Hx as [Hx|Hx]; [contradiction|exact Hx].
Qed.

Lemma delete_drops_uid (l : list Plank.t) (i : nat) (y : Plank.t) :
  l !! i = Some y -> NoDup (Plank.uid <$> l) ->
  forall x, x ∈ delete i l -> Plank.uid x <> Plank.uid y.
Proof.
  intros Hi Hnd x Hx Heq. rewrite (delete_Permutation l i y Hi) in Hnd.
  rewrite fmap_cons in Hnd. apply NoDup_cons in Hnd as [Hnot _].
  apply Hnot. rewrite <- Heq. apply list_elem_of_fmap. eauto.
Qed.

Lemma laid_app (cols cols' : list Column.t) : laid (cols ++ cols') = laid cols ++ laid cols'.
Proof. unfold laid. rewrite map_app, concat_app. reflexivity. Qed.


(** ** Shuffle: swapping keeps the columns but for their position *)

Lemma unplaced_set_left (x : Z) (c : Column.t) : unplaced (Column.set_left x c) = unplaced c.
Proof. reflexivity. Qed.

Lemma unplaced_lineUpPlanks (c : Column.t) : unplaced (Column.lineUpPlanks c) = unplaced c.
Proof.
  unfold unplaced, Column.lineUpPlanks. simpl. rewrite map_map. reflexivity.
Qed.

Lemma unplaced_alter (f : Column.t -> Column.t) (i : nat) (cols : list Column.t) :
  (forall c, unplaced (f c) = unplaced c) ->
  map unplaced (alter f i cols) = map unplaced cols.
Proof.
  intros Hf. revert i. induction cols as [|c cols IH]; intros [|i]; simpl;
    try reflexivity.
  - rewrite Hf. reflexivity.
  - f_equal. apply IH.
Qed.

Lemma unplaced_swapLefts (cols : list Column.t) (a b : nat) :
  map unplaced (Room.swapLefts cols a b) = map unplaced cols.
Proof.
  unfold Room.swapLefts.
  destruct (cols !! a) as [ca|]; [|reflexivity].
  destruct (cols !! b) as [cb|]; [|reflexivity].
  rewrite !unplaced_alter; auto using unplaced_set_left, unplaced_lineUpPlanks.
Qed.

Lemma unplaced_shuffleBin (bin : list nat) (count : nat) :
  forall i cols rnd cols' rnd',
    Room.shuffleBin bin i count cols rnd = Some (cols', rnd') ->
    map unplaced cols' = map unplaced cols.
Proof.
  induction count as [|count IH]; intros i cols rnd cols' rnd' Hrun; simpl in Hrun.
  - injection Hrun as <- <-. reflexivity.
  - destruct (Room.pickPartner _ _ rnd) as [[to rnd1]|]; [|discriminate].
    destruct (bin !! _) as [a|]; [|discriminate].
    destruct (bin !! to) as [b|]; [|discriminate].
    rewrite (IH _ _ _ _ _ Hrun). apply unplaced_swapLefts.
Qed.

Lemma unplaced_shuffleBins (bins : list (Z * list nat)) (keys : list Z) :
  forall cols rnd cols' rnd',
    Room.shuffleBins bins keys cols rnd = Some (cols', rnd') ->
    map unplaced cols' = map unplaced cols.
Proof.
  induction keys as [|key keys IH]; intros cols rnd cols' rnd' Hrun; simpl in Hrun.
  - injection Hrun as <- <-. reflexivity.
  - destruct (bool_decide _).
    + destruct (Room.shuffleBin _ _ _ _ _) as [[cols1 rnd1]|] eqn:Hbin; [|discriminate].
      rewrite (IH _ _ _ _ Hrun). eapply unplaced_shuffleBin. exact Hbin.
    + eapply IH. exact Hrun.
Qed.

(** ** Shuffle: the sort *)

Lemma sort_insert_perm (c : Column.t) (cols : list Column.t) :
  Room.sort_insert c cols ≡ₚ c :: cols.
Proof.
  induction cols as [|d cols IH]; simpl; [reflexivity|].
  destruct (Column.left c <=? Column.left d); [reflexivity|].
  rewrite IH. apply Permutation_swap.
Qed.

Lemma sort_by_left_perm (cols : list Column.t) : Room.sort_by_left cols ≡ₚ cols.
Proof.
  induction cols as [|c cols IH]; simpl; [reflexivity|].
  rewrite sort_insert_perm, IH. reflexivity.
Qed.

Lemma sort_insert_sorted (c : Column.t) (cols : list Column.t) :
  Sorted Z.le (map Column.left cols) ->
  Sorted Z.le (map Column.left (Room.sort_insert c cols)).
Proof.
  induction cols as [|d cols IH]; simpl; intros Hs.
  - repeat constructor.
  - destruct (Column.left c <=? Column.left d) eqn:Hle.
    + apply Z.leb_le in Hle. simpl. constructor; [exact Hs|constructor; exact Hle].
    + apply Z.leb_gt in Hle. simpl. apply Sorted_inv in Hs as [Hs Hhd].
      constructor; [apply IH; exact Hs|].
      destruct cols as [|e cols]; simpl.
      * constructor. lia.
      * destruct (Column.left c <=? Column.left e); simpl; constructor;
          [lia|inversion Hhd; assumption].
Qed.

Lemma sort_by_left_sorted (cols : list Column.t) :
  Sorted Z.le (map Column.left (Room.sort_by_left cols)).
Proof.
  induction cols as [|c cols IH]; simpl; [constructor|].
  apply sort_insert_sorted. exact IH.
Qed.

(** ** Shuffle: the renumbering *)

Lemma first_encounter_app (l1 l2 : list Z) :
  forall n, first_encounter n (l1 ++ l2)
            = first_encounter n l1 && first_encounter (next_id n l1) l2.
Proof.
  induction l1 as [|i l1 IH]; intros n; simpl; [reflexivity|].
  destruct (i =? n).
  - apply IH.
  - rewrite IH. rewrite andb_assoc. reflexivity.
Qed.

Lemma next_id_app (l1 l2 : list Z) (n : Z) :
  next_id n (l1 ++ l2) = next_id (next_id n l1) l2.
Proof. unfold next_id. apply foldl_app. Qed.

Lemma remap_ok_start : remap_ok ∅ 1.
Proof.
  split; [|split; [|split]].
  - intros k v H. rewrite lookup_empty in H. discriminate H.
  - intros k1 k2 v H. rewrite lookup_empty in H. discriminate H.
  - intros v Hv. lia.
  - rewrite map_size_empty. reflexivity.
Qed.

Lemma remap_ok_insert (remap : gmap Z Z) (newId k : Z) :
  remap_ok remap newId -> remap !! k = None ->
  remap_ok (<[k := newId]> remap) (newId + 1).
Proof.
  intros (Hrange & Hinj & Hsurj & Hsize) Hnone.
  split; [|split; [|split]].
  - intros k' v Hk'. destruct (decide (k = k')) as [->|Hne].
    + rewrite lookup_insert_eq in Hk'. injection Hk' as <-. lia.
    + rewrite lookup_insert_ne in Hk' by exact Hne. apply Hrange in Hk'. lia.
  - intros k1 k2 v H1 H2.
    destruct (decide (k = k1)) as [<-|Hne1]; destruct (decide (k = k2)) as [<-|Hne2];
      try reflexivity.
    + rewrite lookup_insert_eq in H1. injection H1 as <-.
      rewrite lookup_insert_ne in H2 by exact Hne2. apply Hrange in H2. lia.
    + rewrite lookup_insert_eq in H2. injection H2 as <-.
      rewrite lookup_insert_ne in H1 by exact Hne1. apply Hrange in H1. lia.
    + rewrite lookup_insert_ne in H1 by exact Hne1.
      rewrite lookup_insert_ne in H2 by exact Hne2. eapply Hinj; eassumption.
  - intros v Hv. destruct (decide (v = newId)) as [->|Hne].
    + exists k. apply lookup_insert_eq.
    + destruct (Hsurj v ltac:(lia)) as [k' Hk']. exists k'.
      rewrite lookup_insert_ne; [exact Hk'|]. intros ->. congruence.
  - rewrite map_size_insert_None by exact Hnone. lia.
Qed.

Lemma renumberPlanks_spec (ps : list Plank.t) :
  forall remap newId ps' remap' newId',
    Room.renumberPlanks ps remap newId = (ps', remap', newId') ->
    remap_ok remap newId ->
    remap_ok remap' newId'
    /\ remap ⊆ remap'
    /\ dom remap' = dom remap ∪ list_to_set (map Plank.id ps)
    /\ ps' = map (fun p => Plank.set_id (remapped remap' (Plank.id p)) p) ps
    /\ first_encounter newId (map Plank.id ps') = true
    /\ newId' = next_id newId (map Plank.id ps').
Proof.
  induction ps as [|p ps IH]; intros remap newId ps' remap' newId' Hrun Hok;
    simpl in Hrun.
  - injection Hrun as <- <- <-. simpl.
    split; [exact Hok|]. split; [reflexivity|].
    split; [rewrite union_empty_r_L; reflexivity|]. auto.
  - destruct (remap !! Plank.id p) as [v|] eqn:Hlook.
    + destruct (Room.renumberPlanks ps remap newId) as [[qs remap2] newId2] eqn:Hrest.
      injection Hrun as <- <- <-.
      destruct (IH _ _ _ _ _ Hrest Hok) as (Hok2 & Hsub & Hdom & Hqs & Hfirst & Hnext).
      assert (Hv : remapped remap2 (Plank.id p) = v).
      { unfold remapped. rewrite (lookup_weaken _ _ _ _ Hlook Hsub). reflexivity. }
      destruct Hok as (Hrange & _). specialize (Hrange _ _ Hlook).
      split; [exact Hok2|]. split; [exact Hsub|]. split.
      { rewrite Hdom. simpl. apply elem_of_dom_2 in Hlook.
        rewrite union_assoc_L. f_equal.
        rewrite (union_comm_L (dom remap) {[Plank.id p]}).
        symmetry. apply subseteq_union_1_L, singleton_subseteq_l. exact Hlook. }
      split; [simpl; rewrite Hv, Hqs; reflexivity|].
      simpl. unfold next_id. simpl.
      destruct (v =? newId) eqn:He; [apply Z.eqb_eq in He; lia|].
      split; [|exact Hnext].
      rewrite Hfirst, andb_true_r. apply andb_true_iff.
      rewrite Z.leb_le, Z.ltb_lt. lia.
    + destruct (Room.renumberPlanks ps (<[Plank.id p := newId]> remap) (newId + 1))
        as [[qs remap2] newId2] eqn:Hrest.
      injection Hrun as <- <- <-.
      destruct (IH _ _ _ _ _ Hrest (remap_ok_insert _ _ _ Hok Hlook))
        as (Hok2 & Hsub & Hdom & Hqs & Hfirst & Hnext).
      assert (Hv : remapped remap2 (Plank.id p) = newId).
      { unfold remapped.
        rewrite (lookup_weaken _ _ _ _ (lookup_insert_eq remap (Plank.id p) newId) Hsub).
        reflexivity. }
      split; [exact Hok2|]. split.
      { etrans; [apply insert_subseteq; exact Hlook|exact Hsub]. }
      split.
      { rewrite Hdom, dom_insert_L. simpl.
        rewrite (union_comm_L {[Plank.id p]}), union_assoc_L. reflexivity. }
      split; [simpl; rewrite Hv, Hqs; reflexivity|].
      simpl. unfold next_id. simpl. rewrite Z.eqb_refl.
      split; [exact Hfirst|exact Hnext].
Qed.

Lemma plank_ids_cons (c : Column.t) (cols : list Column.t) :
  plank_ids (c :: cols) = map Plank.id (Column.planks c) ++ plank_ids cols.
Proof. unfold plank_ids, laid. simpl. apply map_app. Qed.

Lemma renumberColumns_spec (cols : list Column.t) :
  forall remap newId cols' remap' newId',
    Room.renumberColumns cols remap newId = (cols', remap', newId') ->
    remap_ok remap newId ->
    remap_ok remap' newId'
    /\ remap ⊆ remap'
    /\ dom remap' = dom remap ∪ list_to_set (plank_ids cols)
    /\ cols' = map (rename (remapped remap')) cols
    /\ first_encounter newId (plank_ids cols') = true
    /\ newId' = next_id newId (plank_ids cols').
Proof.
  induction cols as [|c cols IH]; intros remap newId cols' remap' newId' Hrun Hok;
    simpl in Hrun.
  - injection Hrun as <- <- <-.
    split; [exact Hok|]. split; [reflexivity|]. split; [|auto].
    unfold plank_ids, laid. simpl. rewrite union_empty_r_L. reflexivity.
  - destruct (Room.renumberPlanks (Column.planks c) remap newId)
      as [[ps remap1] newId1] eqn:Hplanks.
    destruct (Room.renumberColumns cols remap1 newId1) as [[ds remap2] newId2] eqn:Hrest.
    injection Hrun as <- <- <-.
    destruct (renumberPlanks_spec _ _ _ _ _ _ Hplanks Hok)
      as (Hok1 & Hsub1 & Hdom1 & Hps & Hfirst1 & Hnext1).
    destruct (IH _ _ _ _ _ Hrest Hok1) as (Hok2 & Hsub2 & Hdom2 & Hds & Hfirst2 & Hnext2).
    split; [exact Hok2|]. split; [etrans; eassumption|]. split.
    { rewrite Hdom2, Hdom1, plank_ids_cons, list_to_set_app_L, union_assoc_L. reflexivity. }
    split.
    { simpl. rewrite <- Hds. f_equal. unfold rename. f_equal. rewrite Hps.
      apply map_ext_in. intros p Hp. f_equal. unfold remapped.
      assert (Hin : Plank.id p ∈ dom remap1).
      { rewrite Hdom1. apply elem_of_union_r, elem_of_list_to_set, list_elem_of_In.
        apply in_map. exact Hp. }
      apply elem_of_dom in Hin as [v Hv]. rewrite Hv.
      rewrite (lookup_weaken _ _ _ _ Hv Hsub2). reflexivity. }
    rewrite plank_ids_cons. simpl.
    rewrite first_encounter_app, next_id_app, <- Hnext1, Hfirst1, Hfirst2. auto.
Qed.

(** ** Shuffle: what is kept *)

Lemma unplaced_rename (f : Z -> Z) (c : Column.t) :
  unplaced (rename f c) = rename f (unplaced c).
Proof. unfold unplaced, rename. simpl. rewrite !map_map. reflexivity. Qed.

Lemma laid_perm (cols cols' : list Column.t) : cols ≡ₚ cols' -> laid cols ≡ₚ laid cols'.
Proof.
  unfold laid. induction 1 as [|c l l' _ IH|c d l|l1 l2 l3 _ IH1 _ IH2]; simpl.
  - reflexivity.
  - rewrite IH. reflexivity.
  - rewrite !app_assoc. apply Permutation_app_tail, Permutation_app_comm.
  - etrans; eassumption.
Qed.

Lemma plank_ids_unplaced (cols : list Column.t) :
  plank_ids (map unplaced cols) = plank_ids cols.
Proof.
  induction cols as [|c cols IH]; [reflexivity|].
  simpl. rewrite !plank_ids_cons, IH. simpl. rewrite map_map. reflexivity.
Qed.

Lemma plank_ids_rename (f : Z -> Z) (cols : list Column.t) :
  plank_ids (map (rename f) cols) = map f (plank_ids cols).
Proof.
  induction cols as [|c cols IH]; [reflexivity|].
  simpl. rewrite !plank_ids_cons, IH, map_app. simpl. rewrite !map_map. reflexivity.
Qed.

Lemma laid_length_map (g : Column.t -> Column.t) (cols : list Column.t) :
  (forall c, length (Column.planks (g c)) = length (Column.planks c)) ->
  length (laid (map g cols)) = length (laid cols).
Proof.
  intros Hg. unfold laid. induction cols as [|c cols IH]; [reflexivity|].
  simpl. rewrite !length_app, IH, Hg. reflexivity.
Qed.

(** Columns that agree up to position and a renaming of ids have the same
    heights and hold the same number of planks. *)
Lemma same_floor (f : Z -> Z) (cols cols' : list Column.t) :
  map unplaced cols' ≡ₚ map (fun c => unplaced (rename f c)) cols ->
  length (laid cols') = length (laid cols) /\ heights cols' ≡ₚ heights cols.
Proof.
  intros Hperm. split.
  - rewrite <- (laid_length_map unplaced cols') by (intros c; simpl; apply length_map).
    rewrite (Permutation_length (laid_perm _ _ Hperm)).
    apply laid_length_map. intros c. simpl. rewrite !length_map. reflexivity.
  - unfold heights.
    assert (H1 : map Column.height cols' = map Column.height (map unplaced cols'))
      by (rewrite map_map; reflexivity).
    assert (H2 : map Column.height cols
                 = map Column.height (map (fun c => unplaced (rename f c)) cols))
      by (rewrite map_map; reflexivity).
    rewrite H1, H2. apply Permutation_map. exact Hperm.
Qed.

(** What one run of [shuffle] does to the columns. *)
Lemma shuffle_spec (rnd : list nat) (r r' : Room.t) :
  Room.shuffle rnd r = Some r' ->
  r' = Room.set_columns (Room.columns r') r
  /\ Sorted Z.le (map Column.left (Room.columns r'))
  /\ first_encounter 1 (plank_ids (Room.columns r')) = true
  /\ (forall k, k ∈ plank_ids (Room.columns r')
                <-> 1 <= k <= Z.of_nat (boards (Room.columns r)))
  /\ exists f,
       (forall a b, a ∈ plank_ids (Room.columns r) -> b ∈ plank_ids (Room.columns r) ->
          f a = f b -> a = b)
       /\ map unplaced (Room.columns r')
          ≡ₚ map (fun c => unplaced (rename f c)) (Room.columns r).
Proof.
  unfold Room.shuffle. intros Hrun.
  destruct (Room.shuffleBins _ _ _ _) as [[swapped rnd1]|] eqn:Hswap; [|discriminate].
  destruct (Room.renumberColumns (Room.sort_by_left swapped) ∅ 1)
    as [[cols' remap'] newId'] eqn:Hren.
  injection Hrun as <-. simpl.
  apply unplaced_shuffleBins in Hswap.
  destruct (renumberColumns_spec _ _ _ _ _ _ Hren remap_ok_start)
    as ((Hrange & Hinj & Hsurj & Hsize) & _ & Hdom & Hcols' & Hfirst & _).
  assert (Hids : plank_ids (Room.sort_by_left swapped) ≡ₚ plank_ids (Room.columns r)).
  { rewrite <- (plank_ids_unplaced (Room.columns r)), <- Hswap, plank_ids_unplaced.
    unfold plank_ids. apply Permutation_map, laid_perm, sort_by_left_perm. }
  assert (Hdom' : dom remap' = list_to_set (plank_ids (Room.columns r))).
  { rewrite Hdom, dom_empty_L, union_empty_l_L. apply set_eq. intros k.
    rewrite !elem_of_list_to_set, Hids. reflexivity. }
  assert (Hlook : forall k, k ∈ plank_ids (Room.columns r) ->
                    exists v, remap' !! k = Some v /\ remapped remap' k = v).
  { intros k Hk. assert (Hin : k ∈ dom remap') by (rewrite Hdom'; apply elem_of_list_to_set, Hk).
    apply elem_of_dom in Hin as [v Hv]. exists v. unfold remapped. rewrite Hv. auto. }
  assert (Hboards : newId' = 1 + Z.of_nat (boards (Room.columns r))).
  { unfold boards. rewrite <- Hdom', size_dom. exact Hsize. }
  split; [reflexivity|]. split.
  { rewrite Hcols', map_map. simpl. apply sort_by_left_sorted. }
  split; [exact Hfirst|]. split.
  - intros k. rewrite Hcols', plank_ids_rename. split.
    + intros Hk. apply list_elem_of_In, in_map_iff in Hk as (k0 & <- & Hk0).
      apply list_elem_of_In in Hk0. rewrite Hids in Hk0.
      destruct (Hlook k0 Hk0) as (v & Hv & ->). apply Hrange in Hv. lia.
    + intros Hk. destruct (Hsurj k ltac:(lia)) as [k0 Hk0].
      apply list_elem_of_In, in_map_iff. exists k0. split.
      * unfold remapped. rewrite Hk0. reflexivity.
      * apply list_elem_of_In. rewrite Hids.
        assert (Hin : k0 ∈ dom remap') by (apply elem_of_dom; eauto).
        rewrite Hdom' in Hin. apply elem_of_list_to_set in Hin. exact Hin.
  - exists (remapped remap'). split.
    + intros a b Ha Hb Heq.
      destruct (Hlook a Ha) as (va & Hva & Hfa). destruct (Hlook b Hb) as (vb & Hvb & Hfb).
      apply (Hinj a b va); [exact Hva|]. rewrite Hvb. f_equal. congruence.
    + assert (Hcomm : forall l, map (fun c => unplaced (rename (remapped remap') c)) l
                                = map (rename (remapped remap')) (map unplaced l)).
      { intros l. rewrite map_map. apply map_ext. intros c. apply unplaced_rename. }
      rewrite Hcols', map_map.
      etrans; [apply Permutation_map, sort_by_left_perm|].
      rewrite !Hcomm, Hswap. reflexivity.
Qed.

(** ** Shuffle: some run of the random numbers lets it finish *)

Lemma pickPartner_accepts (n from d : nat) (rest : list nat) :
  d <> from -> (d < n)%nat -> Room.pickPartner n from (d :: rest) = Some (d, rest).
Proof.
  intros Hne Hlt. simpl.
  rewrite bool_decide_eq_false_2 by exact Hne.
  rewrite bool_decide_eq_true_2 by exact Hlt. reflexivity.
Qed.

Lemma shuffleBin_can_finish (bin : list nat) (count : nat) :
  (1 < length bin)%nat ->
  forall i cols, exists rnd cols',
    forall rest, Room.shuffleBin bin i count cols (rnd ++ rest) = Some (cols', rest).
Proof.
  intros Hn. induction count as [|count IH]; intros i cols.
  - exists [], cols. reflexivity.
  - assert (Hfrom : (i `mod` length bin < length bin)%nat)
      by (apply Nat.mod_upper_bound; lia).
    assert (Hto : (S (i `mod` length bin) `mod` length bin < length bin)%nat)
      by (apply Nat.mod_upper_bound; lia).
    assert (Hne : (S (i `mod` length bin) `mod` length bin <> i `mod` length bin)%nat).
    { destruct (decide (S (i `mod` length bin) = length bin)) as [He|He].
      - rewrite He, Nat.Div0.mod_same. lia.
      - rewrite Nat.mod_small by lia. lia. }
    destruct (lookup_lt_is_Some_2 bin _ Hfrom) as [a Ha].
    destruct (lookup_lt_is_Some_2 bin _ Hto) as [b Hb].
    destruct (IH (S i) (Room.swapLefts cols a b)) as (rnd & cols' & Hrun).
    exists (S (i `mod` length bin) `mod` length bin :: rnd)%nat, cols'. intros rest.
    cbn [Room.shuffleBin app]. rewrite (pickPartner_accepts _ _ _ _ Hne Hto), Ha, Hb.
    apply Hrun.
Qed.

Lemma shuffleBins_can_finish (bins : list (Z * list nat)) (keys : list Z) :
  forall cols, exists rnd cols',
    forall rest, Room.shuffleBins bins keys cols (rnd ++ rest) = Some (cols', rest).
Proof.
  induction keys as [|key keys IH]; intros cols.
  - exists [], cols. reflexivity.
  - cbn [Room.shuffleBins].
    destruct (bool_decide (1 < length (Room.bins_get bins key))%nat) eqn:Hbig.
    + apply bool_decide_eq_true in Hbig.
      destruct (shuffleBin_can_finish (Room.bins_get bins key)
                  (2 * length (Room.bins_get bins key)) Hbig 0%nat cols)
        as (rnd1 & cols1 & Hrun1).
      destruct (IH cols1) as (rnd2 & cols2 & Hrun2).
      exists (rnd1 ++ rnd2), cols2. intros rest.
      rewrite <- app_assoc, Hrun1. apply Hrun2.
    + exact (IH cols).
Qed.

(** ** A column that whole planks would fill exactly *)

(** When a column starts without a partial and its height to fill is [k]
    planks exactly, the full-plank loop stops one plank short, because it
    only runs while [h > PLANK_LENGTH]: the turn ends with [h] equal to
    [PLANK_LENGTH], and the last plank is made by the cut branch, counted in
    [cuts] and marked cut at the bottom. *)
Lemma exact_fit_is_cut (fuel : nat) (s s1 : Room.frame) (v : Room.locals) (k : Z) :
  Room.fullPlanksLoop fuel (Room.startColumn s).1 (Room.startColumn s).2 = Some (s1, v) ->
  Room.partial v = None ->
  0 < Room.PLANK_LENGTH (Room.self s) ->
  1 <= k ->
  Column.height (Room.clipped (Room.self s) (Room.l s)) - Room.first_offset s
    = k * Room.PLANK_LENGTH (Room.self s) ->
  Room.h v = Room.PLANK_LENGTH (Room.self s)
  /\ Room.fullPlanks v = k - 1
  /\ exists c cp,
       Room.columns (Room.self (Room.finishColumn s1 v)) = Room.columns (Room.self s) ++ [c]
       /\ last (Column.planks c) = Some cp
       /\ Plank.cut_end cp = "<"%string
       /\ Plank.length cp = Room.PLANK_LENGTH (Room.self s)
       /\ Room.cuts (Room.self (Room.finishColumn s1 v)) = Room.cuts (Room.self s) + 1
       /\ Room.planksNeeded (Room.self (Room.finishColumn s1 v))
          = Room.planksNeeded (Room.self s) + k.
Proof.
  intros Hrun Hnone Hpl Hk Hfit.
  destruct (fullPlanksLoop_result _ _ _ _ _ Hrun) as (_ & _ & _ & _ & _ & _ & Hpos & _).
  destruct (filled_spec _ _ _ _ Hrun)
    as (Hself & _ & _ & _ & _ & Hle & fulls & _ & Hn & Hcases).
  destruct Hcases as [(_ & _ & _ & Hhv & _)|(_ & i & p & _ & _ & _ & Hsome & _)];
    [|congruence].
  destruct (startColumn_cases s) as [(_ & _ & Hh0 & _)|(_ & i & p & _ & _ & _ & Hp & _)].
  2:{ destruct (fullPlanksLoop_result _ _ _ _ _ Hrun) as (_ & _ & _ & _ & Hpart & _).
      congruence. }
  rewrite Hh0, Hfit in Hpos. rewrite Hfit in Hhv.
  assert (Hh : 0 < Room.h v) by (apply Hpos; nia).
  assert (Hkn : k - Z.of_nat (length fulls) = 1) by nia.
  assert (Hhpl : Room.h v = Room.PLANK_LENGTH (Room.self s)) by nia.
  split; [exact Hhpl|]. split; [lia|].
  assert (Hretry : Room.retries (Room.self s1) v = false) by (apply retries_false; auto).
  destruct (commitColumn_cut s1 v Hh)
    as (cp & banked & Hlen & Hcut & _ & _ & _ & _ & _ & Hs' & _).
  unfold Room.finishColumn. rewrite Hretry, Hs'. simpl.
  exists (Column.set_planks (Column.planks (Room.col v) ++ [cp]) (Room.col v)), cp.
  rewrite Hself. simpl.
  split; [reflexivity|]. split; [apply last_snoc|]. split; [exact Hcut|].
  split; [congruence|]. split; [reflexivity|]. lia.
Qed.

(** ** The planks stay distinct objects *)

Lemma fullPlanksLoop_uids (fuel : nat) :
  forall s v s' v',
    Room.fullPlanksLoop fuel s v = Some (s', v') ->
    exists fulls,
      Column.planks (Room.col v') = Column.planks (Room.col v) ++ fulls
      /\ NoDup (Plank.uid <$> fulls)
      /\ Forall (fun q => Plank.UID (Room.statics s) <= Plank.uid q
                          < Plank.UID (Room.statics s')) fulls
      /\ Plank.UID (Room.statics s) <= Plank.UID (Room.statics s').
Proof.
  induction fuel as [|fuel IH]; intros s v s' v' Hrun; simpl in Hrun;
    destruct (Room.PLANK_LENGTH (Room.self s) <? Room.h v);
    try discriminate Hrun;
    try (injection Hrun as <- <-; exists []; rewrite app_nil_r;
         repeat split; [constructor|constructor|lia]).
  apply IH in Hrun. simpl in Hrun.
  destruct Hrun as (fulls & Hcol & Hnd & Hall & Hle).
  eexists (_ :: fulls). split; [rewrite Hcol, <- app_assoc; reflexivity|].
  rewrite Forall_forall in Hall.
  split; [|split; [|lia]].
  - rewrite fmap_cons. apply NoDup_cons. split; [|exact Hnd]. simpl.
    intros Hin. apply list_elem_of_fmap in Hin as (q & Hq & Hin).
    specialize (Hall q Hin). lia.
  - apply Forall_cons. split; [simpl; lia|].
    apply Forall_forall. intros q Hq. specialize (Hall q Hq). lia.
Qed.

Lemma submseteq_NoDup (l k : list Z) : l ⊆+ k -> NoDup k -> NoDup l.
Proof.
  intros Hsub Hk. apply submseteq_sublist_l in Hsub as (l2 & Hsl & Hperm).
  eapply sublist_NoDup; [|exact Hsl]. rewrite Hperm. exact Hk.
Qed.

(** Planks made after [u] cannot clash with planks made before. *)
Lemma distinct_extend (old new now : list Plank.t) (u u' : Z) :
  NoDup (Plank.uid <$> old) -> Forall (fun p => Plank.uid p < u) old ->
  NoDup (Plank.uid <$> new) -> Forall (fun p => u <= Plank.uid p < u') new ->
  u <= u' ->
  (Plank.uid <$> now) ⊆+ (Plank.uid <$> old ++ new) ->
  NoDup (Plank.uid <$> now) /\ Forall (fun p => Plank.uid p < u') now.
Proof.
  intros Hold Hbound Hnew Hrange Hle Hsub.
  rewrite Forall_forall in Hbound, Hrange.
  split.
  - eapply submseteq_NoDup; [exact Hsub|]. rewrite fmap_app. apply NoDup_app.
    split; [exact Hold|]. split; [|exact Hnew].
    intros x Hx Hx'. apply list_elem_of_fmap in Hx as (p & -> & Hp).
    apply list_elem_of_fmap in Hx' as (q & Heq & Hq).
    specialize (Hbound p Hp). specialize (Hrange q Hq). lia.
  - apply Forall_forall. intros p Hp.
    assert (Hin : Plank.uid p ∈ Plank.uid <$> old ++ new).
    { eapply elem_of_submseteq; [|exact Hsub]. apply list_elem_of_fmap. eauto. }
    apply list_elem_of_fmap in Hin as (q & -> & Hq).
    apply elem_of_app in Hq as [Hq|Hq].
    + specialize (Hbound q Hq). lia.
    + specialize (Hrange q Hq). lia.
Qed.

Lemma probe_submseteq (pick : bool) (need : Z) (pool : list Plank.t) :
  Room.probe pick need pool ⊆+ pool.
Proof.
  destruct pick; [|reflexivity].
  destruct (probe_cases need pool) as [[_ ->]|(j & bp & Hj & _ & _ & [[_ ->]|[_ ->]])].
  - reflexivity.
  - apply sublist_submseteq, sublist_delete.
  - apply Permutation_submseteq. rewrite (delete_Permutation pool j bp Hj) at 2.
    apply Permutation_app_comm.
Qed.

Lemma shelve_the_cut (B L S F : list Z) (c : Z) :
  B ++ L ++ S ++ F ++ [c] ≡ₚ S ++ L ++ F ++ c :: B.
Proof.
  rewrite (Permutation_app_comm B), <- !app_assoc. simpl.
  apply Permutation_app_swap_app.
Qed.

(** A turn keeps the planks of the room distinct. *)
Lemma distinct_planks_body (fuel : nat) (s s' : Room.frame) :
  distinct_planks s -> Room.body fuel s = Some s' -> distinct_planks s'.
Proof.
  intros (Hnd & Hold) Hbody. unfold Room.body in Hbody.
  destruct (Room.fullPlanksLoop fuel _ _) as [[s1 v]|] eqn:Hrun; [|discriminate].
  injection Hbody as <-.
  destruct (fullPlanksLoop_uids _ _ _ _ _ Hrun) as (fulls & Hplanks & Hndf & Hrange & Hle).
  destruct (fullPlanksLoop_result _ _ _ _ _ Hrun)
    as (Hself & _ & _ & Hpick & Hpart & _).
  destruct (startColumn_frame s) as (Hg0 & _ & _ & Hpick0 & _ & Hself0).
  rewrite Hg0 in Hrange, Hle.
  assert (Hcols : Room.columns (Room.self s1) = Room.columns (Room.self s))
    by (rewrite Hself, Hself0; reflexivity).
  (* what the start of the column did to the pool *)
  assert (Hstart : (Plank.uid <$> Room.partials (Room.self s1)
                                  ++ Column.planks (Room.col (Room.startColumn s).2))
                   ≡ₚ Plank.uid <$> Room.partials (Room.self s)).
  { rewrite Hself.
    destruct (startColumn_cases s) as [(_ & -> & _ & ->)|(_ & i & p & Hi & _ & -> & _ & -> & _)].
    - destruct (clipped_column (Room.self s) (Room.l s)) as (-> & _).
      rewrite app_nil_r. reflexivity.
    - simpl. rewrite (delete_Permutation _ i p Hi) at 2.
      rewrite fmap_app, fmap_cons. simpl. rewrite Permutation_app_comm. reflexivity. }
  unfold distinct_planks, planks_of in *.
  destruct (Room.retries (Room.self s1) v) eqn:Hretry.
  - (* retry *)
    destruct (retryColumn_spec s1 v Hretry) as (p & Hp & _ & ->). simpl.
    assert (Hone : exists p0, Column.planks (Room.col (Room.startColumn s).2) = [p0]
                              /\ Plank.uid p0 = Plank.uid p).
    { destruct (startColumn_cases s) as [(Hnone & _)|(_ & i & p0 & _ & _ & _ & Hsome & -> & _)];
        [congruence|]. exists (placed s p0). split; [reflexivity|]. congruence. }
    destruct Hone as (p0 & Hp0 & Hpuid). rewrite Hp0 in Hstart.
    eapply (distinct_extend _ [] _ (Plank.UID (Room.statics s)));
      [exact Hnd|exact Hold|constructor|constructor|exact Hle|].
    rewrite app_nil_r, Hcols. apply Permutation_submseteq.
    rewrite !fmap_app, <- Hstart, !fmap_app. simpl. rewrite Hpuid. reflexivity.
  - unfold Room.finishColumn. rewrite Hretry.
    destruct (Z.le_gt_cases (Room.h v) 0) as [Hh|Hh].
    + (* a column without a cut *)
      rewrite (commitColumn_whole s1 v Hh). simpl.
      eapply (distinct_extend _ fulls _ (Plank.UID (Room.statics s)));
        [exact Hnd|exact Hold|exact Hndf|exact Hrange|exact Hle|].
      apply Permutation_submseteq.
      rewrite Hcols, laid_app. unfold laid at 2. simpl. rewrite app_nil_r, Hplanks.
      rewrite !fmap_app, <- Hstart, !fmap_app.
      rewrite <- !app_assoc. apply Permutation_app_head.
      rewrite !app_assoc. apply Permutation_app_tail. apply Permutation_app_comm.
    + (* a column with a cut *)
      destruct (commitColumn_cut s1 v Hh)
        as (cp & banked & _ & _ & Hcpuid & Hbank & Hup & Hbuid & Hcpup & Hs' & _).
      rewrite Hs'. simpl.
      eapply (distinct_extend _ (fulls ++ cp :: banked) _ (Plank.UID (Room.statics s)));
        [exact Hnd|exact Hold| | |lia|].
      * rewrite fmap_app, fmap_cons. apply NoDup_app. split; [exact Hndf|]. split.
        -- intros x Hx Hx'. apply list_elem_of_fmap in Hx as (q & -> & Hq).
           rewrite Forall_forall in Hrange. specialize (Hrange q Hq).
           apply elem_of_cons in Hx' as [Hx'|Hx']; [lia|].
           apply list_elem_of_fmap in Hx' as (b & Hb & Hin).
           destruct Hbank as [(_ & b' & -> & _ & _ & _ & Hb')|(_ & ->)]; [|inversion Hin].
           apply list_elem_of_singleton in Hin as ->. lia.
        -- apply NoDup_cons. split.
           ++ intros Hin. apply list_elem_of_fmap in Hin as (b & Hb & Hin).
              destruct Hbank as [(_ & b' & -> & _ & _ & _ & Hb')|(_ & ->)]; [|inversion Hin].
              apply list_elem_of_singleton in Hin as ->. lia.
           ++ destruct Hbank as [(_ & b' & -> & _)|(_ & ->)];
                [apply NoDup_singleton|constructor].
      * apply Forall_app. split.
        -- eapply Forall_impl; [exact Hrange|]. simpl. intros q Hq. lia.
        -- apply Forall_cons. split; [lia|].
           apply Forall_forall. intros b Hb. specialize (Hbuid b Hb).
           destruct Hbank as [(_ & b' & -> & _ & _ & _ & Hb')|(_ & ->)]; [|inversion Hb].
           apply list_elem_of_singleton in Hb as ->. lia.
      * rewrite Hcols, laid_app. unfold laid at 2. simpl. rewrite app_nil_r, Hplanks.
        rewrite !fmap_app, <- Hstart, !fmap_app, fmap_cons.
        etrans.
        { apply submseteq_app; [apply submseteq_app; [|reflexivity]|reflexivity].
          apply fmap_submseteq, probe_submseteq. }
        apply Permutation_submseteq.
        rewrite <- !app_assoc. apply Permutation_app_head.
        rewrite fmap_cons. apply shelve_the_cut.
Qed.

Lemma renumber_from_uids (ps : list Plank.t) :
  forall g, Plank.uid <$> (Room.renumber_from ps g).1 = Plank.uid <$> ps
            /\ Plank.UID (Room.renumber_from ps g).2 = Plank.UID g.
Proof.
  induction ps as [|p ps IH]; intros g; simpl; [auto|].
  specialize (IH (Plank.Statics (Plank.NEXT g + 1) (Plank.UID g))).
  destruct (Room.renumber_from ps _) as [qs g']. cbn [fst snd] in *.
  destruct IH as [IH1 IH2]. rewrite !fmap_cons, IH1. auto.
Qed.

(** [recomputeFloor] starts its loop with distinct planks when the room
    it is called on has distinct planks. *)
Lemma distinct_planks_enter (r : Room.t) (g : Plank.statics) :
  NoDup (Plank.uid <$> Room.partials r ++ laid (Room.columns r)) ->
  Forall (fun p => Plank.uid p < Plank.UID g) (Room.partials r ++ laid (Room.columns r)) ->
  distinct_planks (Room.enterLoop r g).
Proof.
  intros Hnd Hold. unfold distinct_planks, planks_of, Room.enterLoop,
    Room.collectPermanentPartials.
  pose proof (renumber_from_uids
    (filter (fun p => Plank.permanent p = true) (Room.partials r)
     ++ filter (fun p => Plank.permanent p = true)
          (concat (map Column.planks (Room.columns r))))
    (Plank.Statics 1 (Plank.UID g))) as [Huids Huid].
  destruct (Room.renumber_from _ _) as [ps g']. simpl in *.
  unfold laid at 1 2. simpl. rewrite !app_nil_r, Huids, Huid.
  assert (Hsub : filter (fun p => Plank.permanent p = true) (Room.partials r)
                 ++ filter (fun p => Plank.permanent p = true) (laid (Room.columns r))
                 `sublist_of` Room.partials r ++ laid (Room.columns r)).
  { apply sublist_app; apply sublist_filter. }
  split.
  - eapply sublist_NoDup; [exact Hnd|]. apply fmap_sublist. exact Hsub.
  - apply Forall_forall. intros p Hp.
    assert (Hin : Plank.uid p ∈ Plank.uid <$> ps) by (apply list_elem_of_fmap; eauto).
    rewrite Huids in Hin. apply list_elem_of_fmap in Hin as (q & -> & Hq).
    rewrite Forall_forall in Hold. apply Hold. eapply elem_of_sublist; [exact Hq|exact Hsub].
Qed.

(** Every turn of the column loop starts with distinct planks. *)
Lemma distinct_planks_turns (fuel inner : nat) :
  forall s, distinct_planks s -> Forall distinct_planks (Room.turns fuel inner s).
Proof.
  induction fuel as [|fuel IH]; intros s Hs; simpl;
    destruct (Room.l s <? Room.rightmost (Room.self s)); try constructor.
  - exact Hs.
  - destruct (Room.body inner s) as [s'|] eqn:Hbody; [|constructor].
    apply IH. eapply distinct_planks_body; eassumption.
Qed.

Lemma attempts_turns (fuel inner : nat) :
  forall s, Room.attempts fuel inner s
            = map (fun f => (Room.l f, Room.pickPartial f)) (Room.turns fuel inner s).
Proof.
  induction fuel as [|fuel IH]; intros s; simpl;
    destruct (Room.l s <? Room.rightmost (Room.self s)); try reflexivity.
  simpl. f_equal. destruct (Room.body inner s) as [s'|]; [apply IH|reflexivity].
Qed.

(** ** The layout keeps the room *)

Lemma columnLoop_relaid (fuel inner : nat) :
  forall s s', Room.columnLoop fuel inner s = Some s' ->
               relaid (Room.self s) (Room.self s').
Proof.
  induction fuel as [|fuel IH]; intros s s' Hrun; simpl in Hrun;
    destruct (Room.l s <? Room.rightmost (Room.self s));
    try discriminate Hrun; try (injection Hrun as <-; apply relaid_refl).
  unfold Room.body in Hrun.
  destruct (Room.fullPlanksLoop inner _ _) as [[s1 v]|] eqn:Hloop; [|discriminate].
  destruct (turn_outcome _ _ _ _ Hloop) as [Hrel _].
  eapply relaid_trans; [exact Hrel|]. apply IH. exact Hrun.
Qed.

Lemma recomputeFloor_relaid (fuel : nat) (r r' : Room.t) (g g' : Plank.statics) :
  Room.recomputeFloor fuel r g = Some (r', g') -> relaid r r'.
Proof.
  unfold Room.recomputeFloor. intros Hrun.
  destruct (Room.columnLoop fuel fuel _) as [s|] eqn:Hloop; [|discriminate].
  injection Hrun as <- <-.
  eapply relaid_trans; [apply enterLoop_spec|]. eapply columnLoop_relaid. exact Hloop.
Qed.

(** ** The shape of a turn, and what follows from it *)

(** *** measure *)

Lemma measure_step_fields (vs : list Vertex.t) (i : nat) (p1 : Vertex.t) (r : Room.t) :
  Room.measure_step vs i p1 r
  = Room.with_measure (Room.hedges r ++ edge p1 (next_vertex vs i p1))
      (Z.min (Room.leftmost r) (Vertex.x p1)) (Z.max (Room.rightmost r) (Vertex.x p1))
      (Z.min (Room.topmost r) (Vertex.y p1)) (Z.max (Room.bottommost r) (Vertex.y p1)) r.
Proof.
  unfold Room.measure_step, edge, next_vertex.
  destruct (Vertex.y p1 =? _); [reflexivity|]. rewrite app_nil_r. reflexivity.
Qed.

Lemma measure_loop_fields (vs rest : list Vertex.t) :
  forall i r,
    Room.measure_loop vs rest i r
    = Room.with_measure
        (Room.hedges r
         ++ concat (imap (fun k p1 => edge p1 (next_vertex vs (i + k) p1)) rest))
        (foldl Z.min (Room.leftmost r) (map Vertex.x rest))
        (foldl Z.max (Room.rightmost r) (map Vertex.x rest))
        (foldl Z.min (Room.topmost r) (map Vertex.y rest))
        (foldl Z.max (Room.bottommost r) (map Vertex.y rest)) r.
Proof.
  induction rest as [|p1 rest IH]; intros i r.
  - simpl. rewrite app_nil_r. destruct r; reflexivity.
  - simpl. rewrite IH, measure_step_fields. simpl.
    rewrite <- app_assoc, Nat.add_0_r. unfold Room.with_measure. simpl.
    f_equal. f_equal. f_equal. f_equal. apply imap_ext. intros k p _. simpl.
    rewrite Nat.add_succ_r. reflexivity.
Qed.

Lemma foldl_min_le (zs : list Z) : forall a, foldl Z.min a zs <= a /\ Forall (fun z => foldl Z.min a zs <= z) zs.
Proof.
  induction zs as [|z zs IH]; intros a; simpl; [split; [lia|constructor]|].
  destruct (IH (Z.min a z)) as [H1 H2]. split; [lia|]. constructor; [lia|exact H2].
Qed.

Lemma foldl_max_ge (zs : list Z) : forall a, a <= foldl Z.max a zs /\ Forall (fun z => z <= foldl Z.max a zs) zs.
Proof.
  induction zs as [|z zs IH]; intros a; simpl; [split; [lia|constructor]|].
  destruct (IH (Z.max a z)) as [H1 H2]. split; [lia|]. constructor; [lia|exact H2].
Qed.

Lemma foldl_min_in (zs : list Z) : forall a, foldl Z.min a zs = a \/ foldl Z.min a zs ∈ zs.
Proof.
  induction zs as [|z zs IH]; intros a; simpl; [auto|].
  destruct (IH (Z.min a z)) as [->|H].
  - destruct (Z.min_spec a z) as [[_ ->]|[_ ->]]; [auto|right; left].
  - right. right. exact H.
Qed.

Lemma foldl_max_in (zs : list Z) : forall a, foldl Z.max a zs = a \/ foldl Z.max a zs ∈ zs.
Proof.
  induction zs as [|z zs IH]; intros a; simpl; [auto|].
  destruct (IH (Z.max a z)) as [->|H].
  - destruct (Z.max_spec a z) as [[_ ->]|[_ ->]]; [right; left|auto].
  - right. right. exact H.
Qed.

Lemma measure_fields (r : Room.t) :
  Room.measure r
  = Room.with_measure
      (concat (imap (fun k p1 => edge p1 (next_vertex (Room.vertices r) k p1))
                 (Room.vertices r)))
      (foldl Z.min MAX_SAFE_INTEGER (map Vertex.x (Room.vertices r)))
      (foldl Z.max MIN_SAFE_INTEGER (map Vertex.x (Room.vertices r)))
      (foldl Z.min MAX_SAFE_INTEGER (map Vertex.y (Room.vertices r)))
      (foldl Z.max MIN_SAFE_INTEGER (map Vertex.y (Room.vertices r))) r.
Proof. unfold Room.measure. rewrite measure_loop_fields. reflexivity. Qed.

Lemma measure_box (r : Room.t) :
  Forall (fun v => Room.leftmost (Room.measure r) <= Vertex.x v <= Room.rightmost (Room.measure r)
                   /\ Room.topmost (Room.measure r) <= Vertex.y v
                      <= Room.bottommost (Room.measure r))
    (Room.vertices r).
Proof.
  rewrite measure_fields. simpl.
  set (vs := Room.vertices r).
  destruct (foldl_min_le (map Vertex.x vs) MAX_SAFE_INTEGER) as [Hl0 Hl].
  destruct (foldl_max_ge (map Vertex.x vs) MIN_SAFE_INTEGER) as [Hr0 Hr].
  destruct (foldl_min_le (map Vertex.y vs) MAX_SAFE_INTEGER) as [Ht0 Ht].
  destruct (foldl_max_ge (map Vertex.y vs) MIN_SAFE_INTEGER) as [Hb0 Hb].
  rewrite Forall_fmap in Hl, Hr, Ht, Hb.
  rewrite Forall_forall in *. intros v Hv.
  specialize (Hl v Hv). specialize (Hr v Hv). specialize (Ht v Hv). specialize (Hb v Hv).
  simpl in *. lia.
Qed.

Lemma next_vertex_lookup (vs : list Vertex.t) (i : nat) (p1 : Vertex.t) :
  vs !! i = Some p1 ->
  vs !! ((i + 1) `mod` length vs)%nat = Some (next_vertex vs i p1).
Proof.
  intros Hi. unfold next_vertex.
  assert (Hn : (i < length vs)%nat) by (eapply lookup_lt_Some; eassumption).
  destruct (lookup_lt_is_Some_2 vs ((i + 1) `mod` length vs)%nat) as [p2 Hp2].
  { apply Nat.mod_upper_bound. lia. }
  rewrite Hp2. reflexivity.
Qed.

Lemma measure_hedge_elem (r : Room.t) (e : HEdge.t) :
  e ∈ Room.hedges (Room.measure r)
  <-> exists i p1 p2,
        Room.vertices r !! i = Some p1
        /\ Room.vertices r !! ((i + 1) `mod` length (Room.vertices r))%nat = Some p2
        /\ Vertex.y p1 = Vertex.y p2
        /\ e = HEdge.mk (Z.min (Vertex.x p1) (Vertex.x p2))
                        (Z.max (Vertex.x p1) (Vertex.x p2)) (Vertex.y p1).
Proof.
  rewrite measure_fields. simpl. rewrite list_elem_of_In, in_concat. split.
  - intros (es & Hes & He). apply list_elem_of_In, elem_of_lookup_imap in Hes.
    destruct Hes as (i & p1 & -> & Hi). exists i, p1, (next_vertex (Room.vertices r) i p1).
    split; [exact Hi|]. split; [apply next_vertex_lookup; exact Hi|].
    unfold edge in He. destruct (Vertex.y p1 =? _) eqn:Hy; [|destruct He].
    apply Z.eqb_eq in Hy. destruct He as [<-|[]]. auto.
  - intros (i & p1 & p2 & Hi & Hn & Hy & ->).
    exists (edge p1 (next_vertex (Room.vertices r) i p1)). split.
    + apply list_elem_of_In, elem_of_lookup_imap. eauto.
    + rewrite (next_vertex_lookup _ _ _ Hi) in Hn. injection Hn as ->.
      unfold edge. apply Z.eqb_eq in Hy. rewrite Hy. left. reflexivity.
Qed.

Lemma length_edges (vs : list Vertex.t) :
  forall (h : nat -> Vertex.t -> Vertex.t),
    (length (concat (imap (fun k p1 => edge p1 (h k p1)) vs)) <= length vs)%nat.
Proof.
  induction vs as [|v vs IH]; intros h; simpl; [lia|].
  rewrite length_app.
  assert (H1 : (length (edge v (h 0%nat v)) <= 1)%nat)
    by (unfold edge; destruct (_ =? _); simpl; lia).
  assert (H2 : (length (concat (imap ((fun k p1 => edge p1 (h k p1)) ∘ S) vs))
                <= length vs)%nat) by exact (IH (fun k => h (S k))).
  lia.
Qed.

(** *** clip *)

Lemma clip_cases (hedge : HEdge.t) (c : Column.t) :
  0 < Column.width c -> HEdge.left hedge <= HEdge.right hedge ->
  Column.clip hedge c
  = if decide (overlaps (Column.left c) (Column.width c) hedge)
    then stretched (HEdge.y hedge) c else c.
Proof.
  intros Hw He. unfold Column.clip, overlaps, Column.right, stretched.
  destruct ((_ && _) || _ || _ || _)%bool eqn:Ht.
  - rewrite decide_True; [reflexivity|].
    rewrite !orb_true_iff, !andb_true_iff, !Z.leb_le, !Z.ltb_lt in Ht. lia.
  - rewrite decide_False; [reflexivity|].
    rewrite !orb_false_iff, !andb_false_iff, !Z.leb_gt, !Z.ltb_ge in Ht. lia.
Qed.

Lemma clip_all (hs : list HEdge.t) :
  forall c,
    0 < Column.width c -> Forall (fun e => HEdge.left e <= HEdge.right e) hs ->
    foldl (fun c hedge => Column.clip hedge c) c hs
    = Column.mk (Column.left c) (Column.width c)
        (foldl Z.min (Column.top c)
           (map HEdge.y (filter (overlaps (Column.left c) (Column.width c)) hs)))
        (foldl Z.max (Column.bottom c)
           (map HEdge.y (filter (overlaps (Column.left c) (Column.width c)) hs)))
        (Column.planks c).
Proof.
  induction hs as [|e hs IH]; intros c Hw Hwf.
  - destruct c; reflexivity.
  - apply Forall_cons in Hwf as [He Hwf]. simpl.
    rewrite (clip_cases e c Hw He), filter_cons.
    destruct (decide _) as [Hov|Hno].
    + rewrite IH by (try exact Hwf; exact Hw). simpl.
      rewrite (Z.min_comm (HEdge.y e)), (Z.max_comm (HEdge.y e)). reflexivity.
    + apply IH; assumption.
Qed.

Lemma foldl_min_perm (l l' : list Z) :
  l ≡ₚ l' -> forall a, foldl Z.min a l = foldl Z.min a l'.
Proof.
  induction 1 as [|x l l' _ IH|x y l|l1 l2 l3 _ IH1 _ IH2]; intros a; simpl.
  - reflexivity.
  - apply IH.
  - f_equal. lia.
  - rewrite IH1. apply IH2.
Qed.

Lemma foldl_max_perm (l l' : list Z) :
  l ≡ₚ l' -> forall a, foldl Z.max a l = foldl Z.max a l'.
Proof.
  induction 1 as [|x l l' _ IH|x y l|l1 l2 l3 _ IH1 _ IH2]; intros a; simpl.
  - reflexivity.
  - apply IH.
  - f_equal. lia.
  - rewrite IH1. apply IH2.
Qed.

Lemma clipped_fields (r : Room.t) (x : Z) :
  0 < Room.PLANK_WIDTH r ->
  Forall (fun e => HEdge.left e <= HEdge.right e) (Room.hedges r) ->
  Room.clipped r x
  = Column.mk x (Room.PLANK_WIDTH r)
      (foldl Z.min MAX_SAFE_INTEGER
         (map HEdge.y (filter (overlaps x (Room.PLANK_WIDTH r)) (Room.hedges r))))
      (foldl Z.max MIN_SAFE_INTEGER
         (map HEdge.y (filter (overlaps x (Room.PLANK_WIDTH r)) (Room.hedges r))))
      [].
Proof.
  intros Hw Hwf. unfold Room.clipped. rewrite clip_all; [reflexivity|exact Hw|exact Hwf].
Qed.

(** *** The three ways a turn ends *)

Lemma board_shift (r : Room.t) (g : Plank.statics) (x y : Z) (k : nat) :
  board r g x y (S k)
  = board r (Plank.Statics (Plank.NEXT g + 1) (Plank.UID g + 1)) x
      (y + Room.PLANK_LENGTH r) k.
Proof. unfold board. simpl Plank.NEXT. simpl Plank.UID. f_equal; lia. Qed.

Lemma boards_shift (r : Room.t) (g : Plank.statics) (x y : Z) (n : nat) :
  map (board r g x y) (seq 0 (S n))
  = Plank.mk (Plank.UID g) (Plank.NEXT g) "" x y (Room.PLANK_WIDTH r)
             (Room.PLANK_LENGTH r) false
    :: map (board r (Plank.Statics (Plank.NEXT g + 1) (Plank.UID g + 1)) x
                  (y + Room.PLANK_LENGTH r)) (seq 0 n).
Proof.
  simpl. f_equal.
  - unfold board. f_equal; lia.
  - rewrite <- fmap_S_seq. rewrite <- list_fmap_compose.
    apply list_fmap_ext. intros i k _. apply board_shift.
Qed.

Lemma fullPlanksLoop_exact (fuel : nat) :
  forall s v s' v',
    Room.fullPlanksLoop fuel s v = Some (s', v') ->
    exists n : nat,
      s' = Room.Frame (Room.self s) (bump (Room.statics s) (Z.of_nat n) (Z.of_nat n))
             (Room.l s) (Room.first_offset s) (Room.pickPartial s)
      /\ v' = Room.Locals
                (Column.set_planks
                   (Column.planks (Room.col v)
                    ++ map (board (Room.self s) (Room.statics s) (Room.l s) (Room.y v))
                         (seq 0 n))
                   (Room.col v))
                (Room.y v + Z.of_nat n * Room.PLANK_LENGTH (Room.self s))
                (Room.h v - Z.of_nat n * Room.PLANK_LENGTH (Room.self s))
                (Room.partial v) (Room.fullPlanks v + Z.of_nat n)
      /\ Room.h v - Z.of_nat n * Room.PLANK_LENGTH (Room.self s)
         <= Room.PLANK_LENGTH (Room.self s)
      /\ (n = 0%nat \/ 0 < Room.h v - Z.of_nat n * Room.PLANK_LENGTH (Room.self s)).
Proof.
  induction fuel as [|fuel IH]; intros s v s' v' Hrun; simpl in Hrun;
    destruct (Room.PLANK_LENGTH (Room.self s) <? Room.h v) eqn:Hmore;
    try discriminate Hrun.
  - injection Hrun as <- <-. apply Z.ltb_ge in Hmore. exists 0%nat.
    destruct s as [r [nx ui] x fo pk], v as [[cl cw ct cb cps] vy vh vp vf].
    unfold bump. simpl in *. rewrite !Z.add_0_r, Z.sub_0_r, app_nil_r.
    split; [reflexivity|]. split; [reflexivity|]. split; [lia|auto].
  - apply Z.ltb_lt in Hmore.
    destruct s as [r [nx ui] x fo pk], v as [[cl cw ct cb cps] vy vh vp vf].
    simpl in *. apply IH in Hrun as (n & -> & -> & Hle & Hpos). simpl in *.
    exists (S n). rewrite boards_shift. unfold bump. simpl.
    rewrite <- app_assoc. simpl.
    split; [f_equal; f_equal; lia|].
    split; [f_equal; try lia; reflexivity|].
    split; [lia|]. right. destruct Hpos as [->|Hpos]; lia.
  - injection Hrun as <- <-. apply Z.ltb_ge in Hmore. exists 0%nat.
    destruct s as [r [nx ui] x fo pk], v as [[cl cw ct cb cps] vy vh vp vf].
    unfold bump. simpl in *. rewrite !Z.add_0_r, Z.sub_0_r, app_nil_r.
    split; [reflexivity|]. split; [reflexivity|]. split; [lia|auto].
Qed.

Lemma startColumn_exact (s : Room.frame) :
  exists sp pool1,
    start_ok s sp pool1
    /\ Room.startColumn s
       = (Room.Frame (Room.set_partials pool1 (Room.self s)) (Room.statics s)
            (Room.l s) 0 (Room.pickPartial s),
          Room.Locals (Column.set_planks sp (Room.clipped (Room.self s) (Room.l s)))
            (fill_from s sp)
            (rest_after s sp 0) (head sp) 0).
Proof.
  unfold Room.startColumn, start_ok, fill_from, rest_after.
  pose proof (clipped_column (Room.self s) (Room.l s)) as (Hnone & _).
  destruct (Room.pickPartial s) eqn:Hpick.
  - pose proof (selectPartial_spec ">" 0 (Room.partials (Room.self s))) as Hsel.
    destruct (Room.selectPartial ">" 0 (Room.partials (Room.self s))) as [[p|] pool].
    + destruct Hsel as (i & Hi & -> & Hm & _).
      exists [placed s p], (delete i (Room.partials (Room.self s))). split.
      * right. split; [reflexivity|]. exists i, p. auto.
      * unfold placed. simpl. f_equal. f_equal; lia.
    + destruct Hsel as [-> Hno]. exists [], (Room.partials (Room.self s)). split.
      * left. auto.
      * simpl. f_equal. f_equal; try lia.
        destruct (Room.clipped _ _); simpl in *; subst; reflexivity.
  - exists [], (Room.partials (Room.self s)). split.
    + left. auto.
    + simpl. f_equal. f_equal; try lia.
      destruct (Room.clipped _ _); simpl in *; subst; reflexivity.
Qed.

Lemma turn_shape (fuel : nat) (s s' : Room.frame) :
  Room.body fuel s = Some s' ->
  exists sp pool1 n,
    start_ok s sp pool1
    /\ rest_after s sp n <= Room.PLANK_LENGTH (Room.self s)
    /\ (n = 0%nat \/ 0 < rest_after s sp n)
    /\ ((0 < rest_after s sp n < Room.MIN_PLANK_LENGTH (Room.self s)
         /\ sp <> [] /\ s' = retried s sp pool1 n)
        \/ (rest_after s sp n <= 0 /\ s' = kept_whole s sp pool1 n)
        \/ (0 < rest_after s sp n
            /\ (sp = [] \/ Room.MIN_PLANK_LENGTH (Room.self s) <= rest_after s sp n)
            /\ s' = kept_cut s sp pool1 n)).
Proof.
  intros Hbody. unfold Room.body in Hbody.
  destruct (startColumn_exact s) as (sp & pool1 & Hstart & Heq).
  rewrite Heq in Hbody. cbn [fst snd] in Hbody.
  destruct (Room.fullPlanksLoop _ _ _) as [[s1 v]|] eqn:Hrun; [|discriminate Hbody].
  injection Hbody as <-.
  apply fullPlanksLoop_exact in Hrun as (n & -> & -> & Hle & Hpos).
  cbn [Room.self Room.statics Room.l Room.first_offset Room.pickPartial
       Room.col Room.y Room.h Room.partial Room.fullPlanks
       Room.PLANK_LENGTH Room.set_partials Room.with_layout] in *.
  assert (Hrest : rest_after s sp 0 - Z.of_nat n * Room.PLANK_LENGTH (Room.self s)
                  = rest_after s sp n) by (unfold rest_after; lia).
  rewrite Hrest in *. clear Hrest.
  exists sp, pool1, n. split; [exact Hstart|]. split; [exact Hle|]. split; [exact Hpos|].
  unfold Room.finishColumn.
  destruct (Room.retries _ _) eqn:Hretry.
  - left. unfold Room.retries in Hretry. simpl in Hretry.
    apply andb_true_iff in Hretry as [Hretry Hsome].
    apply andb_true_iff in Hretry as [H0 Hmin].
    apply Z.ltb_lt in H0, Hmin. apply bool_decide_eq_true in Hsome.
    split; [lia|]. split; [intros ->; destruct Hsome; discriminate|].
    unfold Room.retryColumn, retried. simpl.
    destruct sp as [|p sp']; [destruct Hsome; discriminate|].
    destruct Hstart as [(Hnil & _)|(_ & i & p0 & _ & _ & _ & Hsp)]; [discriminate|].
    injection Hsp as -> ->. reflexivity.
  - right. apply retries_false in Hretry. simpl in Hretry.
    unfold Room.commitColumn. simpl.
    change (board (Room.set_partials pool1 (Room.self s))) with (board (Room.self s)).
    rewrite !Z.add_0_l.
    destruct (0 <? rest_after s sp n) eqn:Hcut.
    + right. apply Z.ltb_lt in Hcut. split; [exact Hcut|]. split.
      { destruct Hretry as [H|[H|H]]; [lia|auto|].
        left. destruct sp; [reflexivity|discriminate H]. }
      unfold Room.cutColumn, kept_cut, offcut, cut_plank, leftover, fulls_of, bump. simpl.
      destruct (Room.MIN_PLANK_LENGTH (Room.self s) <? _) eqn:Hover.
      * apply Z.ltb_lt in Hover. rewrite decide_True by exact Hover. simpl.
        rewrite <- !app_assoc.
        unfold Room.set_columns, Room.set_partials, Room.with_layout. simpl.
        f_equal. f_equal; lia.
      * apply Z.ltb_ge in Hover. rewrite decide_False by lia. simpl.
        rewrite <- !app_assoc, app_nil_r.
        unfold Room.set_columns, Room.set_partials, Room.with_layout. simpl.
        f_equal. f_equal; lia.
    + left. apply Z.ltb_ge in Hcut. split; [exact Hcut|].
      unfold kept_whole, fulls_of, bump. simpl.
      unfold Room.set_columns, Room.set_partials, Room.with_layout. simpl.
      reflexivity.
Qed.

(** *** Invariants of the column loop *)

Lemma columnLoop_invariant (P : Room.frame -> Prop) :
  (forall fuel s s', P s -> Room.body fuel s = Some s' -> P s') ->
  forall fuel inner s s', Room.columnLoop fuel inner s = Some s' -> P s -> P s'.
Proof.
  intros Hstep. induction fuel as [|fuel IH]; intros inner s s' Hrun Hs; simpl in Hrun;
    destruct (Room.l s <? Room.rightmost (Room.self s)); try discriminate Hrun;
    try (injection Hrun as <-; exact Hs).
  destruct (Room.body inner s) as [s1|] eqn:Hbody; [|discriminate Hrun].
  eapply IH; [exact Hrun|]. eapply Hstep; eassumption.
Qed.

Lemma recomputeFloor_invariant (P : Room.frame -> Prop) (fuel : nat)
    (r r' : Room.t) (g g' : Plank.statics) :
  (forall fuel s s', P s -> Room.body fuel s = Some s' -> P s') ->
  P (Room.enterLoop r g) ->
  Room.recomputeFloor fuel r g = Some (r', g') ->
  exists s', P s' /\ r' = Room.self s' /\ g' = Room.statics s'.
Proof.
  intros Hstep Hinit Hrun. unfold Room.recomputeFloor in Hrun.
  destruct (Room.columnLoop fuel fuel (Room.enterLoop r g)) as [s'|] eqn:Hloop;
    [|discriminate Hrun].
  injection Hrun as <- <-. exists s'. split; [|auto].
  eapply columnLoop_invariant; eassumption.
Qed.

Lemma laid_snoc (cols : list Column.t) (c : Column.t) :
  laid (cols ++ [c]) = laid cols ++ Column.planks c.
Proof. rewrite laid_app. unfold laid at 2. simpl. rewrite app_nil_r. reflexivity. Qed.



Lemma fulls_of_whole (s : Room.frame) (sp : list Plank.t) (n : nat) :
  Forall (fun p => Plank.cut_end p = ""%string
                   /\ Plank.length p = Room.PLANK_LENGTH (Room.self s)
                   /\ Plank.width p = Room.PLANK_WIDTH (Room.self s)
                   /\ Plank.left p = Room.l s
                   /\ Plank.permanent p = false) (fulls_of s sp n).
Proof. unfold fulls_of. apply Forall_fmap, Forall_forall. intros k _. simpl. auto. Qed.

(** *** The counters *)









(** *** The planks of a column are stacked *)






Lemma well_laid_relaid (r r' : Room.t) (off : Z) (c : Column.t) :
  relaid r r' -> well_laid r off c -> well_laid r' off c.
Proof.
  intros Hrel (H1 & H2). split; [|exact H2].
  rewrite (clipped_relaid r r' _ Hrel). exact H1.
Qed.





(** *** The shape of a column *)

Lemma start_ok_partial (s : Room.frame) (sp pool1 : list Plank.t) :
  start_ok s sp pool1 ->
  (length sp <= 1)%nat
  /\ Forall (fun p => Plank.cut_end p = ">"%string /\ 0 < Plank.length p) sp.
Proof.
  intros [(-> & _)|(_ & i & p & _ & Hm & _ & ->)]; simpl; [auto|].
  split; [lia|]. repeat constructor; apply Hm.
Qed.

Lemma shaped_body (fuel : nat) (s s' : Room.frame) :
  Forall (shaped (Room.self s)) (Room.columns (Room.self s)) ->
  Room.body fuel s = Some s' ->
  Forall (shaped (Room.self s')) (Room.columns (Room.self s')).
Proof.
  intros Hcols Hbody.
  apply turn_shape in Hbody as (sp & pool1 & n & Hstart & Hle & Hpos & Hend).
  destruct (start_ok_partial _ _ _ Hstart) as [Hlen Hsp].
  destruct Hend as [(_ & _ & ->)|[(Hrest & ->)|(Hrest & Hmin & ->)]]; simpl.
  - exact Hcols.
  - apply Forall_app. split; [exact Hcols|]. repeat constructor.
    assert (n = 0%nat) as -> by (destruct Hpos; [assumption|lia]).
    exists sp, [], []. split; [reflexivity|].
    split; [exact Hlen|]. split; [exact Hsp|]. simpl. auto.
  - apply Forall_app. split; [exact Hcols|]. repeat constructor.
    eexists sp, (fulls_of s sp n), [_]. split; [reflexivity|].
    split; [exact Hlen|]. split; [exact Hsp|]. split.
    { eapply Forall_impl; [apply fulls_of_whole|]. simpl.
      intros p (H1 & H2 & _). split; assumption. }
    split; [simpl; lia|]. split; [|discriminate].
    repeat constructor; simpl; try lia.
    intros Hne. destruct Hmin as [->|Hmin]; [destruct Hne; reflexivity|exact Hmin].
Qed.

(** *** The planks of a turn *)

Lemma fulls_of_numbers (s : Room.frame) (sp : list Plank.t) (n : nat) :
  map Plank.uid (fulls_of s sp n)
  = map (fun k => Plank.UID (Room.statics s) + Z.of_nat k) (seq 0 n)
  /\ map tag (fulls_of s sp n)
     = map (fun k => (Plank.NEXT (Room.statics s) + Z.of_nat k, ""%string)) (seq 0 n).
Proof. unfold fulls_of. rewrite !map_map. split; reflexivity. Qed.

Lemma NoDup_shifted {A : Type} (f : Z -> A) (a : Z) (n : nat) :
  (forall x y, f x = f y -> x = y) ->
  NoDup (map (fun k => f (a + Z.of_nat k)) (seq 0 n)).
Proof.
  intros Hinj. apply NoDup_fmap_2; [|apply NoDup_seq].
  intros x y H. apply Hinj in H. lia.
Qed.

Lemma start_pool {A : Type} (f : Plank.t -> A) (s : Room.frame) (sp pool1 : list Plank.t) :
  (forall x y p, f (Plank.set_top y (Plank.set_left x p)) = f p) ->
  start_ok s sp pool1 ->
  map f (pool1 ++ sp) ≡ₚ map f (Room.partials (Room.self s)).
Proof.
  intros Hf [(-> & -> & _)|(_ & i & p & Hi & _ & -> & ->)].
  - rewrite app_nil_r. reflexivity.
  - rewrite map_app. simpl. unfold placed. rewrite Hf.
    rewrite (delete_Permutation _ _ _ Hi) at 2. simpl.
    rewrite Permutation_app_comm. reflexivity.
Qed.

Lemma probe_keeps (pick : bool) (need : Z) (pool : list Plank.t) (p : Plank.t) :
  p ∈ pool -> Plank.cut_end p <> "<"%string -> p ∈ Room.probe pick need pool.
Proof.
  intros Hp Hend. destruct pick; [|exact Hp].
  destruct (probe_cases need pool) as [[_ ->]|(i & bp & Hi & [Hb _] & _ & Hcase)];
    [exact Hp|].
  assert (Hne : p <> bp) by (intros ->; auto).
  destruct Hcase as [[_ ->]|[_ ->]]; [|apply elem_of_app; left];
    eapply delete_keeps_others; eassumption.
Qed.

Lemma start_keeps (s : Room.frame) (sp pool1 : list Plank.t) (p : Plank.t) :
  start_ok s sp pool1 -> p ∈ Room.partials (Room.self s) ->
  p ∈ pool1 \/ placed s p ∈ sp.
Proof.
  intros [(-> & -> & _)|(_ & i & p0 & Hi & _ & -> & ->)] Hp; [auto|].
  rewrite (delete_Permutation _ _ _ Hi) in Hp.
  apply elem_of_cons in Hp as [->|Hp]; [right; left|left; exact Hp].
Qed.

Lemma fulls_of_fresh (s : Room.frame) (sp : list Plank.t) (n : nat) :
  Forall (fun p => Plank.UID (Room.statics s) <= Plank.uid p
                     < Plank.UID (Room.statics s) + Z.of_nat n
                   /\ Plank.NEXT (Room.statics s) <= Plank.id p
                      < Plank.NEXT (Room.statics s) + Z.of_nat n
                   /\ Plank.permanent p = false /\ Plank.cut_end p = ""%string)
    (fulls_of s sp n).
Proof.
  unfold fulls_of. apply Forall_fmap, Forall_forall. intros k Hk.
  apply elem_of_seq in Hk. simpl. repeat split; lia.
Qed.

Lemma shelve {A : Type} (B L S F : list A) (c : A) :
  B ++ L ++ S ++ F ++ [c] ≡ₚ S ++ L ++ F ++ c :: B.
Proof.
  rewrite (Permutation_app_comm B), <- !app_assoc. simpl.
  apply Permutation_app_swap_app.
Qed.

Lemma body_planks (fuel : nat) (s s' : Room.frame) :
  Room.body fuel s = Some s' ->
  exists new more,
    (forall (A : Type) (f : Plank.t -> A),
       (forall x y p, f (Plank.set_top y (Plank.set_left x p)) = f p) ->
       map f (planks_of s') ⊆+ map f (planks_of s ++ new))
    /\ (forall p, p ∈ planks_of s -> Plank.cut_end p <> "<"%string ->
          p ∈ planks_of s' \/ placed s p ∈ planks_of s')
    /\ laid (Room.columns (Room.self s')) = laid (Room.columns (Room.self s)) ++ more
    /\ made_in s s' new
    /\ Plank.NEXT (Room.statics s) <= Plank.NEXT (Room.statics s')
    /\ Plank.UID (Room.statics s) <= Plank.UID (Room.statics s')
    /\ relaid (Room.self s) (Room.self s').
Proof.
  intros Hbody.
  apply turn_shape in Hbody as (sp & pool1 & n & Hstart & Hle & Hpos & Hend).
  destruct Hend as [(_ & _ & ->)|[(Hrest & ->)|(Hrest & Hmin & ->)]].
  - (* the column is tried again *)
    exists [], []. unfold planks_of, made_in, retried. simpl. rewrite !app_nil_r.
    split; [|split; [|split; [|split; [|split; [|split]]]]].
    + intros A f Hf. rewrite !map_app, <- map_app, (start_pool f _ _ _ Hf Hstart).
      reflexivity.
    + intros p Hp Hend. apply elem_of_app in Hp as [Hp|Hp].
      * destruct (start_keeps _ _ _ p Hstart Hp) as [H|H]; [left|right];
          rewrite !elem_of_app; auto.
      * left. rewrite !elem_of_app. auto.
    + reflexivity.
    + split; [constructor|]. split; [constructor|]. split; [constructor|].
      intros p Hp. apply elem_of_nil in Hp. destruct Hp.
    + lia.
    + lia.
    + reflexivity.
  - (* the column is kept without a cut *)
    assert (n = 0%nat) as -> by (destruct Hpos; [assumption|lia]).
    exists [], sp. unfold planks_of, made_in, kept_whole. simpl.
    rewrite laid_snoc. simpl. rewrite !app_nil_r.
    split; [|split; [|split; [|split; [|split; [|split]]]]].
    + intros A f Hf. rewrite !map_app.
      rewrite <- (start_pool f _ _ _ Hf Hstart), map_app.
      rewrite <- !app_assoc. apply submseteq_app; [reflexivity|].
      rewrite Permutation_app_comm. reflexivity.
    + intros p Hp Hend. apply elem_of_app in Hp as [Hp|Hp].
      * destruct (start_keeps _ _ _ p Hstart Hp) as [H|H]; [left|right];
          rewrite !elem_of_app; auto.
      * left. rewrite !elem_of_app. auto.
    + reflexivity.
    + split; [constructor|]. split; [constructor|]. split; [constructor|].
      intros p Hp. apply elem_of_nil in Hp. destruct Hp.
    + lia.
    + lia.
    + reflexivity.
  - (* the column is kept with a cut plank at its end *)
    set (g := bump (Room.statics s) (Z.of_nat n) (Z.of_nat n)).
    set (y := fill_from s sp + Z.of_nat n * Room.PLANK_LENGTH (Room.self s)).
    set (cp := cut_plank (Room.self s) g (Room.l s) y (rest_after s sp n)).
    set (banked := offcut (Room.self s) g (Room.l s) y (rest_after s sp n)).
    exists (fulls_of s sp n ++ [cp] ++ banked), (sp ++ fulls_of s sp n ++ [cp]).
    unfold planks_of, kept_cut. fold g y cp banked. simpl.
    rewrite laid_snoc. simpl.
    destruct (fulls_of_numbers s sp n) as [Huid Htag].
    assert (Hbanked : banked = [] \/
              (Room.MIN_PLANK_LENGTH (Room.self s) < leftover (Room.self s) (rest_after s sp n)
               /\ banked = [Plank.mk (Plank.UID g + 1) (Plank.NEXT g) ">" (Room.l s)
                              (y + rest_after s sp n) (Room.PLANK_WIDTH (Room.self s))
                              (leftover (Room.self s) (rest_after s sp n)) false])).
    { unfold banked, offcut. destruct (decide _); auto. }
    split; [|split; [|split; [|split; [|split; [|split]]]]].
    + intros A f Hf. rewrite !map_app.
      rewrite <- (start_pool f _ _ _ Hf Hstart), !map_app.
      transitivity (map f pool1 ++ map f banked ++ map f (laid (Room.columns (Room.self s)))
                    ++ map f sp ++ map f (fulls_of s sp n) ++ map f [cp]).
      { rewrite <- !app_assoc. apply submseteq_app; [|reflexivity].
        apply fmap_submseteq, probe_submseteq. }
      apply Permutation_submseteq.
      rewrite <- !app_assoc. apply Permutation_app_head. simpl. apply shelve.
    + intros p Hp Hend. apply elem_of_app in Hp as [Hp|Hp].
      * destruct (start_keeps _ _ _ p Hstart Hp) as [H|H]; [left|right];
          rewrite !elem_of_app; auto.
        left. left. apply probe_keeps; assumption.
      * left. rewrite !elem_of_app. auto.
    + reflexivity.
    + pose proof (fulls_of_fresh s sp n) as Hfresh.
      assert (Hcp : Plank.uid cp = Plank.UID (Room.statics s) + Z.of_nat n
                    /\ tag cp = (Plank.NEXT (Room.statics s) + Z.of_nat n, "<"%string))
        by (split; reflexivity).
      destruct Hcp as [Hcpu Hcpt].
      unfold made_in. simpl Room.statics. simpl Room.self. unfold bump. simpl Plank.UID.
      simpl Plank.NEXT. split; [|split; [|split]].
      * rewrite Forall_app. split; [|apply Forall_cons; split].
        -- eapply Forall_impl; [exact Hfresh|]. simpl. intros p (H1 & H2 & H3 & _).
           repeat split; try lia. exact H3.
        -- simpl. repeat split; try lia.
        -- destruct Hbanked as [->|[_ ->]]; repeat constructor; simpl; lia.
      * rewrite !map_app, Huid. apply NoDup_app. split; [|split].
        -- apply (NoDup_shifted (fun x => x)). auto.
        -- intros u Hu Hin. apply list_elem_of_fmap in Hu as (k & -> & Hk).
           apply elem_of_seq in Hk.
           destruct Hbanked as [->|[_ ->]]; simpl in Hin;
             repeat (apply elem_of_cons in Hin as [Hin|Hin]; [lia|]);
             apply elem_of_nil in Hin; exact Hin.
        -- destruct Hbanked as [->|[_ ->]]; simpl;
             repeat (apply NoDup_cons; split;
                     [rewrite ?elem_of_cons, ?elem_of_nil; simpl; lia|]);
             apply NoDup_nil_2.
      * rewrite !map_app, Htag. apply NoDup_app. split; [|split].
        -- apply (NoDup_shifted (fun x => (x, ""%string))). congruence.
        -- intros u Hu Hin. apply list_elem_of_fmap in Hu as (k & -> & Hk).
           destruct Hbanked as [->|[_ ->]]; simpl in Hin;
             repeat (apply elem_of_cons in Hin as [Hin|Hin]; [discriminate Hin|]);
             apply elem_of_nil in Hin; exact Hin.
        -- destruct Hbanked as [->|[_ ->]]; unfold tag; simpl;
             repeat (apply NoDup_cons; split;
                     [rewrite ?elem_of_cons, ?elem_of_nil;
                      try (intros [H|H]; [discriminate H|exact H]); auto|]);
             apply NoDup_nil_2.
      * intros p Hp Hend. rewrite elem_of_app, elem_of_cons in Hp.
        destruct Hp as [Hp|[->|Hp]].
        -- rewrite Forall_forall in Hfresh. destruct (Hfresh p Hp) as (_ & _ & _ & He).
           rewrite He in Hend. discriminate Hend.
        -- discriminate Hend.
        -- exists cp. split; [simpl; rewrite laid_snoc; simpl; rewrite !elem_of_app; right; right; right; left|].
           destruct Hbanked as [Hb|[_ Hb]]; rewrite Hb in Hp;
             [apply elem_of_nil in Hp; destruct Hp|].
           apply list_elem_of_singleton in Hp as ->.
           split; [reflexivity|]. split; [reflexivity|].
           unfold leftover. simpl. lia.
    + unfold bump. simpl. lia.
    + unfold bump. simpl. lia.
    + reflexivity.
Qed.

(** *** Ids, offcuts and the planks of the user *)

Lemma submseteq_NoDup_any {A : Type} (l k : list A) : l ⊆+ k -> NoDup k -> NoDup l.
Proof.
  intros Hsub Hk. apply submseteq_sublist_l in Hsub as (l2 & Hsl & Hperm).
  eapply sublist_NoDup; [|exact Hsl]. rewrite Hperm. exact Hk.
Qed.

Lemma renumber_from_spec (ps : list Plank.t) :
  forall g,
    map Plank.id (Room.renumber_from ps g).1
    = map (fun k => Plank.NEXT g + Z.of_nat k) (seq 0 (length ps))
    /\ map bare (Room.renumber_from ps g).1 = map bare ps
    /\ (Room.renumber_from ps g).2
       = Plank.Statics (Plank.NEXT g + Z.of_nat (length ps)) (Plank.UID g).
Proof.
  induction ps as [|p ps IH]; intros g.
  - simpl. rewrite Z.add_0_r. destruct g; auto.
  - cbn [Room.renumber_from].
    specialize (IH (Plank.Statics (Plank.NEXT g + 1) (Plank.UID g))).
    destruct (Room.renumber_from ps _) as [qs g']. cbn [fst snd] in *.
    destruct IH as (IH1 & IH2 & ->). cbn [length seq map]. rewrite IH1, IH2.
    cbn [Plank.NEXT Plank.UID]. split; [|split].
    + f_equal; [simpl; lia|]. rewrite <- fmap_S_seq, <- list_fmap_compose.
      apply list_fmap_ext. intros i k _. simpl. lia.
    + reflexivity.
    + f_equal. lia.
Qed.

Lemma enterLoop_pool (r : Room.t) (g : Plank.statics) :
  let olds := filter (fun p => Plank.permanent p = true) (all_planks r) in
  planks_of (Room.enterLoop r g)
  = (Room.renumber_from olds (Plank.Statics 1 (Plank.UID g))).1
  /\ Room.statics (Room.enterLoop r g)
     = Plank.Statics (1 + Z.of_nat (length olds)) (Plank.UID g).
Proof.
  unfold planks_of, Room.enterLoop, Room.collectPermanentPartials, all_planks, laid.
  rewrite filter_app.
  pose proof (renumber_from_spec
                (filter (fun p => Plank.permanent p = true) (Room.partials r)
                 ++ filter (fun p => Plank.permanent p = true)
                      (concat (map Column.planks (Room.columns r))))
                (Plank.Statics 1 (Plank.UID g))) as (_ & _ & Hg).
  destruct (Room.renumber_from _ _) as [ps g1]. simpl in *. rewrite app_nil_r.
  split; [reflexivity|exact Hg].
Qed.

Lemma numbered_body (fuel : nat) (s s' : Room.frame) :
  numbered s -> Room.body fuel s = Some s' -> numbered s'.
Proof.
  intros (Hnd & Hids & Hone) Hbody.
  apply body_planks in Hbody
    as (new & more & Hsub & _ & _ & (Hnew & _ & Hnewtags & _) & Hnext & _ & _).
  rewrite Forall_forall in Hids, Hnew. split; [|split; [|lia]].
  - eapply submseteq_NoDup_any; [apply (Hsub _ tag); reflexivity|].
    rewrite map_app. apply NoDup_app. split; [exact Hnd|]. split; [|exact Hnewtags].
    intros t Ht Ht'. apply list_elem_of_fmap in Ht as (p & -> & Hp).
    apply list_elem_of_fmap in Ht' as (q & Hq & Hq').
    specialize (Hids p Hp). destruct (Hnew q Hq') as (_ & Hqid & _).
    unfold tag in Hq. injection Hq as Hq _. lia.
  - apply Forall_forall. intros p Hp.
    assert (Hin : Plank.id p ∈ map Plank.id (planks_of s ++ new)).
    { eapply elem_of_submseteq; [|apply (Hsub _ Plank.id); reflexivity].
      apply list_elem_of_fmap. eauto. }
    apply list_elem_of_fmap in Hin as (q & -> & Hq).
    apply elem_of_app in Hq as [Hq|Hq].
    + specialize (Hids q Hq). lia.
    + destruct (Hnew q Hq) as (_ & Hqid & _). lia.
Qed.

Lemma numbered_enter (r : Room.t) (g : Plank.statics) : numbered (Room.enterLoop r g).
Proof.
  destruct (enterLoop_pool r g) as [Hpool Hg]. unfold numbered. rewrite Hpool, Hg.
  set (olds := filter _ _).
  destruct (renumber_from_spec olds (Plank.Statics 1 (Plank.UID g))) as (Hids & _ & _).
  simpl in Hids. split; [|split].
  - apply (NoDup_fmap_1 fst). rewrite <- list_fmap_compose.
    change (fst ∘ tag) with Plank.id. unfold fmap, list_fmap. fold (map Plank.id).
    rewrite Hids. apply (NoDup_shifted (fun x => x)). auto.
  - apply Forall_forall. intros p Hp.
    assert (Hin : Plank.id p ∈ map Plank.id (Room.renumber_from olds
                                              (Plank.Statics 1 (Plank.UID g))).1)
      by (apply list_elem_of_fmap; eauto).
    rewrite Hids in Hin. apply list_elem_of_fmap in Hin as (k & -> & Hk).
    apply elem_of_seq in Hk. simpl. lia.
  - simpl. lia.
Qed.

Lemma paired_body (fuel : nat) (s s' : Room.frame) :
  paired s -> Room.body fuel s = Some s' -> paired s'.
Proof.
  intros Hpaired Hbody.
  apply body_planks in Hbody
    as (new & more & Hsub & _ & Hmore & (_ & _ & _ & Hnew) & _ & _ & Hrel).
  destruct (relaid_params _ _ Hrel) as (Hpl & _ & _ & Hct & _).
  intros p Hp Hend Hperm. rewrite Hpl, Hct.
  set (f := fun p : Plank.t => (Plank.id p, Plank.cut_end p, Plank.permanent p, Plank.length p)).
  assert (Hin : f p ∈ map f (planks_of s ++ new)).
  { eapply elem_of_submseteq; [|apply (Hsub _ f); reflexivity].
    apply list_elem_of_fmap. eauto. }
  apply list_elem_of_fmap in Hin as (p0 & Hf & Hp0).
  unfold f in Hf. injection Hf as Hid He Hpm Hlen.
  rewrite Hid, Hlen. apply elem_of_app in Hp0 as [Hp0|Hp0].
  - destruct (Hpaired p0 Hp0) as (q & Hq & Hq'); [congruence|congruence|].
    exists q. split; [|exact Hq']. rewrite Hmore. apply elem_of_app. auto.
  - apply Hnew; [exact Hp0|congruence].
Qed.

Lemma paired_enter (r : Room.t) (g : Plank.statics) : paired (Room.enterLoop r g).
Proof.
  destruct (enterLoop_pool r g) as [Hpool _]. intros p Hp _ Hperm. exfalso.
  rewrite Hpool in Hp.
  destruct (renumber_from_spec (filter (fun p => Plank.permanent p = true) (all_planks r))
              (Plank.Statics 1 (Plank.UID g))) as (_ & Hbare & _).
  assert (Hin : bare p ∈ map bare (filter (fun p => Plank.permanent p = true) (all_planks r))).
  { rewrite <- Hbare. apply list_elem_of_fmap. eauto. }
  apply list_elem_of_fmap in Hin as (p0 & Hb & Hp0).
  apply list_elem_of_filter in Hp0 as [Hp0 _].
  assert (Plank.permanent (bare p) = Plank.permanent (bare p0)) as H by (rewrite Hb; reflexivity).
  simpl in H. congruence.
Qed.

Lemma keeps_body (olds : list Plank.t) (g : Plank.statics) (fuel : nat)
    (s s' : Room.frame) :
  keeps olds g s -> Room.body fuel s = Some s' -> keeps olds g s'.
Proof.
  intros (Hold & Hall & Hg) Hbody.
  apply body_planks in Hbody
    as (new & more & Hsub & Hkeep & _ & (Hnew & _) & _ & Huid & _).
  rewrite Forall_forall in Hnew. split; [|split; [|lia]].
  - intros p Hp Hend. destruct (Hold p Hp Hend) as (p1 & Hp1 & Hb).
    assert (Hend1 : Plank.cut_end p1 <> "<"%string).
    { assert (Plank.cut_end (bare p1) = Plank.cut_end (bare p)) as H
        by (rewrite Hb; reflexivity). simpl in H. congruence. }
    destruct (Hkeep p1 Hp1 Hend1) as [H|H]; [eauto|].
    exists (placed s p1). split; [exact H|]. rewrite <- Hb. reflexivity.
  - intros p' Hp'.
    assert (Hin : bare p' ∈ map bare (planks_of s ++ new)).
    { eapply elem_of_submseteq; [|apply (Hsub _ bare); reflexivity].
      apply list_elem_of_fmap. eauto. }
    apply list_elem_of_fmap in Hin as (p0 & Hb & Hp0).
    assert (Hu : Plank.uid p' = Plank.uid p0 /\ Plank.permanent p' = Plank.permanent p0).
    { assert (Plank.uid (bare p') = Plank.uid (bare p0)
              /\ Plank.permanent (bare p') = Plank.permanent (bare p0)) as H
        by (rewrite Hb; auto). exact H. }
    destruct Hu as [Hu Hpm]. apply elem_of_app in Hp0 as [Hp0|Hp0].
    + destruct (Hall p0 Hp0) as [(p & Hp & Hbp)|[Hr Hf]].
      * left. exists p. split; [exact Hp|]. congruence.
      * right. split; [lia|congruence].
    + right. destruct (Hnew p0 Hp0) as (Hr & _ & Hf). split; [lia|congruence].
Qed.

Lemma keeps_enter (r : Room.t) (g : Plank.statics) :
  keeps (filter (fun p => Plank.permanent p = true) (all_planks r)) g (Room.enterLoop r g).
Proof.
  destruct (enterLoop_pool r g) as [Hpool Hg].
  destruct (renumber_from_spec (filter (fun p => Plank.permanent p = true) (all_planks r))
              (Plank.Statics 1 (Plank.UID g))) as (_ & Hbare & _).
  unfold keeps. rewrite Hpool, Hg. split; [|split; [|simpl; lia]].
  - intros p Hp _.
    assert (Hin : bare p ∈ map bare (Room.renumber_from
                     (filter (fun p => Plank.permanent p = true) (all_planks r))
                     (Plank.Statics 1 (Plank.UID g))).1)
      by (rewrite Hbare; apply list_elem_of_fmap; eauto).
    apply list_elem_of_fmap in Hin as (p' & Hb & Hp'). eauto.
  - intros p' Hp'. left.
    assert (Hin : bare p' ∈ map bare (filter (fun p => Plank.permanent p = true)
                                       (all_planks r)))
      by (rewrite <- Hbare; apply list_elem_of_fmap; eauto).
    apply list_elem_of_fmap in Hin as (p & Hb & Hp). eauto.
Qed.

(** *** clearPartials and removePartial *)


Lemma splicePermanent_filter (planks : list Plank.t) :
  Room.splicePermanent planks = filter (fun p => Plank.permanent p = false) planks.
Proof.
  induction planks as [|p ps IH]; [reflexivity|]. simpl. rewrite filter_cons.
  destruct (decide (Plank.permanent p = false)) as [E|E].
  - rewrite E, IH. reflexivity.
  - destruct (Plank.permanent p); [exact IH|congruence].
Qed.

Lemma laid_clear (cols : list Column.t) :
  laid (map (fun col => Column.set_planks (Room.splicePermanent (Column.planks col)) col) cols)
  = filter (fun p => Plank.permanent p = false) (laid cols).
Proof.
  unfold laid. induction cols as [|c cols IH]; [reflexivity|].
  simpl. rewrite filter_app, IH, splicePermanent_filter. reflexivity.
Qed.

Lemma filter_none {A : Type} (P : A -> Prop) `{forall x, Decision (P x)} (l : list A) :
  Forall (fun x => ~ P x) l -> filter P l = [].
Proof.
  induction 1 as [|x l Hx _ IH]; [reflexivity|].
  rewrite filter_cons, decide_False by exact Hx. exact IH.
Qed.

Lemma clear_no_permanent (r : Room.t) :
  filter (fun p => Plank.permanent p = true) (all_planks (Room.clearPartials r)) = [].
Proof.
  unfold all_planks. change (Room.partials (Room.clearPartials r)) with (@nil Plank.t).
  change (Room.columns (Room.clearPartials r))
    with (map (fun col => Column.set_planks (Room.splicePermanent (Column.planks col)) col)
              (Room.columns r)).
  rewrite laid_clear. simpl. apply filter_none, Forall_forall.
  intros p Hp. apply list_elem_of_filter in Hp as [Hp _]. congruence.
Qed.

Lemma removeFromColumns_spec (uid : Z) (cols : list Column.t) :
  match Room.removeFromColumns uid cols with
  | Some (plank, cols') =>
      Plank.uid plank = uid
      /\ exists front c back i,
           cols = front ++ c :: back
           /\ cols' = front ++ Column.set_planks (delete i (Column.planks c)) c :: back
           /\ Column.planks c !! i = Some plank
           /\ (forall j q, (j < i)%nat -> Column.planks c !! j = Some q -> Plank.uid q <> uid)
           /\ Forall (fun q => Plank.uid q <> uid) (laid front)
  | None => Forall (fun q => Plank.uid q <> uid) (laid cols)
  end.
Proof.
  induction cols as [|c cols IH]; simpl; [constructor|].
  destruct (list_find _ (Column.planks c)) as [[i plank]|] eqn:Hfind.
  - apply list_find_Some in Hfind as (Hi & Hu & Hfirst).
    split; [exact Hu|]. exists [], c, cols, i. simpl.
    split; [reflexivity|]. split; [reflexivity|]. split; [exact Hi|].
    split; [|constructor]. intros j q Hj Hq. eapply Hfirst; eassumption.
  - apply list_find_None in Hfind.
    destruct (Room.removeFromColumns uid cols) as [[plank cols']|].
    + destruct IH as (Hu & front & c0 & back & i & -> & -> & Hi & Hfirst & Hfront).
      split; [exact Hu|]. exists (c :: front), c0, back, i.
      split; [reflexivity|]. split; [reflexivity|]. split; [exact Hi|].
      split; [exact Hfirst|]. unfold laid. simpl. apply Forall_app. auto.
    + unfold laid. simpl. apply Forall_app. auto.
Qed.

Lemma laid_middle (front back : list Column.t) (c : Column.t) :
  laid (front ++ c :: back) = laid front ++ Column.planks c ++ laid back.
Proof. rewrite laid_app. reflexivity. Qed.

(** *** cuttingSchedule *)

Lemma listed_step (cuts : gmap Z (gmap string string)) (p : Plank.t) (i : Z) (e : string) :
  listed (Room.schedule_step cuts p) i e
  = if decide (cut_of i e p) then Some (Room.cut_text p) else listed cuts i e.
Proof.
  unfold Room.schedule_step, listed, cut_of.
  destruct (bool_decide (Plank.cut_end p <> ""%string)) eqn:Hcut.
  - apply bool_decide_eq_true in Hcut.
    destruct (decide (Plank.id p = i)) as [<-|Hi].
    + rewrite lookup_insert_eq. simpl.
      destruct (decide (Plank.cut_end p = e)) as [<-|He].
      * rewrite lookup_insert_eq. rewrite decide_True by auto. reflexivity.
      * rewrite lookup_insert_ne by exact He. rewrite decide_False by tauto.
        destruct (cuts !! Plank.id p); reflexivity.
    + rewrite lookup_insert_ne by exact Hi. rewrite decide_False by tauto. reflexivity.
  - apply bool_decide_eq_false in Hcut. rewrite decide_False; [reflexivity|].
    intros (_ & <- & He). auto.
Qed.

Lemma listed_fold (ps : list Plank.t) (i : Z) (e : string) :
  forall cuts,
    listed (foldl Room.schedule_step cuts ps) i e
    = match last (filter (cut_of i e) ps) with
      | Some p => Some (Room.cut_text p)
      | None => listed cuts i e
      end.
Proof.
  induction ps as [|p ps IH]; intros cuts; [reflexivity|].
  simpl. rewrite IH, listed_step, filter_cons.
  destruct (decide (cut_of i e p)) as [Hp|Hp]; [|reflexivity].
  rewrite last_cons. destruct (last (filter (cut_of i e) ps)); reflexivity.
Qed.

Lemma schedule_dom (ps : list Plank.t) (i : Z) :
  forall cuts,
    is_Some (foldl Room.schedule_step cuts ps !! i)
    <-> is_Some (cuts !! i)
        \/ exists p, p ∈ ps /\ Plank.id p = i /\ Plank.cut_end p <> ""%string.
Proof.
  induction ps as [|p ps IH]; intros cuts.
  - simpl. split; [auto|]. intros [H|(p & Hp & _)]; [exact H|].
    apply elem_of_nil in Hp. destruct Hp.
  - simpl. rewrite IH. unfold Room.schedule_step.
    destruct (bool_decide (Plank.cut_end p <> ""%string)) eqn:Hcut.
    + apply bool_decide_eq_true in Hcut. split.
      * intros [H|(q & Hq & Hq')].
        -- destruct (decide (Plank.id p = i)) as [Hi|Hi].
           ++ right. exists p. split; [left|auto].
           ++ rewrite lookup_insert_ne in H by exact Hi. auto.
        -- right. exists q. split; [right; exact Hq|exact Hq'].
      * intros [H|(q & Hq & Hq')].
        -- left. destruct (decide (Plank.id p = i)) as [<-|Hi].
           ++ rewrite lookup_insert_eq. eauto.
           ++ rewrite lookup_insert_ne by exact Hi. exact H.
        -- apply elem_of_cons in Hq as [->|Hq].
           ++ left. destruct Hq' as [<- _]. rewrite lookup_insert_eq. eauto.
           ++ right. eauto.
    + apply bool_decide_eq_false in Hcut. split.
      * intros [H|(q & Hq & Hq')]; [auto|]. right. exists q. split; [right; exact Hq|exact Hq'].
      * intros [H|(q & Hq & Hq')]; [auto|].
        apply elem_of_cons in Hq as [->|Hq]; [destruct Hq' as [_ Hq']; tauto|].
        right. eauto.
Qed.

Lemma filter_unique {A B : Type} `{EqDecision B} (f : A -> B) (l : list A) (p : A) :
  NoDup (map f l) -> p ∈ l -> filter (fun q => f q = f p) l = [p].
Proof.
  induction l as [|x l IH]; intros Hnd Hp; [apply elem_of_nil in Hp; destruct Hp|].
  simpl in Hnd. apply NoDup_cons in Hnd as [Hx Hnd]. rewrite filter_cons.
  apply elem_of_cons in Hp as [->|Hp].
  - rewrite decide_True by reflexivity. f_equal. apply filter_none, Forall_forall.
    intros q Hq Heq. apply Hx. rewrite <- Heq. apply list_elem_of_fmap. eauto.
  - rewrite decide_False; [apply IH; assumption|].
    intros Heq. apply Hx. rewrite Heq. apply list_elem_of_fmap. eauto.
Qed.

(** *** Saving and loading *)





(** *** Shuffle: positions and heights *)

Lemma lineUpPlanks_twice (c : Column.t) :
  Column.lineUpPlanks (Column.lineUpPlanks c) = Column.lineUpPlanks c.
Proof.
  unfold Column.lineUpPlanks, Column.set_planks. simpl. f_equal.
  rewrite map_map. apply map_ext. intros p. reflexivity.
Qed.

Lemma swapLefts_lookup (cols : list Column.t) (a b j : nat) (ca cb : Column.t) :
  cols !! a = Some ca -> cols !! b = Some cb ->
  Room.swapLefts cols a b !! j
  = if decide (b = j)
    then Some (Column.lineUpPlanks (Column.set_left (Column.left ca) cb))
    else if decide (a = j)
         then Some (Column.lineUpPlanks (Column.set_left (Column.left cb) ca))
         else cols !! j.
Proof.
  intros Ha Hb. unfold Room.swapLefts. rewrite Ha, Hb.
  destruct (decide (a = b)) as [->|Hab].
  - rewrite Ha in Hb. injection Hb as <-.
    destruct (decide (b = j)) as [<-|Hbj].
    + rewrite !list_lookup_alter_eq, Ha. simpl. rewrite lineUpPlanks_twice.
      destruct ca; reflexivity.
    + rewrite !list_lookup_alter_ne by exact Hbj. reflexivity.
  - destruct (decide (b = j)) as [<-|Hbj].
    + rewrite list_lookup_alter_eq, list_lookup_alter_ne by exact Hab.
      rewrite list_lookup_alter_eq, list_lookup_alter_ne by exact Hab.
      rewrite Hb. reflexivity.
    + rewrite list_lookup_alter_ne by exact Hbj.
      destruct (decide (a = j)) as [<-|Haj].
      * rewrite list_lookup_alter_eq, list_lookup_alter_ne by auto.
        rewrite list_lookup_alter_eq, Ha. reflexivity.
      * rewrite !list_lookup_alter_ne by assumption. reflexivity.
Qed.

Lemma length_swapLefts (cols : list Column.t) (a b : nat) :
  length (Room.swapLefts cols a b) = length cols.
Proof.
  unfold Room.swapLefts. destruct (cols !! a); [|reflexivity].
  destruct (cols !! b); [|reflexivity]. rewrite !length_alter. reflexivity.
Qed.

Lemma swapLefts_spots (cols : list Column.t) (a b : nat) (ca cb : Column.t) :
  cols !! a = Some ca -> cols !! b = Some cb -> Column.height ca = Column.height cb ->
  map spot (Room.swapLefts cols a b) ≡ₚ map spot cols.
Proof.
  intros Ha Hb Hh.
  assert (Heq : map spot (Room.swapLefts cols a b)
                = <[b := spot ca]> (<[a := spot cb]> (map spot cols))).
  { apply list_eq. intros j. rewrite list_lookup_fmap, (swapLefts_lookup _ _ _ _ _ _ Ha Hb).
    assert (Hla : (a < length (map spot cols))%nat)
      by (rewrite length_map; eapply lookup_lt_Some; exact Ha).
    assert (Hlb : (b < length (map spot cols))%nat)
      by (rewrite length_map; eapply lookup_lt_Some; exact Hb).
    destruct (decide (b = j)) as [<-|Hbj].
    - rewrite list_lookup_insert_eq by (rewrite length_insert; exact Hlb).
      simpl. unfold spot, Column.height in *. simpl. rewrite Hh. reflexivity.
    - rewrite list_lookup_insert_ne by exact Hbj.
      destruct (decide (a = j)) as [<-|Haj].
      + rewrite list_lookup_insert_eq by exact Hla.
        simpl. unfold spot, Column.height in *. simpl. rewrite Hh. reflexivity.
      + rewrite list_lookup_insert_ne by exact Haj. rewrite list_lookup_fmap. reflexivity. }
  rewrite Heq. apply Permutation_insert_swap; rewrite list_lookup_fmap.
  - rewrite Ha. reflexivity.
  - rewrite Hb. reflexivity.
Qed.

Lemma lineUpPlanks_lined_up (c : Column.t) : lined_up (Column.lineUpPlanks c).
Proof.
  unfold lined_up, Column.lineUpPlanks. simpl. apply Forall_fmap, Forall_forall.
  intros p _. reflexivity.
Qed.

Lemma swapLefts_lined_up (cols : list Column.t) (a b : nat) :
  Forall lined_up cols -> Forall lined_up (Room.swapLefts cols a b).
Proof.
  intros Hall. destruct (cols !! a) as [ca|] eqn:Ha;
    [|unfold Room.swapLefts; rewrite Ha; exact Hall].
  destruct (cols !! b) as [cb|] eqn:Hb;
    [|unfold Room.swapLefts; rewrite Ha, Hb; exact Hall].
  apply Forall_lookup. intros j c Hj.
  rewrite (swapLefts_lookup _ _ _ _ _ _ Ha Hb) in Hj.
  destruct (decide (b = j)); [injection Hj as <-; apply lineUpPlanks_lined_up|].
  destruct (decide (a = j)); [injection Hj as <-; apply lineUpPlanks_lined_up|].
  rewrite Forall_lookup in Hall. eapply Hall. exact Hj.
Qed.

Lemma heights_unplaced (cols cols' : list Column.t) :
  map unplaced cols' = map unplaced cols -> heights cols' = heights cols.
Proof.
  intros H. unfold heights.
  assert (Hh : forall l, map Column.height l = map Column.height (map unplaced l))
    by (intros l; rewrite map_map; reflexivity).
  rewrite (Hh cols'), (Hh cols), H. reflexivity.
Qed.

Lemma shuffleBin_spots (bin : list nat) (k : Z) (hs : list Z) (count : nat) :
  (forall i, i ∈ bin -> hs !! i = Some k) ->
  forall i cols rnd cols' rnd',
    heights cols = hs ->
    Room.shuffleBin bin i count cols rnd = Some (cols', rnd') ->
    map spot cols' ≡ₚ map spot cols
    /\ (Forall lined_up cols -> Forall lined_up cols').
Proof.
  intros Hbin. induction count as [|count IH]; intros i cols rnd cols' rnd' Hhs Hrun;
    simpl in Hrun.
  - injection Hrun as <- <-. auto.
  - destruct (Room.pickPartner _ _ rnd) as [[to rnd1]|]; [|discriminate].
    destruct (bin !! _) as [a|] eqn:Ha; [|discriminate].
    destruct (bin !! to) as [b|] eqn:Hb; [|discriminate].
    pose proof (Hbin a (list_elem_of_lookup_2 _ _ _ Ha)) as Hka.
    pose proof (Hbin b (list_elem_of_lookup_2 _ _ _ Hb)) as Hkb.
    rewrite <- Hhs in Hka, Hkb. unfold heights in Hka, Hkb.
    rewrite list_lookup_fmap in Hka, Hkb.
    destruct (cols !! a) as [ca|] eqn:Hca; [|discriminate Hka].
    destruct (cols !! b) as [cb|] eqn:Hcb; [|discriminate Hkb].
    injection Hka as Hka. injection Hkb as Hkb.
    apply IH in Hrun as [Hperm Hl].
    + split.
      * rewrite Hperm. eapply swapLefts_spots; [eassumption|eassumption|congruence].
      * intros Hlined. apply Hl, swapLefts_lined_up, Hlined.
    + rewrite <- Hhs. apply heights_unplaced, unplaced_swapLefts.
Qed.

Lemma bins_get_elem (bins : list (Z * list nat)) (key : Z) (i : nat) :
  i ∈ Room.bins_get bins key -> exists bin, (key, bin) ∈ bins /\ i ∈ bin.
Proof.
  induction bins as [|[k bin] bins IH]; simpl; intros Hi.
  - apply elem_of_nil in Hi. destruct Hi.
  - destruct (k =? key) eqn:Hk.
    + apply Z.eqb_eq in Hk as ->. exists bin. split; [left|exact Hi].
    + destruct (IH Hi) as (bin' & Hin & Hi'). exists bin'. split; [right; exact Hin|exact Hi'].
Qed.

Lemma shuffleBins_spots (bins : list (Z * list nat)) (hs : list Z) (keys : list Z) :
  bins_ok hs bins ->
  forall cols rnd cols' rnd',
    heights cols = hs ->
    Room.shuffleBins bins keys cols rnd = Some (cols', rnd') ->
    map spot cols' ≡ₚ map spot cols
    /\ (Forall lined_up cols -> Forall lined_up cols').
Proof.
  intros Hbins. induction keys as [|key keys IH]; intros cols rnd cols' rnd' Hhs Hrun;
    simpl in Hrun.
  - injection Hrun as <- <-. auto.
  - destruct (bool_decide _).
    + destruct (Room.shuffleBin _ _ _ _ _) as [[cols1 rnd1]|] eqn:Hbin; [|discriminate].
      pose proof (unplaced_shuffleBin _ _ _ _ _ _ _ Hbin) as Hsame.
      eapply (shuffleBin_spots _ key hs) in Hbin as [Hperm1 Hl1];
        [|intros i Hi; apply bins_get_elem in Hi as (bin & Hin & Hi); eapply Hbins; eassumption
         |exact Hhs].
      apply IH in Hrun as [Hperm Hl]; [|rewrite <- Hhs; apply heights_unplaced, Hsame].
      split; [rewrite Hperm; exact Hperm1|auto].
    + eapply IH; eassumption.
Qed.

Lemma bins_push_ok (hs : list Z) (bins : list (Z * list nat)) (k : Z) (i : nat) :
  bins_ok hs bins -> hs !! i = Some k -> bins_ok hs (Room.bins_push k i bins).
Proof.
  intros Hok Hi. induction bins as [|[k0 bin0] bins IH]; simpl.
  - intros k' bin' j Hin Hj. apply list_elem_of_singleton in Hin. injection Hin as -> ->.
    apply list_elem_of_singleton in Hj as ->. exact Hi.
  - assert (Hrest : bins_ok hs bins).
    { intros k' bin' j Hin Hj. eapply Hok; [right; exact Hin|exact Hj]. }
    destruct (k0 =? k) eqn:Hk.
    + apply Z.eqb_eq in Hk as ->. intros k' bin' j Hin Hj.
      apply elem_of_cons in Hin as [Hin|Hin].
      * injection Hin as -> ->. apply elem_of_app in Hj as [Hj|Hj].
        -- eapply Hok; [left|exact Hj].
        -- apply list_elem_of_singleton in Hj as ->. exact Hi.
      * eapply Hrest; eassumption.
    + intros k' bin' j Hin Hj. apply elem_of_cons in Hin as [Hin|Hin].
      * injection Hin as -> ->. eapply Hok; [left|exact Hj].
      * eapply (IH Hrest); eassumption.
Qed.

Lemma collectBins_ok (start_top : Z) (hs : list Z) (cols : list Column.t) :
  forall i bins,
    (forall j c, cols !! j = Some c -> hs !! (i + j)%nat = Some (Column.height c)) ->
    bins_ok hs bins -> bins_ok hs (Room.collectBins start_top cols i bins).
Proof.
  induction cols as [|c cols IH]; intros i bins Hcols Hok; simpl; [exact Hok|].
  apply IH.
  - intros j c' Hj. replace (S i + j)%nat with (i + S j)%nat by lia. apply Hcols. exact Hj.
  - destruct (negb _ && _); [exact Hok|]. apply bins_push_ok; [exact Hok|].
    rewrite <- (Nat.add_0_r i). apply Hcols. reflexivity.
Qed.

Lemma spot_rename (f : Z -> Z) (c : Column.t) : spot (rename f c) = spot c.
Proof. reflexivity. Qed.

Lemma lined_up_rename (f : Z -> Z) (c : Column.t) : lined_up c -> lined_up (rename f c).
Proof.
  unfold lined_up, rename. simpl. intros H. apply Forall_fmap.
  eapply Forall_impl; [exact H|]. simpl. auto.
Qed.

Lemma bins_push_without_first (bins : list (Z * list nat)) (k : Z) (i : nat) :
  i <> 0%nat -> without_first bins -> without_first (Room.bins_push k i bins).
Proof.
  intros Hi. induction bins as [|[k0 bin0] bins IH]; intros Hok; simpl.
  - intros k' bin' Hin. apply list_elem_of_singleton in Hin. injection Hin as -> ->.
    rewrite list_elem_of_singleton. auto.
  - assert (Hrest : without_first bins) by (intros k' bin' Hin; apply (Hok k'); right; exact Hin).
    destruct (k0 =? k).
    + intros k' bin' Hin. apply elem_of_cons in Hin as [Hin|Hin].
      * injection Hin as -> ->. rewrite elem_of_app, list_elem_of_singleton.
        intros [H|H]; [|auto]. revert H. apply (Hok k0). left.
      * apply (Hrest k'). exact Hin.
    + intros k' bin' Hin. apply elem_of_cons in Hin as [Hin|Hin].
      * injection Hin as -> ->. apply (Hok k0). left.
      * apply (IH Hrest k'). exact Hin.
Qed.

Lemma collectBins_without_first (start_top : Z) (cols : list Column.t) :
  start_top <> 0 ->
  forall i bins, without_first bins -> without_first (Room.collectBins start_top cols i bins).
Proof.
  intros Hst. induction cols as [|c cols IH]; intros i bins Hok; simpl; [exact Hok|].
  apply IH. apply Z.eqb_neq in Hst. rewrite Hst. simpl.
  destruct (bool_decide (i = 0%nat)) eqn:Hi; [exact Hok|].
  apply bool_decide_eq_false in Hi. apply bins_push_without_first; assumption.
Qed.

Lemma swapLefts_elsewhere (cols : list Column.t) (a b j : nat) :
  a <> j -> b <> j -> Room.swapLefts cols a b !! j = cols !! j.
Proof.
  intros Ha Hb. unfold Room.swapLefts.
  destruct (cols !! a); [|reflexivity]. destruct (cols !! b); [|reflexivity].
  rewrite !list_lookup_alter_ne by assumption. reflexivity.
Qed.

Lemma shuffleBin_first (bin : list nat) (count : nat) :
  0%nat ∉ bin ->
  forall i cols rnd cols' rnd',
    Room.shuffleBin bin i count cols rnd = Some (cols', rnd') -> cols' !! 0%nat = cols !! 0%nat.
Proof.
  intros Hbin. induction count as [|count IH]; intros i cols rnd cols' rnd' Hrun; simpl in Hrun.
  - injection Hrun as <- <-. reflexivity.
  - destruct (Room.pickPartner _ _ rnd) as [[to rnd1]|]; [|discriminate].
    destruct (bin !! _) as [a|] eqn:Ha; [|discriminate].
    destruct (bin !! to) as [b|] eqn:Hb; [|discriminate].
    rewrite (IH _ _ _ _ _ Hrun). apply swapLefts_elsewhere.
    + intros ->. apply Hbin. eapply list_elem_of_lookup_2. exact Ha.
    + intros ->. apply Hbin. eapply list_elem_of_lookup_2. exact Hb.
Qed.

Lemma shuffleBins_first (bins : list (Z * list nat)) (keys : list Z) :
  without_first bins ->
  forall cols rnd cols' rnd',
    Room.shuffleBins bins keys cols rnd = Some (cols', rnd') -> cols' !! 0%nat = cols !! 0%nat.
Proof.
  intros Hbins. induction keys as [|key keys IH]; intros cols rnd cols' rnd' Hrun;
    simpl in Hrun.
  - injection Hrun as <- <-. reflexivity.
  - destruct (bool_decide _).
    + destruct (Room.shuffleBin _ _ _ _ _) as [[cols1 rnd1]|] eqn:Hbin; [|discriminate].
      rewrite (IH _ _ _ _ Hrun). eapply shuffleBin_first; [|exact Hbin].
      intros H0. apply bins_get_elem in H0 as (bin & Hin & H0). exact (Hbins _ _ Hin H0).
    + eapply IH. exact Hrun.
Qed.

Lemma sort_by_left_head (c0 : Column.t) (rest : list Column.t) :
  Forall (fun c => Column.left c0 < Column.left c) rest ->
  exists tail, Room.sort_by_left (c0 :: rest) = c0 :: tail.
Proof.
  intros Hrest. unfold Room.sort_by_left. simpl. fold (Room.sort_by_left rest).
  rewrite <- (sort_by_left_perm rest) in Hrest.
  destruct (Room.sort_by_left rest) as [|d tail]; simpl; [eauto|].
  apply Forall_cons in Hrest as [Hd _].
  destruct (Column.left c0 <=? Column.left d) eqn:Hle; [eauto|].
  apply Z.leb_gt in Hle. lia.
Qed.

(** *** The boards bought are accounted for *)



















(** ** Small rooms *)

Lemma small_spec (z : Z) :
  small z = true -> -1125899906842624 <= z <= 1125899906842624.
Proof.
  unfold small. rewrite andb_true_iff, !Z.leb_le. auto.
Qed.

Lemma small_room_spec (r : Room.t) :
  small_room r = true ->
  small (Room.leftmost r) = true /\ small (Room.rightmost r) = true
  /\ small (Room.START_LEFT r) = true /\ small (Room.PLANK_WIDTH r) = true
  /\ small (Room.PLANK_LENGTH r) = true /\ small (Room.CUT_THICKNESS r) = true.
Proof.
  unfold small_room. rewrite !andb_true_iff. tauto.
Qed.

(** A turn leaves the position or moves it on by [PLANK_WIDTH]. *)
Lemma body_moves (fuel : nat) (s s' : Room.frame) :
  Room.body fuel s = Some s' ->
  (Room.l s' = Room.l s \/ Room.l s' = Room.l s + Room.PLANK_WIDTH (Room.self s))
  /\ Room.rightmost (Room.self s') = Room.rightmost (Room.self s)
  /\ Room.PLANK_WIDTH (Room.self s') = Room.PLANK_WIDTH (Room.self s).
Proof.
  intros Hbody.
  apply turn_shape in Hbody as (sp & pool1 & n & _ & _ & _ & Hend).
  destruct Hend as [(_ & _ & ->)|[(_ & ->)|(_ & _ & ->)]]; simpl; auto.
Qed.

(** Every position the loop tries lies between its first position and
    [rightmost]. *)
Lemma attempts_range (fuel inner : nat) :
  forall s,
    0 <= Room.PLANK_WIDTH (Room.self s) ->
    Forall (fun a => Room.l s <= a.1 < Room.rightmost (Room.self s))
      (Room.attempts fuel inner s).
Proof.
  induction fuel as [|fuel IH]; intros s Hpw; simpl;
    destruct (Room.l s <? Room.rightmost (Room.self s)) eqn:Hin; try constructor.
  - simpl. apply Z.ltb_lt in Hin. lia.
  - destruct (Room.body inner s) as [s'|] eqn:Hbody; [|constructor].
    destruct (body_moves _ _ _ Hbody) as (Hl & Hright & Hw).
    eapply Forall_impl; [apply IH; rewrite Hw; exact Hpw|].
    intros a Ha. simpl in Ha. rewrite Hright in Ha. destruct Hl as [Hl|Hl]; lia.
Qed.

(** * The claims *)

(** Runs the layout of a concrete room with fuel [n]: the goal is
    [exists x, (forall fuel, n <= fuel -> ... = Some x) /\ P x]; any larger
    fuel gives the same [x], and [P] is left to prove on the value of [x]. *)
Ltac run_layout n room :=
  let H := fresh "Hrun" in
  let x := fresh "x" in
  destruct (Room.recomputeFloor n (Room.measure room) fresh_statics) as [x|] eqn:H;
  [|vm_compute in H; discriminate H];
  exists x; split;
  [ let fuel := fresh "fuel" in
    let Hfuel := fresh "Hfuel" in
    intros fuel Hfuel; exact (proj1 (recomputeFloor_more _ fuel _ _ _ H Hfuel))
  | vm_compute in H; injection H as <-; vm_compute ].

(** C10, as stated, fails: a room with [PLANK_WIDTH > 0] whose planks have
    length 0 never gets out of the full-plank loop of its first column,
    whatever the fuel.  In doubles the same happens with lengths above 0:
    at the position 2^53 a [PLANK_WIDTH] of 1 does not move [l], and a
    [PLANK_LENGTH] of 1e-15 does not lower an [h] of 100. *)
Lemma recompute_hangs_on_planks_without_length :
  0 < Room.PLANK_WIDTH (Room.measure no_length_room)
  /\ (forall fuel,
        Room.recomputeFloor fuel (Room.measure no_length_room) fresh_statics = None)
  /\ Doubles.advance 9007199254740992 1 = 9007199254740992%float
  /\ Doubles.fill 100 1e-15 = 100%float.
Proof.
  split; [reflexivity|]. split; [|split; reflexivity].
  intros fuel. unfold Room.recomputeFloor.
  rewrite columnLoop_starves; [reflexivity| | |]; vm_compute; congruence.
Qed.

(** C10, amended.  For every room with [PLANK_WIDTH > 0] and
    [PLANK_LENGTH > 0] whose numbers are integers of magnitude at most 2^50
    (where the sums, differences and comparisons of the loop are the exact
    ones in doubles as well), recompute terminates: from some fuel on it
    returns the same room, each column position is tried at most twice, two
    consecutive tries are either the same position, first with and then
    without partial selection, or positions [PLANK_WIDTH] apart, the columns
    stand at [leftmost + START_LEFT] and every [PLANK_WIDTH] from there while
    left of [rightmost], and every position tried, and the position after
    it, is a safe integer between the first position and [rightmost]. *)
Theorem recompute_terminates (r : Room.t) (g : Plank.statics) :
  small_room r = true ->
  0 < Room.PLANK_WIDTH r ->
  0 < Room.PLANK_LENGTH r ->
  exists n r' g' tr,
    (forall fuel, (n <= fuel)%nat ->
       Room.recomputeFloor fuel r g = Some (r', g')
       /\ Room.attempts fuel fuel (Room.enterLoop r g) = tr)
    /\ (forall x, (tries x tr <= 2)%nat)
    /\ (forall i a b, tr !! i = Some a -> tr !! S i = Some b ->
          retry_or_advance (Room.PLANK_WIDTH r) a b)
    /\ map Column.left (Room.columns r')
       = stops (Room.leftmost r + Room.START_LEFT r) (Room.rightmost r)
           (Room.PLANK_WIDTH r)
    /\ Forall (fun a => Room.leftmost r + Room.START_LEFT r <= a.1 < Room.rightmost r
                        /\ MIN_SAFE_INTEGER < a.1
                        /\ a.1 + Room.PLANK_WIDTH r < MAX_SAFE_INTEGER) tr.
Proof.
  intros Hsmall Hpw Hpl.
  destruct (small_room_spec _ Hsmall) as (Hlm & Hrm & Hsl & Hw & _).
  apply small_spec in Hlm, Hrm, Hsl, Hw.
  destruct (enterLoop_spec r g) as (Hrel & Hl & _ & _ & Hnone & _).
  destruct (relaid_params _ _ Hrel) as (Hpl' & Hpw' & _ & _ & Hright' & _).
  destruct (columnLoop_ends
              (Z.to_nat (2 * (Room.rightmost (Room.self (Room.enterLoop r g))
                              - Room.l (Room.enterLoop r g)) + 1))
              (Room.enterLoop r g))
    as (n & s' & tr & Hloop & _ & _ & _ & Hchain & Hcount & Hstops).
  - rewrite Hpw'. exact Hpw.
  - rewrite Hpl'. exact Hpl.
  - destruct (Room.pickPartial (Room.enterLoop r g)); lia.
  - exists n, (Room.self s'), (Room.statics s'), tr.
    split; [|split; [|split; [|split]]].
    4:{ rewrite Hstops, Hnone, Hl, Hright', Hpw'. reflexivity. }
    + intros fuel Hfuel. unfold Room.recomputeFloor.
      destruct (Hloop fuel fuel Hfuel Hfuel) as [-> ->]. auto.
    + intros x. specialize (Hcount x). unfold tries_bound in Hcount.
      destruct (x <? _); [lia|]. destruct (x =? _); [|exact Hcount].
      destruct (Room.pickPartial _); lia.
    + rewrite <- Hpw'. exact Hchain.
    + destruct (Hloop n n (Nat.le_refl _) (Nat.le_refl _)) as [_ <-].
      eapply Forall_impl; [apply attempts_range; rewrite Hpw'; lia|].
      intros a Ha. simpl in Ha. rewrite Hl, Hright' in Ha.
      unfold MIN_SAFE_INTEGER, MAX_SAFE_INTEGER. lia.
Qed.

Lemma recompute_terminates_witness :
  exists n r' g' tr,
    (forall fuel, (n <= fuel)%nat ->
       Room.recomputeFloor fuel (Room.measure l_room) fresh_statics = Some (r', g')
       /\ Room.attempts fuel fuel (Room.enterLoop (Room.measure l_room) fresh_statics) = tr)
    /\ (forall x, (tries x tr <= 2)%nat)
    /\ (forall i a b, tr !! i = Some a -> tr !! S i = Some b ->
          retry_or_advance (Room.PLANK_WIDTH (Room.measure l_room)) a b)
    /\ map Column.left (Room.columns r') = [0; 10]
    /\ Forall (fun a => 0 + 0 <= a.1 < 20 /\ MIN_SAFE_INTEGER < a.1
                        /\ a.1 + 10 < MAX_SAFE_INTEGER) tr.
Proof.
  apply (recompute_terminates (Room.measure l_room) fresh_statics); reflexivity.
Defined.

(** C8, as stated, fails: the room 5 wide is narrower than a plank 10 wide,
    and recompute gives it one column. *)
Lemma narrow_room_gets_a_column :
  Room.rightmost (Room.measure narrow_room) - Room.leftmost (Room.measure narrow_room)
    < Room.PLANK_WIDTH narrow_room
  /\ exists x,
       (forall fuel, (2 <= fuel)%nat ->
          Room.recomputeFloor fuel (Room.measure narrow_room) fresh_statics = Some x)
       /\ length (Room.columns x.1) = 1%nat.
Proof.
  split; [reflexivity|].
  run_layout 2%nat narrow_room. reflexivity.
Qed.

(** C8, amended.  For every room that has no floor to the right of the
    first column position ([rightmost <= leftmost + START_LEFT], as for a
    room of no width or without vertices), recompute produces zero columns:
    the column loop never executes, whatever the fuel, and the result is the
    empty layout. *)
Theorem no_floor_no_columns (fuel : nat) (r : Room.t) (g : Plank.statics) :
  Room.rightmost r <= Room.leftmost r + Room.START_LEFT r ->
  exists r' g',
    Room.recomputeFloor fuel r g = Some (r', g')
    /\ Room.attempts fuel fuel (Room.enterLoop r g) = []
    /\ relaid r r'
    /\ Room.columns r' = [] /\ Room.planksNeeded r' = 0 /\ Room.cuts r' = 0
    /\ Room.waste r' = 0.
Proof.
  intros Hout.
  destruct (enterLoop_spec r g) as (Hrel & Hl & _ & _ & Hcols & Hneed & Hcuts).
  destruct (relaid_params _ _ Hrel) as (_ & _ & _ & _ & Hright & _).
  assert (Hin : (Room.l (Room.enterLoop r g)
                 <? Room.rightmost (Room.self (Room.enterLoop r g))) = false).
  { apply Z.ltb_ge. rewrite Hl, Hright. exact Hout. }
  exists (Room.self (Room.enterLoop r g)), (Room.statics (Room.enterLoop r g)).
  unfold Room.recomputeFloor, Room.waste.
  rewrite Hcols, Hneed, Hcuts.
  destruct fuel; simpl; rewrite Hin; auto 10.
Qed.

Lemma no_floor_no_columns_witness :
  exists r' g',
    Room.recomputeFloor 0 (Room.measure empty_room) fresh_statics = Some (r', g')
    /\ Room.attempts 0 0 (Room.enterLoop (Room.measure empty_room) fresh_statics) = []
    /\ relaid (Room.measure empty_room) r'
    /\ Room.columns r' = [] /\ Room.planksNeeded r' = 0 /\ Room.cuts r' = 0
    /\ Room.waste r' = 0.
Proof.
  apply (no_floor_no_columns 0 (Room.measure empty_room) fresh_statics).
  vm_compute. discriminate.
Defined.

(** C4, as stated, fails: the layout of the square room wastes 200, not 0.
    The rest of each cut board is 60 - 40 - 0 = 20, which does not exceed
    [MIN_PLANK_LENGTH = 20], so it is never kept. *)
Lemma square_room_wastes :
  exists x,
    (forall fuel, (10 <= fuel)%nat ->
       Room.recomputeFloor fuel (Room.measure square_room) fresh_statics = Some x)
    /\ Room.waste x.1 = 200 /\ Room.waste x.1 <> 0.
Proof.
  run_layout 10%nat square_room. split; [reflexivity|discriminate].
Qed.

(** C4, amended.  For the 100 x 100 square room with [PLANK_WIDTH = 10],
    [PLANK_LENGTH = 60], [CUT_THICKNESS = 0], [MIN_PLANK_LENGTH = 20],
    [START_LEFT = 0] and an empty pool, recompute produces exactly 10
    columns, each of height 100, each holding one full plank of length 60
    and one plank of length 40 cut at the bottom, with [planksNeeded = 20],
    [cuts = 10], [waste = 200] and an empty pool at the end. *)
Theorem square_room_layout :
  exists x,
    (forall fuel, (10 <= fuel)%nat ->
       Room.recomputeFloor fuel (Room.measure square_room) fresh_statics = Some x)
    /\ length (Room.columns x.1) = 10%nat
    /\ Forall (fun c => Column.height c = 100
                        /\ map Plank.length (Column.planks c) = [60; 40]
                        /\ map Plank.cut_end (Column.planks c) = [""; "<"]%string)
         (Room.columns x.1)
    /\ map Column.left (Room.columns x.1) = [0; 10; 20; 30; 40; 50; 60; 70; 80; 90]
    /\ Room.planksNeeded x.1 = 20 /\ Room.cuts x.1 = 10
    /\ Room.waste x.1 = 200 /\ Room.partials x.1 = [].
Proof.
  run_layout 10%nat square_room.
  split; [reflexivity|]. split; [repeat constructor|]. repeat split.
Qed.

(** C6 on the code: the single column of the room 10 wide and 120 high is
    exactly two planks high and starts without a partial; the layout holds
    two planks of length 60 and wastes nothing, but the second is made as a
    cut plank, marked cut at the bottom, and [cuts] is 1, not 0. *)
Theorem exact_fit_counts_a_cut :
  exists x,
    (forall fuel, (2 <= fuel)%nat ->
       Room.recomputeFloor fuel (Room.measure tall_room) fresh_statics = Some x)
    /\ map Column.height (Room.columns x.1) = [2 * Room.PLANK_LENGTH tall_room]
    /\ map (fun c => map Plank.length (Column.planks c)) (Room.columns x.1) = [[60; 60]]
    /\ map (fun c => map Plank.cut_end (Column.planks c)) (Room.columns x.1)
       = [[""; "<"]]%string
    /\ Room.cuts x.1 = 1 /\ Room.planksNeeded x.1 = 2
    /\ Room.waste x.1 = 0 /\ Room.partials x.1 = [].
Proof.
  run_layout 2%nat tall_room. repeat split.
Qed.

(** C1, as stated, fails: in the L-shaped room the column at 10 is 50 high;
    it is first tried with the partial of length 40 left by the column at 0,
    which leaves 10 < [MIN_PLANK_LENGTH], and the retry at 10 without a
    partial does not begin with a full plank: its only plank is the cut of
    length 50, shorter than [PLANK_LENGTH = 60]. *)
Lemma retry_may_begin_with_a_cut :
  exists x,
    (forall fuel, (3 <= fuel)%nat ->
       Room.recomputeFloor fuel (Room.measure l_room) fresh_statics = Some x)
    /\ Room.attempts 3 3 (Room.enterLoop (Room.measure l_room) fresh_statics)
       = [(0, true); (10, true); (10, false)]
    /\ map Column.left (Room.columns x.1) = [0; 10]
    /\ map (fun c => map Plank.length (Column.planks c)) (Room.columns x.1)
       = [[20]; [50]]
    /\ map (fun c => map Plank.cut_end (Column.planks c)) (Room.columns x.1)
       = [["<"]; ["<"]]%string
    /\ map Plank.length (Room.partials x.1) = [40]
    /\ Room.PLANK_LENGTH x.1 = 60.
Proof.
  run_layout 3%nat l_room. repeat split.
Qed.

(** C1, amended.  Whenever, after the optional partial and the full planks,
    the remaining height [h] satisfies [0 < h < MIN_PLANK_LENGTH] and the
    column was started with a partial, the turn pushes that partial back
    into the pool, discards the column and leaves [x] where it was with
    partial starts disabled; the retry then commits a column at the same
    [x] that takes nothing from the pool: all its planks are new, and its
    first plank is a full plank when the column is higher than
    [PLANK_LENGTH] and otherwise the cut plank that fills the column. *)
Theorem retry_rule (fuel : nat) (s s1 : Room.frame) (v : Room.locals) (p : Plank.t) :
  Room.fullPlanksLoop fuel (Room.startColumn s).1 (Room.startColumn s).2 = Some (s1, v) ->
  0 < Room.h v < Room.MIN_PLANK_LENGTH (Room.self s) ->
  Room.partial v = Some p ->
  exists s',
    Room.body fuel s = Some s'
    /\ (exists i p0,
          Room.partials (Room.self s) !! i = Some p0 /\ p = placed s p0
          /\ Room.partials (Room.self s') = delete i (Room.partials (Room.self s)) ++ [p])
    /\ Room.columns (Room.self s') = Room.columns (Room.self s)
    /\ Room.planksNeeded (Room.self s') = Room.planksNeeded (Room.self s)
    /\ Room.cuts (Room.self s') = Room.cuts (Room.self s)
    /\ Room.l s' = Room.l s
    /\ Room.pickPartial s' = false
    /\ exists n s'' c banked,
         (forall fuel', (n <= fuel')%nat -> Room.body fuel' s' = Some s'')
         /\ Room.columns (Room.self s'') = Room.columns (Room.self s) ++ [c]
         /\ Column.left c = Room.l s
         /\ Room.l s'' = Room.l s + Room.PLANK_WIDTH (Room.self s)
         /\ Room.pickPartial s'' = true
         /\ Room.partials (Room.self s'') = Room.partials (Room.self s') ++ banked
         /\ Forall (made_since (Room.statics s')) (Column.planks c ++ banked)
         /\ (0 <= Room.first_offset s -> Column.planks c <> [])
         /\ (forall q, head (Column.planks c) = Some q ->
               (Room.PLANK_LENGTH (Room.self s) < Column.height c ->
                whole (Room.self s) q)
               /\ (Column.height c <= Room.PLANK_LENGTH (Room.self s) ->
                   Plank.cut_end q = "<"%string /\ Plank.length q = Column.height c)).
Proof.
  intros Hrun Hh Hp.
  destruct (filled_spec _ _ _ _ Hrun)
    as (Hself & Hl & Hfo & Hpick & Huid & Hle & fulls & Hall & Hn & Hcases).
  destruct Hcases as [(Hnone & _)|(Hpk & i & p0 & Hi & Hm & Hpool & Hp0 & Hc & Hhv)];
    [congruence|].
  assert (Hpp : p = placed s p0) by congruence.
  assert (Hrel : relaid (Room.self s) (Room.self s1)) by (rewrite Hself; reflexivity).
  destruct (relaid_params _ _ Hrel) as (Hpl & Hpw & Hmin & _).
  assert (Hretry : Room.retries (Room.self s1) v = true).
  { unfold Room.retries. rewrite Hp, Hmin.
    rewrite !andb_true_iff, bool_decide_eq_true, !Z.ltb_lt. split; [lia|eauto]. }
  destruct (retryColumn_spec s1 v Hretry) as (p' & Hp' & _ & Hfin).
  assert (p' = p) as -> by congruence.
  exists (Room.finishColumn s1 v).
  split; [apply body_unfold; exact Hrun|]. rewrite Hfin. simpl.
  split; [exists i, p0; rewrite Hpool; auto|].
  rewrite Hself at 1 2 3. simpl.
  repeat (split; [first [reflexivity | exact Hl]|]).
  (* the retry *)
  set (s' := Room.Frame (Room.set_partials (Room.partials (Room.self s1) ++ [p]) (Room.self s1))
               (Room.statics s1) (Room.l s1) (Room.first_offset s1) false).
  assert (Hrel' : relaid (Room.self s) (Room.self s')).
  { eapply relaid_trans; [exact Hrel|apply relaid_with_layout]. }
  destruct (relaid_params _ _ Hrel') as (Hpl' & Hpw' & _).
  destruct (body_ends s') as (n & s1' & v' & Hbody); [rewrite Hpl'; lia|].
  destruct (Hbody n (Nat.le_refl _)) as [Hrun' _].
  destruct (fresh_turn n s' s1' v' eq_refl Hrun')
    as (c & banked & Hcols & Hleft & Hheight & Hl'' & Hpick'' & Hpool'' & Hnew & Hne & Hhead).
  exists n, (Room.finishColumn s1' v'), c, banked.
  split; [intros fuel' Hfuel'; apply (Hbody fuel' Hfuel')|].
  assert (Hcl : Room.clipped (Room.self s') (Room.l s') = Room.clipped (Room.self s) (Room.l s)).
  { rewrite (clipped_relaid _ _ _ Hrel'). simpl. rewrite Hl. reflexivity. }
  rewrite Hcl in Hheight.
  assert (Hfo' : Room.first_offset s' = 0) by exact Hfo.
  rewrite Hfo', Z.sub_0_r, Hpl' in Hhead. rewrite Hfo', Z.sub_0_r in Hne.
  split; [rewrite Hcols; simpl; rewrite Hself; reflexivity|].
  split; [rewrite Hleft; exact Hl|].
  split; [rewrite Hl'', Hpw'; simpl; rewrite Hl; reflexivity|].
  split; [exact Hpick''|]. split; [exact Hpool''|]. split; [exact Hnew|].
  split.
  2:{ intros q Hq. destruct (Hhead q Hq) as [Hw Hcut]. split; [|exact Hcut].
      intros Hbig. unfold whole in *. rewrite <- Hpl'. apply Hw. exact Hbig. }
  intros Hfo0. apply Hne. rewrite Hheight.
  destruct Hm as [_ Hlen]. 
  assert (0 <= Z.of_nat (length fulls) * Room.PLANK_LENGTH (Room.self s)) by nia.
  lia.
Qed.

Lemma retry_rule_witness :
  exists s',
    Room.body 1 l_room_second_turn = Some s'
    /\ Room.l s' = Room.l l_room_second_turn
    /\ Room.pickPartial s' = false
    /\ Room.columns (Room.self s') = Room.columns (Room.self l_room_second_turn).
Proof.
  destruct (retry_rule 1 l_room_second_turn
              (filled 1 l_room_second_turn).1 (filled 1 l_room_second_turn).2
              (Plank.mk 1 1 ">" 10 0 10 40 false))
    as (s' & Hbody & _ & Hcols & _ & _ & Hl & Hpick & _).
  - vm_compute. reflexivity.
  - vm_compute. split; reflexivity.
  - vm_compute. reflexivity.
  - exists s'. auto.
Defined.

(** C3, as stated, fails on lengths that are not integers: the program
    computes the rest of the board in doubles.  With [PLANK_LENGTH = 91.5],
    [CUT_THICKNESS = 0.26] and [MIN_PLANK_LENGTH = 20], a column with
    [h = 16.1] left banks a partial, and the two lengths and
    [CUT_THICKNESS] add up to more than [PLANK_LENGTH].  With
    [PLANK_LENGTH = 60], [CUT_THICKNESS = 0.1] and [MIN_PLANK_LENGTH = 10], a
    column with [h = 49.9] left, whose rest 60 - 49.9 - 0.1 is 10 and so
    equal to [MIN_PLANK_LENGTH], banks a partial of length
    10.000000000000002. *)
Lemma trailing_cut_rounds :
  (exists p,
     Doubles.cut 91.5 0.26 20 16.1 = (16.1%float, Some p)
     /\ (16.1 + p + 0.26 =? 91.5)%float = false
     /\ (91.5 <? 16.1 + p + 0.26)%float = true)
  /\ (exists p,
        Doubles.cut 60 0.1 10 49.9 = (49.9%float, Some p)
        /\ p = 10.000000000000002%float
        /\ (10 <? p)%float = true).
Proof.
  split; eexists; (split; [vm_compute; reflexivity|split; reflexivity]).
Qed.

(** C3, amended.  A column that ends with a fresh cut of remaining height
    [h > 0], in a room whose numbers are integers of magnitude at most 2^50
    (where doubles compute the rest of the board exactly): the trailing
    plank has length [h], at most [PLANK_LENGTH], and is cut at the bottom;
    the rest of the board, [PLANK_LENGTH - h - CUT_THICKNESS], a safe
    integer, joins the pool as a top-cut partial with the id of the trailing
    plank exactly when it is strictly longer than [MIN_PLANK_LENGTH], and
    then the two lengths and [CUT_THICKNESS] add up to [PLANK_LENGTH];
    otherwise the pool gets nothing. *)
Theorem trailing_cut (fuel : nat) (s s1 : Room.frame) (v : Room.locals) :
  small_room (Room.self s) = true ->
  Room.fullPlanksLoop fuel (Room.startColumn s).1 (Room.startColumn s).2 = Some (s1, v) ->
  Room.retries (Room.self s1) v = false ->
  0 < Room.h v ->
  exists s' c cp,
    Room.body fuel s = Some s'
    /\ Room.columns (Room.self s') = Room.columns (Room.self s) ++ [c]
    /\ Column.planks c = Column.planks (Room.col v) ++ [cp]
    /\ last (Column.planks c) = Some cp
    /\ Plank.length cp = Room.h v
    /\ 0 < Plank.length cp <= Room.PLANK_LENGTH (Room.self s)
    /\ MIN_SAFE_INTEGER < leftover (Room.self s) (Room.h v) < MAX_SAFE_INTEGER
    /\ Plank.cut_end cp = "<"%string
    /\ Room.cuts (Room.self s') = Room.cuts (Room.self s) + 1
    /\ ((Room.MIN_PLANK_LENGTH (Room.self s) < leftover (Room.self s) (Room.h v)
         /\ exists p,
              Room.partials (Room.self s')
              = Room.probe (Room.pickPartial s) (Room.h v) (Room.partials (Room.self s1))
                ++ [p]
              /\ Plank.id p = Plank.id cp
              /\ Plank.cut_end p = ">"%string
              /\ Plank.length p = leftover (Room.self s) (Room.h v)
              /\ Plank.length cp + Plank.length p + Room.CUT_THICKNESS (Room.self s)
                 = Room.PLANK_LENGTH (Room.self s))
        \/ (leftover (Room.self s) (Room.h v) <= Room.MIN_PLANK_LENGTH (Room.self s)
            /\ Room.partials (Room.self s')
               = Room.probe (Room.pickPartial s) (Room.h v) (Room.partials (Room.self s1)))).
Proof.
  intros Hsmall Hrun Hretry Hh.
  destruct (small_room_spec _ Hsmall) as (_ & _ & _ & _ & Hspl & Hsct).
  apply small_spec in Hspl, Hsct.
  destruct (filled_spec _ _ _ _ Hrun) as (Hself & _ & _ & Hpick & _ & Hle & _).
  assert (Hrel : relaid (Room.self s) (Room.self s1)) by (rewrite Hself; reflexivity).
  assert (Hlo : leftover (Room.self s1) (Room.h v) = leftover (Room.self s) (Room.h v))
    by (rewrite Hself; reflexivity).
  destruct (relaid_params _ _ Hrel) as (Hpl & _ & Hmin & Hct & _).
  destruct (commitColumn_cut s1 v Hh)
    as (cp & banked & Hlen & Hcut & _ & Hbank & _ & _ & _ & Hs' & _).
  exists (Room.finishColumn s1 v),
         (Column.set_planks (Column.planks (Room.col v) ++ [cp]) (Room.col v)), cp.
  split; [apply body_unfold; exact Hrun|].
  unfold Room.finishColumn. rewrite Hretry, Hs'. simpl.
  split; [rewrite Hself; reflexivity|]. split; [reflexivity|].
  split; [apply last_snoc|]. split; [exact Hlen|].
  split; [rewrite Hlen; lia|].
  split; [unfold leftover, MIN_SAFE_INTEGER, MAX_SAFE_INTEGER; lia|].
  split; [exact Hcut|].
  split; [rewrite Hself; reflexivity|].
  rewrite Hlo, Hmin, Hpick in *.
  destruct Hbank as [(Hover & p & -> & Hid & Hpc & Hpl' & _)|(Hover & ->)].
  - left. split; [exact Hover|]. exists p. repeat (split; [assumption||reflexivity|]).
    rewrite Hlen, Hpl'. unfold leftover. lia.
  - right. split; [exact Hover|]. rewrite app_nil_r. reflexivity.
Qed.

Lemma trailing_cut_witness :
  exists s',
    Room.body 1 (Room.enterLoop (Room.measure square_room) fresh_statics) = Some s'
    /\ Room.cuts (Room.self s') = 1.
Proof.
  destruct (trailing_cut 1 (Room.enterLoop (Room.measure square_room) fresh_statics)
              (filled 1 (Room.enterLoop (Room.measure square_room) fresh_statics)).1
              (filled 1 (Room.enterLoop (Room.measure square_room) fresh_statics)).2)
    as (s' & c & cp & Hbody & _ & _ & _ & _ & _ & _ & _ & Hcuts & _).
  - vm_compute. reflexivity.
  - vm_compute. reflexivity.
  - vm_compute. reflexivity.
  - vm_compute. reflexivity.
  - exists s'. split; [exact Hbody|]. rewrite Hcuts. reflexivity.
Defined.

(** C9.  In a turn with partial starts enabled that ends with a fresh cut of
    remaining height [h]: when the pool holds a bottom-cut partial at least
    [h] long, the probe takes the longest bottom-cut partial out of the pool
    and it is neither laid in a column nor put back, so that, the planks
    being distinct objects, no plank of the room has its [uid] any more;
    when every bottom-cut partial is shorter than [h], the pool keeps all
    its planks, the probed one being pushed back.  In both cases [banked] is
    what the cut adds to the pool. *)
Theorem probe_loses_base_partial (fuel : nat) (s s1 : Room.frame) (v : Room.locals) :
  Room.fullPlanksLoop fuel (Room.startColumn s).1 (Room.startColumn s).2 = Some (s1, v) ->
  Room.pickPartial s = true ->
  Room.retries (Room.self s1) v = false ->
  0 < Room.h v ->
  exists s' banked,
    Room.body fuel s = Some s'
    /\ Forall (made_since (Room.statics s)) banked
    /\ ((exists q, q ∈ Room.partials (Room.self s)
                   /\ Plank.cut_end q = "<"%string /\ Room.h v <= Plank.length q) ->
        exists j bp,
          Room.partials (Room.self s1) !! j = Some bp
          /\ bp ∈ Room.partials (Room.self s)
          /\ Plank.cut_end bp = "<"%string /\ Room.h v <= Plank.length bp
          /\ (forall q, q ∈ Room.partials (Room.self s) -> Plank.cut_end q = "<"%string ->
                Plank.length q <= Plank.length bp)
          /\ Room.partials (Room.self s') = delete j (Room.partials (Room.self s1)) ++ banked
          /\ (distinct_planks s ->
              forall p, p ∈ planks_of s' -> Plank.uid p <> Plank.uid bp))
    /\ ((forall q, q ∈ Room.partials (Room.self s) -> Plank.cut_end q = "<"%string ->
           Plank.length q < Room.h v) ->
        exists pool,
          pool ≡ₚ Room.partials (Room.self s1)
          /\ Room.partials (Room.self s') = pool ++ banked).
Proof.
  intros Hrun Hpk Hretry Hh.
  destruct (filled_spec _ _ _ _ Hrun)
    as (Hself & Hl & Hfo & Hpick & Huid & Hle & fulls & Hall & Hn & Hcases).
  destruct (commitColumn_cut s1 v Hh)
    as (cp & banked & _ & _ & Hcpuid & Hbank & _ & _ & _ & Hs' & _).
  exists (Room.finishColumn s1 v), banked. split; [apply body_unfold; exact Hrun|].
  unfold Room.finishColumn. rewrite Hretry.
  unfold planks_of. rewrite Hs'. rewrite Hpick, Hpk. simpl.
  assert (Hcols : Room.columns (Room.self s1) = Room.columns (Room.self s))
    by (rewrite Hself; reflexivity).
  assert (Hsub : forall x, x ∈ Room.partials (Room.self s1) -> x ∈ Room.partials (Room.self s)).
  { destruct Hcases as [(_ & -> & _)|(_ & i & p & _ & _ & -> & _)];
      [auto|]. intros x. apply list_elem_of_delete_inv. }
  assert (Hkeep : forall x, x ∈ Room.partials (Room.self s) ->
                    Plank.cut_end x = "<"%string -> x ∈ Room.partials (Room.self s1)).
  { destruct Hcases as [(_ & -> & _)|(_ & i & p & Hi & [Hgt _] & -> & _)]; [auto|].
    intros x Hx Hcut. eapply delete_keeps_others; [exact Hi|exact Hx|].
    intros ->. rewrite Hgt in Hcut. discriminate Hcut. }
  assert (Hbanked : forall x, x ∈ banked -> Plank.UID (Room.statics s) <= Plank.uid x).
  { intros x Hx. destruct Hbank as [(_ & b & -> & _ & _ & _ & Hb)|(_ & ->)]; [|inversion Hx].
    apply list_elem_of_singleton in Hx as ->. lia. }
  split; [apply Forall_forall; exact Hbanked|].
  split.
  - intros (q & Hq & Hqcut & Hqlen).
    destruct (probe_cases (Room.h v) (Room.partials (Room.self s1)))
      as [[Hnone _]|(j & bp & Hj & [Hbcut Hbpos] & Hmax & Hprobe)].
    { exfalso. apply (Hnone q (Hkeep q Hq Hqcut)). split; [exact Hqcut|lia]. }
    assert (Hbp1 : bp ∈ Room.partials (Room.self s1))
      by (eapply list_elem_of_lookup_2; exact Hj).
    assert (Hbig : Room.h v <= Plank.length bp).
    { assert (Hqm : matching "<" 0 q) by (split; [exact Hqcut|lia]).
      specialize (Hmax q (Hkeep q Hq Hqcut) Hqm). lia. }
    destruct Hprobe as [[_ Hprobe]|[Hshort _]]; [|lia].
    rewrite Hprobe.
    exists j, bp. split; [exact Hj|]. split; [apply Hsub; exact Hbp1|].
    split; [exact Hbcut|]. split; [exact Hbig|].
    split; [|split; [reflexivity|]].
    + intros x Hx Hxcut. destruct (Z.le_gt_cases (Plank.length x) 0); [lia|].
      apply Hmax; [apply Hkeep; assumption|]. split; [exact Hxcut|lia].
    + intros (Hnd & Hold).
      unfold planks_of in Hnd, Hold.
      rewrite fmap_app in Hnd. apply NoDup_app in Hnd as (Hnd0 & Hcross & _).
      apply Forall_app in Hold as [Hold0 _]. rewrite Forall_forall in Hold0.
      assert (Hbpold := Hold0 bp (Hsub bp Hbp1)). simpl in Hbpold.
      assert (Hnd1 : NoDup (Plank.uid <$> Room.partials (Room.self s1))).
      { destruct Hcases as [(_ & -> & _)|(_ & i & p & Hi & _ & -> & _)]; [exact Hnd0|].
        eapply sublist_NoDup; [exact Hnd0|]. apply fmap_sublist, sublist_delete. }
      assert (Hsame : forall x y, x ∈ Room.partials (Room.self s) ->
                y ∈ Room.partials (Room.self s) -> Plank.uid x = Plank.uid y -> x = y).
      { intros x y Hx Hy Heq. apply list_elem_of_lookup in Hx as [i Hi].
        rewrite (delete_Permutation _ i x Hi) in Hy.
        apply elem_of_cons in Hy as [->|Hy]; [reflexivity|].
        exfalso. exact (delete_drops_uid _ _ _ Hi Hnd0 y Hy (eq_sym Heq)). }
      assert (Hstart : forall x, x ∈ Column.planks (Room.col v) ->
                (Plank.UID (Room.statics s) <= Plank.uid x)
                \/ (exists y, y ∈ Room.partials (Room.self s)
                              /\ (y ∉ Room.partials (Room.self s1))
                              /\ Plank.uid x = Plank.uid y)).
      { destruct Hcases as [(_ & _ & -> & _)|(_ & i & p & Hi & _ & Hpool & _ & -> & _)];
          simpl; intros x Hx.
        - left. rewrite Forall_forall in Hall. destruct (Hall x Hx) as (_ & Hm & _). exact Hm.
        - apply elem_of_cons in Hx as [->|Hx].
          + right. exists p. split; [eapply list_elem_of_lookup_2; exact Hi|].
            split; [|reflexivity]. rewrite Hpool. intros Hin.
            exact (delete_drops_uid _ _ _ Hi Hnd0 p Hin eq_refl).
          + left. rewrite Forall_forall in Hall.
            destruct (Hall x Hx) as (_ & Hm & _). exact Hm. }
      intros p Hp. rewrite Hcols, laid_app in Hp.
      rewrite !elem_of_app in Hp. destruct Hp as [[Hp|Hp]|[Hp|Hp]].
      * exact (delete_drops_uid _ _ _ Hj Hnd1 p Hp).
      * specialize (Hbanked p Hp). lia.
      * intros Heq. apply (Hcross (Plank.uid bp)).
        -- apply list_elem_of_fmap. exists bp. split; [reflexivity|apply Hsub; exact Hbp1].
        -- apply list_elem_of_fmap. exists p. split; [congruence|exact Hp].
      * unfold laid in Hp. simpl in Hp. rewrite app_nil_r in Hp.
        apply elem_of_app in Hp as [Hp|Hp].
        -- destruct (Hstart p Hp) as [Hnew|(y & Hy & Hgone & Heq)]; [lia|].
           intros Heq'. apply Hgone.
           rewrite (Hsame y bp Hy (Hsub bp Hbp1) ltac:(congruence)). exact Hbp1.
        -- apply list_elem_of_singleton in Hp as ->. lia.
  - intros Hshort.
    destruct (probe_cases (Room.h v) (Room.partials (Room.self s1)))
      as [[_ ->]|(j & bp & Hj & [Hbcut Hbpos] & Hmax & Hprobe)]; [eauto|].
    assert (Hbp1 : bp ∈ Room.partials (Room.self s1))
      by (eapply list_elem_of_lookup_2; exact Hj).
    specialize (Hshort bp (Hsub bp Hbp1) Hbcut).
    destruct Hprobe as [[Hbig _]|[_ ->]]; [lia|].
    exists (delete j (Room.partials (Room.self s1)) ++ [bp]). split; [|reflexivity].
    rewrite (delete_Permutation _ j bp Hj) at 2.
    rewrite Permutation_app_comm. reflexivity.
Qed.

Lemma probe_loses_base_partial_witness :
  exists s' bp,
    Room.body 1 (Room.enterLoop stocked_room (Plank.Statics 2 1)) = Some s'
    /\ bp ∈ Room.partials (Room.self (Room.enterLoop stocked_room (Plank.Statics 2 1)))
    /\ Plank.length bp = 50
    /\ Room.partials (Room.self s') = []
    /\ forall p, p ∈ planks_of s' -> Plank.uid p <> Plank.uid bp.
Proof.
  destruct (probe_loses_base_partial 1 (Room.enterLoop stocked_room (Plank.Statics 2 1))
              (filled 1 (Room.enterLoop stocked_room (Plank.Statics 2 1))).1
              (filled 1 (Room.enterLoop stocked_room (Plank.Statics 2 1))).2)
    as (s' & banked & Hbody & _ & Hlost & _).
  - vm_compute. reflexivity.
  - vm_compute. reflexivity.
  - vm_compute. reflexivity.
  - vm_compute. reflexivity.
  - destruct Hlost as (j & bp & _ & Hin & _ & _ & _ & _ & Hgone).
    + exists (Plank.mk 0 1 "<" 0 0 10 50 true). split; [|split].
      * vm_compute. apply list_elem_of_singleton. reflexivity.
      * reflexivity.
      * vm_compute. intros H. discriminate H.
    + exists s', bp. split; [exact Hbody|]. split; [exact Hin|].
      vm_compute in Hin. apply list_elem_of_singleton in Hin as ->.
      split; [reflexivity|]. split.
      * vm_compute in Hbody. injection Hbody as <-. reflexivity.
      * apply Hgone. split.
        -- vm_compute. constructor; [|constructor]. intros H. inversion H.
        -- vm_compute. constructor; [reflexivity|constructor].
Defined.

(** C5.  [selectPartial(cutEnd, minLength)] returns the longest plank of
    the pool whose cut end is [cutEnd] and whose length is strictly greater
    than [minLength], the first one found among equally long ones, and
    removes exactly that plank from the pool; when no plank matches it
    returns none and the pool is unchanged. *)
Theorem selectPartial_longest (cut_end : string) (min_length : Z) (pool : list Plank.t) :
  match Room.selectPartial cut_end min_length pool with
  | (Some p, pool') =>
      exists i, pool !! i = Some p /\ pool' = delete i pool
        /\ matching cut_end min_length p
        /\ (forall q, q ∈ pool -> matching cut_end min_length q ->
              Plank.length q <= Plank.length p)
        /\ (forall j q, (j < i)%nat -> pool !! j = Some q ->
              matching cut_end min_length q -> Plank.length q < Plank.length p)
  | (None, pool') =>
      pool' = pool /\ forall q, q ∈ pool -> ~ matching cut_end min_length q
  end.
Proof. exact (selectPartial_spec cut_end min_length pool). Qed.

(** C7 on the code: [shuffle] renumbers the planks in the columns and
    leaves the pool as it is, so a cut board with one piece in a column and
    the other in the pool loses its shared id.  In the layout of the room
    four planks wide, the plank cut for the last column ([uid] 8) and the
    rest of its board in the pool ([uid] 9) share the id 7; after a shuffle
    that reverses the columns the cut plank has the id 2, the piece in the
    pool still the id 7, and 7 is now also the id of a whole plank
    ([uid] 0). *)
Theorem shuffle_forgets_the_pool :
  (forall fuel, (4 <= fuel)%nat ->
     Room.recomputeFloor fuel (Room.measure four_room) fresh_statics
     = Some (four_floor, Plank.Statics 8 10))
  /\ map (fun c => map piece (Column.planks c)) (Room.columns four_floor)
     = [[(0, 1, ""); (1, 2, "<")]; [(2, 2, ">"); (3, 3, ""); (4, 4, "<")];
        [(5, 4, ">"); (6, 5, "<")]; [(7, 6, ""); (8, 7, "<")]]%string
  /\ map piece (Room.partials four_floor) = [(9, 7, ">"%string)]
  /\ exists r',
       Room.shuffle [1; 0; 0; 0; 1; 0; 1; 1]%nat four_floor = Some r'
       /\ map Column.left (Room.columns r') = [0; 10; 20; 30]
       /\ map (fun c => map piece (Column.planks c)) (Room.columns r')
          = [[(7, 1, ""); (8, 2, "<")]; [(5, 3, ">"); (6, 4, "<")];
             [(2, 5, ">"); (3, 6, ""); (4, 3, "<")]; [(0, 7, ""); (1, 5, "<")]]%string
       /\ map piece (Room.partials r') = [(9, 7, ">"%string)].
Proof.
  split.
  - intros fuel Hfuel.
    assert (H : Room.recomputeFloor 4 (Room.measure four_room) fresh_statics
                = Some (four_floor, Plank.Statics 8 10)) by (vm_compute; reflexivity).
    exact (proj1 (recomputeFloor_more 4 fuel _ _ _ H Hfuel)).
  - split; [reflexivity|]. split; [reflexivity|].
    destruct (Room.shuffle [1; 0; 0; 0; 1; 0; 1; 1]%nat four_floor) as [r'|] eqn:Hrun;
      [|vm_compute in Hrun; discriminate Hrun].
    exists r'. split; [reflexivity|].
    vm_compute in Hrun. injection Hrun as <-. repeat split.
Qed.




(** * Further properties of the code *)


(** X2.  The horizontal edges that [measure] finds are exactly the edges
    from a vertex to the next one (cyclically) at the same [y], with [left]
    the smaller and [right] the larger [x]; each lies inside the bounding
    box, and there are at most as many as vertices. *)
Theorem measure_hedges (r : Room.t) :
  (forall e, e ∈ Room.hedges (Room.measure r)
     <-> exists i p1 p2,
           Room.vertices r !! i = Some p1
           /\ Room.vertices r !! ((i + 1) `mod` length (Room.vertices r))%nat = Some p2
           /\ Vertex.y p1 = Vertex.y p2
           /\ e = HEdge.mk (Z.min (Vertex.x p1) (Vertex.x p2))
                           (Z.max (Vertex.x p1) (Vertex.x p2)) (Vertex.y p1))
  /\ Forall (fun e => HEdge.left e <= HEdge.right e
                      /\ Room.leftmost (Room.measure r) <= HEdge.left e
                      /\ HEdge.right e <= Room.rightmost (Room.measure r)
                      /\ Room.topmost (Room.measure r) <= HEdge.y e
                         <= Room.bottommost (Room.measure r))
       (Room.hedges (Room.measure r))
  /\ (length (Room.hedges (Room.measure r)) <= length (Room.vertices r))%nat.
Proof.
  split; [apply measure_hedge_elem|]. split.
  - apply Forall_forall. intros e He.
    apply measure_hedge_elem in He as (i & p1 & p2 & H1 & H2 & Hy & ->).
    pose proof (measure_box r) as Hbox. rewrite Forall_forall in Hbox.
    pose proof (Hbox p1 (list_elem_of_lookup_2 _ _ _ H1)) as B1.
    pose proof (Hbox p2 (list_elem_of_lookup_2 _ _ _ H2)) as B2.
    cbn [HEdge.left HEdge.right HEdge.y]. lia.
  - rewrite measure_fields. simpl.
    apply (length_edges (Room.vertices r) (next_vertex (Room.vertices r))).
Qed.

(** X3.  [measure] depends on the vertices only: measuring twice, or
    measuring a room whose edges and bounding box were set to anything,
    gives the same room, and nothing but the edges and the bounding box
    changes. *)
Theorem measure_again (r : Room.t) :
  Room.measure (Room.measure r) = Room.measure r
  /\ (forall hs lm rm tm bm,
        Room.measure (Room.with_measure hs lm rm tm bm r) = Room.measure r)
  /\ Room.measure r
     = Room.with_measure (Room.hedges (Room.measure r))
         (Room.leftmost (Room.measure r)) (Room.rightmost (Room.measure r))
         (Room.topmost (Room.measure r)) (Room.bottommost (Room.measure r)) r.
Proof.
  split; [|split].
  - rewrite (measure_fields (Room.measure r)). rewrite (measure_fields r). reflexivity.
  - intros. rewrite !measure_fields. reflexivity.
  - rewrite measure_fields. reflexivity.
Qed.

(** X4.  For a column of positive width and an edge with [left <= right]:
    [clip] moves [top] and [bottom] to include the level of the edge when
    the edge runs over the inside of the column, and leaves the column as
    it is when the edge only touches it or lies beside it. *)
Theorem clip_overlap (hedge : HEdge.t) (c : Column.t) :
  0 < Column.width c -> HEdge.left hedge <= HEdge.right hedge ->
  (overlaps (Column.left c) (Column.width c) hedge ->
   Column.clip hedge c = stretched (HEdge.y hedge) c)
  /\ (HEdge.right hedge <= Column.left c \/ Column.right c <= HEdge.left hedge ->
      Column.clip hedge c = c).
Proof.
  intros Hw He. rewrite (clip_cases hedge c Hw He). unfold overlaps, Column.right. split.
  - intros H. rewrite decide_True by exact H. reflexivity.
  - intros H. rewrite decide_False by lia. reflexivity.
Qed.

Lemma clip_overlap_witness :
  Column.clip (HEdge.mk 0 10 5) (Column.constructor 10 10) = Column.constructor 10 10
  /\ Column.clip (HEdge.mk 0 11 5) (Column.constructor 10 10)
     = Column.mk 10 10 5 5 [].
Proof.
  split.
  - apply (clip_overlap (HEdge.mk 0 10 5) (Column.constructor 10 10)); simpl; lia.
  - apply (clip_overlap (HEdge.mk 0 11 5) (Column.constructor 10 10));
      unfold overlaps; simpl; lia.
Defined.

(** X5.  The column that [recomputeFloor] makes at [x] and clips against
    every edge reaches from the highest to the lowest edge that runs over
    it: every such edge lies between [top] and [bottom], [top] and [bottom]
    are levels of such edges or still the sentinels, without any such edge
    the height is [MIN_SAFE_INTEGER - MAX_SAFE_INTEGER], and the order of
    the edges does not matter. *)
Theorem clipped_extent (r : Room.t) (x : Z) :
  0 < Room.PLANK_WIDTH r ->
  Forall (fun e => HEdge.left e <= HEdge.right e) (Room.hedges r) ->
  (forall e, e ∈ Room.hedges r -> overlaps x (Room.PLANK_WIDTH r) e ->
     Column.top (Room.clipped r x) <= HEdge.y e <= Column.bottom (Room.clipped r x))
  /\ (Column.top (Room.clipped r x) = MAX_SAFE_INTEGER
      \/ exists e, e ∈ Room.hedges r /\ overlaps x (Room.PLANK_WIDTH r) e
                   /\ HEdge.y e = Column.top (Room.clipped r x))
  /\ (Column.bottom (Room.clipped r x) = MIN_SAFE_INTEGER
      \/ exists e, e ∈ Room.hedges r /\ overlaps x (Room.PLANK_WIDTH r) e
                   /\ HEdge.y e = Column.bottom (Room.clipped r x))
  /\ ((forall e, e ∈ Room.hedges r -> ~ overlaps x (Room.PLANK_WIDTH r) e) ->
      Column.height (Room.clipped r x) = MIN_SAFE_INTEGER - MAX_SAFE_INTEGER)
  /\ (forall r', Room.PLANK_WIDTH r' = Room.PLANK_WIDTH r ->
                 Room.hedges r' ≡ₚ Room.hedges r ->
                 Room.clipped r' x = Room.clipped r x).
Proof.
  intros Hw Hwf. rewrite (clipped_fields r x Hw Hwf).
  cbn [Column.top Column.bottom Column.height].
  set (ys := map HEdge.y (filter (overlaps x (Room.PLANK_WIDTH r)) (Room.hedges r))).
  assert (Hys : forall z, z ∈ ys -> exists e, e ∈ Room.hedges r
                 /\ overlaps x (Room.PLANK_WIDTH r) e /\ HEdge.y e = z).
  { intros z Hz. apply list_elem_of_fmap in Hz as (e & -> & He).
    apply list_elem_of_filter in He as [Hov He]. eauto. }
  split; [|split; [|split; [|split]]].
  - intros e He Hov.
    assert (Hin : HEdge.y e ∈ ys).
    { apply list_elem_of_fmap. exists e. split; [reflexivity|].
      apply list_elem_of_filter. auto. }
    destruct (foldl_min_le ys MAX_SAFE_INTEGER) as [_ Hmin].
    destruct (foldl_max_ge ys MIN_SAFE_INTEGER) as [_ Hmax].
    rewrite Forall_forall in Hmin, Hmax. specialize (Hmin _ Hin). specialize (Hmax _ Hin). lia.
  - destruct (foldl_min_in ys MAX_SAFE_INTEGER) as [->|Hin]; [auto|].
    right. apply Hys in Hin. exact Hin.
  - destruct (foldl_max_in ys MIN_SAFE_INTEGER) as [->|Hin]; [auto|].
    right. apply Hys in Hin. exact Hin.
  - intros Hno. unfold Column.height. simpl.
    destruct ys as [|z ys']; [reflexivity|].
    destruct (Hys z) as (e & He & Hov & _); [left|]. destruct (Hno e He Hov).
  - intros r' Hpw Hperm.
    assert (Hwf' : Forall (fun e => HEdge.left e <= HEdge.right e) (Room.hedges r'))
      by (rewrite Hperm; exact Hwf).
    rewrite (clipped_fields r' x) by (try exact Hwf'; rewrite Hpw; exact Hw).
    rewrite Hpw. unfold ys. f_equal.
    + apply foldl_min_perm. rewrite Hperm. reflexivity.
    + apply foldl_max_perm. rewrite Hperm. reflexivity.
Qed.

Lemma clipped_extent_witness :
  Column.top (Room.clipped (Room.measure square_room) 30) <= 0
  /\ 100 <= Column.bottom (Room.clipped (Room.measure square_room) 30).
Proof.
  assert (Hwf : Forall (fun e => HEdge.left e <= HEdge.right e)
                  (Room.hedges (Room.measure square_room)))
    by (repeat constructor; vm_compute; discriminate).
  destruct (clipped_extent (Room.measure square_room) 30 eq_refl Hwf) as (Hin & _).
  split.
  - apply (Hin (HEdge.mk 0 100 0)); [vm_compute; left|vm_compute; auto].
  - apply (Hin (HEdge.mk 0 100 100)); [vm_compute; right; left|vm_compute; auto].
Defined.







(** X9.  After [recomputeFloor] every column holds at most one top-cut
    partial from the pool, then whole planks, then at most one plank cut at
    the bottom; that cut plank is there whenever a whole plank is, it is
    longer than 0 and no longer than [PLANK_LENGTH], and below a partial it
    is not shorter than [MIN_PLANK_LENGTH]. *)
Theorem recompute_column_shape (fuel : nat) (r r' : Room.t) (g g' : Plank.statics) :
  Room.recomputeFloor fuel r g = Some (r', g') ->
  Forall (shaped r) (Room.columns r').
Proof.
  intros Hrun.
  pose proof (recomputeFloor_relaid _ _ _ _ _ Hrun) as Hrel.
  destruct (recomputeFloor_invariant
              (fun s => Forall (shaped (Room.self s)) (Room.columns (Room.self s)))
              fuel r r' g g' shaped_body) as (s' & Hs' & -> & _); [|exact Hrun|].
  - destruct (enterLoop_spec r g) as (_ & _ & _ & _ & -> & _). constructor.
  - rewrite Hrel in Hs'. exact Hs'.
Qed.

Lemma recompute_column_shape_witness :
  exists r' g',
    Room.recomputeFloor 3 (Room.measure l_room) fresh_statics = Some (r', g')
    /\ Forall (shaped (Room.measure l_room)) (Room.columns r').
Proof.
  destruct (Room.recomputeFloor 3 (Room.measure l_room) fresh_statics)
    as [[r' g']|] eqn:Hrun; [|vm_compute in Hrun; discriminate Hrun].
  exists r', g'. split; [reflexivity|].
  exact (recompute_column_shape _ _ _ _ _ Hrun).
Defined.

(** X10.  After [recomputeFloor] no two planks of the room (pool and
    columns) have the same id and the same cut end, and every id lies
    between 1 and [Plank.NEXT]. *)
Theorem recompute_numbers_boards (fuel : nat) (r r' : Room.t) (g g' : Plank.statics) :
  Room.recomputeFloor fuel r g = Some (r', g') ->
  NoDup (map tag (all_planks r'))
  /\ Forall (fun p => 1 <= Plank.id p < Plank.NEXT g') (all_planks r').
Proof.
  intros Hrun.
  destruct (recomputeFloor_invariant numbered fuel r r' g g' numbered_body
              (numbered_enter r g) Hrun) as (s' & (H1 & H2 & _) & -> & ->).
  split; assumption.
Qed.

Lemma recompute_numbers_boards_witness :
  exists r' g',
    Room.recomputeFloor 3 (Room.measure three_room) fresh_statics = Some (r', g')
    /\ NoDup (map tag (all_planks r'))
    /\ map Plank.id (laid (Room.columns r')) = [1; 2; 2; 3; 4; 4; 5].
Proof.
  destruct (Room.recomputeFloor 3 (Room.measure three_room) fresh_statics)
    as [[r' g']|] eqn:Hrun; [|vm_compute in Hrun; discriminate Hrun].
  exists r', g'. split; [reflexivity|].
  split; [apply (recompute_numbers_boards _ _ _ _ _ Hrun)|].
  vm_compute in Hrun. injection Hrun as <- <-. reflexivity.
Defined.

(** X11.  After [recomputeFloor] every top-cut piece that is not the
    user's, in the pool or in a column, has the id of a plank cut at the
    bottom that lies in a column, and (lengths being integers) the two
    lengths and [CUT_THICKNESS] add up to [PLANK_LENGTH]. *)
Theorem recompute_pairs_offcuts (fuel : nat) (r r' : Room.t) (g g' : Plank.statics) :
  Room.recomputeFloor fuel r g = Some (r', g') ->
  forall p, p ∈ all_planks r' -> Plank.cut_end p = ">"%string ->
    Plank.permanent p = false ->
    exists q, q ∈ laid (Room.columns r') /\ Plank.id q = Plank.id p
              /\ Plank.cut_end q = "<"%string
              /\ Plank.length q + Plank.length p + Room.CUT_THICKNESS r
                 = Room.PLANK_LENGTH r.
Proof.
  intros Hrun.
  pose proof (recomputeFloor_relaid _ _ _ _ _ Hrun) as Hrel.
  destruct (relaid_params _ _ Hrel) as (Hpl & _ & _ & Hct & _).
  destruct (recomputeFloor_invariant paired fuel r r' g g' paired_body
              (paired_enter r g) Hrun) as (s' & Hs' & -> & _).
  rewrite <- Hpl, <- Hct. exact Hs'.
Qed.

Lemma recompute_pairs_offcuts_witness :
  exists r' g' q,
    Room.recomputeFloor 3 (Room.measure l_room) fresh_statics = Some (r', g')
    /\ q ∈ laid (Room.columns r') /\ Plank.id q = 1
    /\ Plank.cut_end q = "<"%string /\ Plank.length q + 40 + 0 = 60.
Proof.
  destruct (Room.recomputeFloor 3 (Room.measure l_room) fresh_statics)
    as [[r' g']|] eqn:Hrun; [|vm_compute in Hrun; discriminate Hrun].
  destruct (recompute_pairs_offcuts _ _ _ _ _ Hrun (Plank.mk 1 1 ">" 10 0 10 40 false))
    as (q & Hq); [|reflexivity|reflexivity|].
  - vm_compute in Hrun. injection Hrun as <- <-. vm_compute. left.
  - exists r', g', q. split; [reflexivity|exact Hq].
Defined.

(** X12.  [recomputeFloor] keeps the user's planks that are not cut at the
    bottom: every permanent plank of the room with another cut end is in
    the room afterwards, up to its id and its position; and every plank of
    the room afterwards is such a permanent plank or a new plank, made in
    this run and not permanent. *)
Theorem recompute_keeps_user_planks (fuel : nat) (r r' : Room.t) (g g' : Plank.statics) :
  Room.recomputeFloor fuel r g = Some (r', g') ->
  (forall p, p ∈ all_planks r -> Plank.permanent p = true ->
     Plank.cut_end p <> "<"%string ->
     exists p', p' ∈ all_planks r' /\ bare p' = bare p)
  /\ (forall p', p' ∈ all_planks r' ->
        (exists p, p ∈ all_planks r /\ Plank.permanent p = true /\ bare p' = bare p)
        \/ (Plank.UID g <= Plank.uid p' < Plank.UID g' /\ Plank.permanent p' = false)).
Proof.
  intros Hrun.
  destruct (recomputeFloor_invariant
              (keeps (filter (fun p => Plank.permanent p = true) (all_planks r)) g)
              fuel r r' g g' (keeps_body _ g) (keeps_enter r g) Hrun)
    as (s' & (Hold & Hall & _) & -> & ->).
  split.
  - intros p Hp Hperm Hend. apply Hold; [|exact Hend].
    apply list_elem_of_filter. auto.
  - intros p' Hp'. destruct (Hall p' Hp') as [(p & Hp & Hb)|H]; [left|right; exact H].
    apply list_elem_of_filter in Hp as [Hperm Hp]. eauto.
Qed.

Lemma recompute_keeps_user_planks_witness :
  exists r' g' p',
    Room.recomputeFloor 20 shelf_room (Plank.Statics 2 1) = Some (r', g')
    /\ p' ∈ all_planks r' /\ bare p' = bare (Plank.mk 0 1 ">" 0 0 10 30 true).
Proof.
  destruct (Room.recomputeFloor 20 shelf_room (Plank.Statics 2 1))
    as [[r' g']|] eqn:Hrun; [|vm_compute in Hrun; discriminate Hrun].
  destruct (recompute_keeps_user_planks _ _ _ _ _ Hrun) as [Hkeep _].
  destruct (Hkeep (Plank.mk 0 1 ">" 0 0 10 30 true)) as (p' & Hp');
    [vm_compute; left|reflexivity|discriminate|].
  exists r', g', p'. split; [reflexivity|exact Hp'].
Defined.

(** X13.  [clearPartials] empties the pool and takes every permanent plank
    out of every column, leaving the other planks in their order and the
    columns, the counters and [waste] as they were; clearing twice is
    clearing once. *)
Theorem clearPartials_spec (r : Room.t) :
  Room.partials (Room.clearPartials r) = []
  /\ laid (Room.columns (Room.clearPartials r))
     = filter (fun p => Plank.permanent p = false) (laid (Room.columns r))
  /\ Forall2 (fun c' c => c' = Column.set_planks
                                 (filter (fun p => Plank.permanent p = false)
                                    (Column.planks c)) c)
       (Room.columns (Room.clearPartials r)) (Room.columns r)
  /\ relaid r (Room.clearPartials r)
  /\ Room.planksNeeded (Room.clearPartials r) = Room.planksNeeded r
  /\ Room.cuts (Room.clearPartials r) = Room.cuts r
  /\ Room.waste (Room.clearPartials r) = Room.waste r
  /\ Room.clearPartials (Room.clearPartials r) = Room.clearPartials r.
Proof.
  split; [reflexivity|]. split; [apply laid_clear|]. split; [|split; [reflexivity|]].
  { unfold Room.clearPartials. simpl. apply Forall2_fmap_l, Forall_Forall2_diag, Forall_forall.
    intros c _. simpl. rewrite splicePermanent_filter. reflexivity. }
  split; [reflexivity|]. split; [reflexivity|]. split.
  - unfold Room.waste, Room.clearPartials. simpl. f_equal.
    unfold Room.columnage. rewrite !columnage_from. f_equal. unfold heights.
    rewrite map_map. reflexivity.
  - unfold Room.clearPartials. simpl. unfold Room.with_layout. simpl. f_equal.
    rewrite map_map. apply map_ext. intros c. simpl.
    rewrite !splicePermanent_filter, list_filter_filter_l by auto. reflexivity.
Qed.

(** X14.  A layout computed after [clearPartials] is the layout of the room
    without any plank: it holds only planks made in that run, none of them
    permanent. *)
Theorem recompute_after_clear (fuel : nat) (r : Room.t) (g : Plank.statics) :
  Room.recomputeFloor fuel (Room.clearPartials r) g
  = Room.recomputeFloor fuel (Room.with_layout [] [] 0 0 r) g
  /\ forall r' g',
       Room.recomputeFloor fuel (Room.clearPartials r) g = Some (r', g') ->
       Forall (fun p => Plank.UID g <= Plank.uid p < Plank.UID g'
                        /\ Plank.permanent p = false) (all_planks r').
Proof.
  split.
  - unfold Room.recomputeFloor. f_equal.
    pose proof (clear_no_permanent r) as Hnone. unfold all_planks in Hnone.
    rewrite filter_app in Hnone. apply app_eq_nil in Hnone as [_ Hcols].
    unfold Room.enterLoop, Room.collectPermanentPartials. unfold laid in Hcols.
    rewrite Hcols. reflexivity.
  - intros r' g' Hrun.
    destruct (recomputeFloor_invariant
                (keeps (filter (fun p => Plank.permanent p = true)
                          (all_planks (Room.clearPartials r))) g)
                fuel _ r' g g' (keeps_body _ g) (keeps_enter _ g) Hrun)
      as (s' & (_ & Hall & _) & -> & ->).
    rewrite clear_no_permanent in Hall. apply Forall_forall. intros p Hp.
    destruct (Hall p Hp) as [(p0 & Hp0 & _)|H]; [|exact H].
    apply elem_of_nil in Hp0. destruct Hp0.
Qed.

(** X15.  [removePartial(uid)] takes one plank with this [uid] out of the
    room, from the pool if one is there and else from the first column that
    has one, and returns it; the other planks, the counters and the extent of
    the columns stay; when the planks have distinct [uid]s no plank with
    this [uid] is left.  Without such a plank the room is unchanged and
    nothing is returned. *)
Theorem removePartial_spec (uid : Z) (r : Room.t) :
  match Room.removePartial uid r with
  | (Some plank, r') =>
      Plank.uid plank = uid
      /\ all_planks r ≡ₚ plank :: all_planks r'
      /\ relaid r r'
      /\ Room.planksNeeded r' = Room.planksNeeded r /\ Room.cuts r' = Room.cuts r
      /\ ((exists i, Room.partials r !! i = Some plank
                     /\ Room.partials r' = delete i (Room.partials r)
                     /\ Room.columns r' = Room.columns r)
          \/ (Forall (fun q => Plank.uid q <> uid) (Room.partials r)
              /\ Room.partials r' = Room.partials r
              /\ map (Column.set_planks []) (Room.columns r')
                 = map (Column.set_planks []) (Room.columns r)))
      /\ (NoDup (map Plank.uid (all_planks r)) ->
          Forall (fun q => Plank.uid q <> uid) (all_planks r'))
  | (None, r') => r' = r /\ Forall (fun q => Plank.uid q <> uid) (all_planks r)
  end.
Proof.
  unfold Room.removePartial.
  assert (Hlast : forall plank rest,
            Plank.uid plank = uid -> all_planks r ≡ₚ plank :: rest ->
            NoDup (map Plank.uid (all_planks r)) ->
            Forall (fun q => Plank.uid q <> uid) rest).
  { intros plank rest Hu Hperm Hnd. rewrite Hperm in Hnd. simpl in Hnd.
    apply NoDup_cons in Hnd as [Hnot _]. apply Forall_forall. intros q Hq Hqu.
    apply Hnot. rewrite Hu, <- Hqu. apply list_elem_of_fmap. eauto. }
  destruct (list_find _ (Room.partials r)) as [[i plank]|] eqn:Hfind.
  - apply list_find_Some in Hfind as (Hi & Hu & _).
    assert (Hperm : all_planks r
                    ≡ₚ plank :: all_planks (Room.set_partials (delete i (Room.partials r)) r)).
    { unfold all_planks. simpl. rewrite (delete_Permutation _ _ _ Hi) at 1. reflexivity. }
    split; [exact Hu|]. split; [exact Hperm|]. split; [reflexivity|].
    split; [reflexivity|]. split; [reflexivity|]. split; [left; eauto|].
    apply (Hlast plank); assumption.
  - apply list_find_None in Hfind.
    pose proof (removeFromColumns_spec uid (Room.columns r)) as Hcols.
    destruct (Room.removeFromColumns uid (Room.columns r)) as [[plank cols']|].
    + destruct Hcols as (Hu & front & c & back & i & Hsplit & -> & Hi & _ & _).
      assert (Hperm : all_planks r
                      ≡ₚ plank :: all_planks
                           (Room.set_columns
                              (front ++ Column.set_planks (delete i (Column.planks c)) c
                               :: back) r)).
      { unfold all_planks. simpl. rewrite Hsplit, !laid_middle. simpl.
        rewrite (delete_Permutation _ _ _ Hi) at 1. simpl.
        rewrite <- !Permutation_middle. reflexivity. }
      split; [exact Hu|]. split; [exact Hperm|]. split; [reflexivity|].
      split; [reflexivity|]. split; [reflexivity|]. split.
      * right. split; [exact Hfind|]. split; [reflexivity|]. simpl.
        rewrite Hsplit, !map_app. reflexivity.
      * apply (Hlast plank); assumption.
    + split; [reflexivity|]. unfold all_planks. apply Forall_app. auto.
Qed.

(** X16.  [cuttingSchedule] lists, for the board [i] and the cut end [e],
    the text of the last plank in the columns (left to right, top to
    bottom) with this id and this cut end; a board has an entry exactly when
    some plank in the columns has its id and is cut. *)
Theorem cuttingSchedule_lists (r : Room.t) (i : Z) (e : string) :
  listed (Room.cuttingSchedule r) i e
  = Room.cut_text <$> last (filter (cut_of i e) (laid (Room.columns r)))
  /\ (is_Some (Room.cuttingSchedule r !! i)
      <-> exists p, p ∈ laid (Room.columns r) /\ Plank.id p = i
                    /\ Plank.cut_end p <> ""%string).
Proof.
  unfold Room.cuttingSchedule. fold (laid (Room.columns r)). split.
  - rewrite listed_fold. destruct (last _); reflexivity.
  - rewrite schedule_dom. split; [|auto].
    intros [H|H]; [|exact H]. rewrite lookup_empty in H. destruct H as [? H]. discriminate H.
Qed.

(** X17.  After [recomputeFloor] the cutting schedule lists every cut plank
    of the columns with its own text: no cut is hidden by another plank
    with the same id and cut end. *)
Theorem recompute_schedule_complete (fuel : nat) (r r' : Room.t) (g g' : Plank.statics) :
  Room.recomputeFloor fuel r g = Some (r', g') ->
  forall p, p ∈ laid (Room.columns r') -> Plank.cut_end p <> ""%string ->
    listed (Room.cuttingSchedule r') (Plank.id p) (Plank.cut_end p)
    = Some (Room.cut_text p).
Proof.
  intros Hrun p Hp Hcut.
  destruct (recomputeFloor_invariant numbered fuel r r' g g' numbered_body
              (numbered_enter r g) Hrun) as (s' & (Hnd & _) & -> & _).
  unfold planks_of in Hnd. rewrite map_app in Hnd. apply NoDup_app in Hnd as (_ & _ & Hnd).
  unfold Room.cuttingSchedule. fold (laid (Room.columns (Room.self s'))).
  rewrite listed_fold.
  replace (filter (cut_of (Plank.id p) (Plank.cut_end p)) (laid (Room.columns (Room.self s'))))
    with [p]; [reflexivity|].
  rewrite <- (filter_unique tag _ p Hnd Hp). apply list_filter_iff.
  intros q. unfold cut_of, tag. split.
  - intros H. injection H as -> ->. auto.
  - intros (-> & -> & _). reflexivity.
Qed.

Lemma recompute_schedule_complete_witness :
  exists r' g',
    Room.recomputeFloor 3 (Room.measure l_room) fresh_statics = Some (r', g')
    /\ listed (Room.cuttingSchedule r') 1 "<" = Some "1< 20.0"%string.
Proof.
  destruct (Room.recomputeFloor 3 (Room.measure l_room) fresh_statics)
    as [[r' g']|] eqn:Hrun; [|vm_compute in Hrun; discriminate Hrun].
  exists r', g'. split; [reflexivity|].
  apply (recompute_schedule_complete _ _ _ _ _ Hrun (Plank.mk 0 1 "<" 0 0 10 20 false));
    [|discriminate].
  vm_compute in Hrun. injection Hrun as <- <-. vm_compute. left.
Defined.



(** X19.  [shuffle] only exchanges columns of the same height: the columns
    afterwards stand at the same positions with the same heights as before,
    and when the planks stood at their columns' [left] before they do so
    afterwards. *)
Theorem shuffle_keeps_the_plan (rnd : list nat) (r r' : Room.t) :
  Room.shuffle rnd r = Some r' ->
  map spot (Room.columns r') ≡ₚ map spot (Room.columns r)
  /\ (forall c', c' ∈ Room.columns r' ->
        exists c, c ∈ Room.columns r /\ Column.left c = Column.left c'
                  /\ Column.height c = Column.height c')
  /\ (Forall lined_up (Room.columns r) -> Forall lined_up (Room.columns r')).
Proof.
  unfold Room.shuffle. intros Hrun.
  destruct (Room.shuffleBins _ _ _ _) as [[swapped rnd1]|] eqn:Hswap; [|discriminate].
  destruct (Room.renumberColumns (Room.sort_by_left swapped) ∅ 1)
    as [[cols' remap'] newId'] eqn:Hren.
  injection Hrun as <-. simpl.
  destruct (renumberColumns_spec _ _ _ _ _ _ Hren remap_ok_start)
    as (_ & _ & _ & -> & _).
  assert (Hbins : bins_ok (heights (Room.columns r))
                    (Room.collectBins (Room.START_TOP r) (Room.columns r) 0 [])).
  { apply collectBins_ok.
    - intros j c Hj. unfold heights. rewrite list_lookup_fmap. simpl. rewrite Hj. reflexivity.
    - intros k bin i Hin. apply elem_of_nil in Hin. destruct Hin. }
  assert (Hperm : map spot (map (rename (remapped remap')) (Room.sort_by_left swapped))
                  ≡ₚ map spot swapped).
  { rewrite map_map. erewrite map_ext; [|intros c; apply spot_rename].
    apply Permutation_map, sort_by_left_perm. }
  destruct (shuffleBins_spots _ _ _ Hbins _ _ _ _ eq_refl Hswap) as [Hspots Hlined].
  split; [rewrite Hperm; exact Hspots|]. split.
  - intros c' Hc'.
    assert (Hin : spot c' ∈ map spot (Room.columns r)).
    { rewrite <- Hspots, <- Hperm. apply list_elem_of_fmap. eauto. }
    apply list_elem_of_fmap in Hin as (c & Hs & Hc). injection Hs as Hl Hh. eauto.
  - intros Hl. apply Forall_fmap.
    rewrite (sort_by_left_perm swapped). eapply Forall_impl; [exact (Hlined Hl)|].
    intros c. apply lined_up_rename.
Qed.

Lemma shuffle_keeps_the_plan_witness :
  exists r',
    Room.shuffle [1; 2; 0; 2; 0; 1]%nat three_floor = Some r'
    /\ map spot (Room.columns r') ≡ₚ map spot (Room.columns three_floor).
Proof.
  destruct (Room.shuffle [1; 2; 0; 2; 0; 1]%nat three_floor) as [r'|] eqn:Hrun;
    [|vm_compute in Hrun; discriminate Hrun].
  exists r'. split; [reflexivity|].
  apply (shuffle_keeps_the_plan _ _ _ Hrun).
Defined.

(** X20.  When [START_TOP] is not zero, [shuffle] leaves the leftmost
    column in its place: the first column afterwards is the first column
    before, with plank ids renumbered. *)
Theorem shuffle_keeps_first_column (rnd : list nat) (r r' : Room.t) (c0 : Column.t)
    (rest : list Column.t) :
  Room.START_TOP r <> 0 ->
  Room.columns r = c0 :: rest ->
  Forall (fun c => Column.left c0 < Column.left c) rest ->
  Room.shuffle rnd r = Some r' ->
  exists f tail, Room.columns r' = rename f c0 :: tail.
Proof.
  intros Hst Hcols Hleft. unfold Room.shuffle. intros Hrun.
  destruct (Room.shuffleBins _ _ _ _) as [[swapped rnd1]|] eqn:Hswap; [|discriminate].
  destruct (Room.renumberColumns (Room.sort_by_left swapped) ∅ 1)
    as [[cols' remap'] newId'] eqn:Hren.
  injection Hrun as <-. simpl.
  destruct (renumberColumns_spec _ _ _ _ _ _ Hren remap_ok_start) as (_ & _ & _ & -> & _).
  pose proof (shuffleBins_first _ _
                (collectBins_without_first _ (Room.columns r) Hst 0 []
                   ltac:(intros k bin Hin; apply elem_of_nil in Hin; destruct Hin))
                _ _ _ _ Hswap) as Hfirst.
  assert (Hbins : bins_ok (heights (Room.columns r))
                    (Room.collectBins (Room.START_TOP r) (Room.columns r) 0 [])).
  { apply collectBins_ok.
    - intros j c Hj. unfold heights. rewrite list_lookup_fmap. simpl. rewrite Hj. reflexivity.
    - intros k bin i Hin. apply elem_of_nil in Hin. destruct Hin. }
  destruct (shuffleBins_spots _ _ _ Hbins _ _ _ _ eq_refl Hswap) as [Hspots _].
  rewrite Hcols in Hfirst, Hspots. simpl in Hfirst.
  destruct swapped as [|c1 rest']; [discriminate Hfirst|]. injection Hfirst as ->.
  simpl in Hspots. apply Permutation_cons_inv in Hspots.
  assert (Hleft' : Forall (fun c => Column.left c0 < Column.left c) rest').
  { apply Forall_forall. intros c Hc.
    assert (Hin : spot c ∈ map spot rest) by (rewrite <- Hspots; apply list_elem_of_fmap; eauto).
    apply list_elem_of_fmap in Hin as (d & Hs & Hd). injection Hs as Hl _.
    rewrite Forall_forall in Hleft. rewrite Hl. apply Hleft. exact Hd. }
  destruct (sort_by_left_head c0 rest' Hleft') as [tail ->].
  simpl. eauto.
Qed.

Lemma shuffle_keeps_first_column_witness :
  exists r' f tail,
    Room.shuffle [1; 0; 1; 0]%nat plain_room = Some r'
    /\ Room.columns r'
       = rename f (Column.mk 0 10 0 100 [Plank.mk 0 1 "" 0 5 10 60 false]) :: tail.
Proof.
  destruct (Room.shuffle [1; 0; 1; 0]%nat plain_room) as [r'|] eqn:Hrun;
    [|vm_compute in Hrun; discriminate Hrun].
  destruct (shuffle_keeps_first_column [1; 0; 1; 0]%nat plain_room r'
              (Column.mk 0 10 0 100 [Plank.mk 0 1 "" 0 5 10 60 false])
              [Column.mk 10 10 0 100 [Plank.mk 1 2 "" 10 0 10 60 false];
               Column.mk 20 10 0 100 [Plank.mk 2 3 "" 20 0 10 60 false]])
    as (f & tl & Hcols).
  - discriminate.
  - reflexivity.
  - repeat constructor.
  - exact Hrun.
  - exists r', f, tl. split; [reflexivity|exact Hcols].
Defined.

(** X21.  [shuffle] changes nothing of the room but its columns (so the
    planks of the pool keep their ids), leaves the total plank count and
    the multiset of column heights unchanged, leaves the columns sorted in
    ascending order of [left], and renumbers the plank ids so that they are
    1 .. N (N the number of distinct ids before), numbered in order of first
    encounter from left to right and top to bottom within a column; planks
    keep everything but their position and their id, and the renumbering is
    one-to-one on the old ids, so two planks in the columns share an id
    afterwards exactly when they did before.  A second [shuffle] again yields the same plank
    count and the same column heights. *)
Theorem shuffle_keeps_the_floor (rnd : list nat) (r r' : Room.t) :
  Room.shuffle rnd r = Some r' ->
  r' = Room.set_columns (Room.columns r') r
  /\ length (laid (Room.columns r')) = length (laid (Room.columns r))
  /\ heights (Room.columns r') ≡ₚ heights (Room.columns r)
  /\ Sorted Z.le (map Column.left (Room.columns r'))
  /\ first_encounter 1 (plank_ids (Room.columns r')) = true
  /\ (forall k, k ∈ plank_ids (Room.columns r')
                <-> 1 <= k <= Z.of_nat (boards (Room.columns r)))
  /\ (exists f,
        (forall a b, a ∈ plank_ids (Room.columns r) -> b ∈ plank_ids (Room.columns r) ->
           f a = f b -> a = b)
        /\ map unplaced (Room.columns r')
           ≡ₚ map (fun c => unplaced (rename f c)) (Room.columns r))
  /\ (forall rnd' r'',
        Room.shuffle rnd' r' = Some r'' ->
        length (laid (Room.columns r'')) = length (laid (Room.columns r))
        /\ heights (Room.columns r'') ≡ₚ heights (Room.columns r)).
Proof.
  intros Hrun.
  destruct (shuffle_spec _ _ _ Hrun) as (Hrest & Hsorted & Hfirst & Hids & f & Hinj & Hperm).
  destruct (same_floor f _ _ Hperm) as [Hcount Hheights].
  split; [exact Hrest|]. split; [exact Hcount|]. split; [exact Hheights|]. split; [exact Hsorted|].
  split; [exact Hfirst|]. split; [exact Hids|]. split; [exists f; auto|].
  intros rnd' r'' Hrun'.
  destruct (shuffle_spec _ _ _ Hrun') as (_ & _ & _ & _ & f' & _ & Hperm').
  destruct (same_floor f' _ _ Hperm') as [Hcount' Hheights'].
  split; [congruence|]. etrans; eassumption.
Qed.

Lemma shuffle_keeps_the_floor_witness :
  exists r',
    Room.shuffle [1; 2; 0; 2; 0; 1]%nat three_floor = Some r'
    /\ length (laid (Room.columns r')) = length (laid (Room.columns three_floor))
    /\ first_encounter 1 (plank_ids (Room.columns r')) = true
    /\ plank_ids (Room.columns three_floor) = [1; 2; 2; 3; 4; 4; 5]
    /\ plank_ids (Room.columns r') = [1; 2; 3; 3; 4; 5; 1].
Proof.
  destruct (Room.shuffle [1; 2; 0; 2; 0; 1]%nat three_floor) as [r'|] eqn:Hrun;
    [|vm_compute in Hrun; discriminate Hrun].
  destruct (shuffle_keeps_the_floor _ _ _ Hrun) as (_ & Hcount & _ & _ & Hfirst & _).
  exists r'. split; [reflexivity|]. split; [exact Hcount|]. split; [exact Hfirst|].
  vm_compute in Hrun. injection Hrun as <-. split; reflexivity.
Defined.

(** X22.  For every room there is a run of the random numbers with which
    [shuffle] returns: a bin that is shuffled has at least two columns, so
    the loop that draws a partner other than the column itself can end. *)
Theorem shuffle_can_finish (r : Room.t) : exists rnd r', Room.shuffle rnd r = Some r'.
Proof.
  destruct (shuffleBins_can_finish
              (Room.collectBins (Room.START_TOP r) (Room.columns r) 0 [])
              (Room.Object_keys (Room.collectBins (Room.START_TOP r) (Room.columns r) 0 []))
              (Room.columns r)) as (rnd & cols' & Hrun).
  exists rnd. unfold Room.shuffle. specialize (Hrun []). rewrite app_nil_r in Hrun.
  rewrite Hrun. eauto.
Qed.
